(** * Verification of the agent clients' request-dispatch layer

    A shallow embedding of the three Python clients of the repository
    ([ai_agent_with_proxy.py], [ai_agent_integration.py],
    [simple_ai_agent.py]) together with the properties their
    specification states about proxy rotation, the retry loop, the
    uniform failure shape and the streaming decoder.

    Python objects become records, mutation becomes explicit state passing,
    exceptions become a [Result] carried next to the state, and everything the
    clients obtain from outside the repository (the HTTP transport, the random
    source, the clock, the process environment, the json codec) is a variable
    of the section that embeds the class using it. *)

From Stdlib Require Import ZArith QArith Qround Qpower Qabs Lqa.
From Stdlib Require Import Strings.Byte Ascii String.
From stdpp Require Import gmap strings list pretty.

Local Open Scope string_scope.

(** ** The fragment of Python the clients rely on *)

Module Py.

(** The exception classes that the three clients raise, catch or let
    through.  The [requests_] and [urllib_] prefixes separate the classes
    that the two HTTP libraries both call [HTTPError] / [ConnectionError]. *)
Inductive exc_class : Set :=
| BaseException | Exception | KeyboardInterrupt
| OSError | ValueError | TypeError | LookupError | IndexError | KeyError
| RuntimeError | RecursionError
| UnicodeError | UnicodeDecodeError
| JSONDecodeError
| RequestException | requests_HTTPError | requests_ConnectionError
| ProxyError | SSLError | Timeout | ConnectTimeout | ReadTimeout
| ChunkedEncodingError | ContentDecodingError
| InvalidJSONError | requests_JSONDecodeError | InvalidURL
| URLError | urllib_HTTPError.

#[global] Instance exc_class_eq_dec : EqDecision exc_class.
Proof. solve_decision. Defined.

(** Direct base classes, as declared by CPython, [requests.exceptions] and
    [urllib.error]. *)
Definition bases (c : exc_class) : list exc_class :=
  match c with
  | BaseException => []
  | Exception | KeyboardInterrupt => [BaseException]
  | OSError | ValueError | TypeError | LookupError => [Exception]
  | IndexError | KeyError => [LookupError]
  | RuntimeError => [Exception]
  | RecursionError => [RuntimeError]
  | UnicodeError => [ValueError]
  | UnicodeDecodeError => [UnicodeError]
  | JSONDecodeError => [ValueError]
  | RequestException => [OSError]
  | requests_HTTPError | requests_ConnectionError | Timeout
  | ChunkedEncodingError | ContentDecodingError | InvalidJSONError =>
      [RequestException]
  | ProxyError | SSLError => [requests_ConnectionError]
  | ConnectTimeout => [requests_ConnectionError; Timeout]
  | ReadTimeout => [Timeout]
  | requests_JSONDecodeError => [InvalidJSONError; JSONDecodeError]
  | InvalidURL => [RequestException; ValueError]
  | URLError => [OSError]
  | urllib_HTTPError => [URLError]
  end.

Fixpoint issubclass_upto (depth : nat) (c d : exc_class) : bool :=
  bool_decide (c = d) ||
  match depth with
  | O => false
  | S depth' => existsb (fun b => issubclass_upto depth' b d) (bases c)
  end.

(** No chain of [bases] is longer than six classes. *)
Definition issubclass : exc_class -> exc_class -> bool := issubclass_upto 6.

(** An exception object: its class, [str(e)], and for
    [urllib.error.HTTPError] the status code and the bytes [e.read()]
    returns. *)
Record exn : Set := mk_exn {
  exc_type : exc_class;
  exc_str : string;
  exc_code : Z;
  exc_body : list byte;
}.

Definition new_exn (c : exc_class) (msg : string) : exn :=
  {| exc_type := c; exc_str := msg; exc_code := 0; exc_body := [] |}.

Definition isinstance (e : exn) (c : exc_class) : bool :=
  issubclass (exc_type e) c.

(** The outcome of evaluating a Python expression or block. *)
Inductive Result (A : Type) : Type :=
| Return (a : A)
| Raise (e : exn).
Arguments Return {A} a.
Arguments Raise {A} e.

(** *** Values *)

(** A [float]: a binary64 datum as IEEE 754 has it, a finite one being
    [mantissa * 2 ^ exponent] with its sign. *)
Inductive float : Set :=
| FZero (negative : bool)
| FInfinity (negative : bool)
| FNaN
| FFinite (negative : bool) (mantissa : positive) (exponent : Z).

(** [x != 0.0], the truth value of a [float]: both zeros are false, a NaN
    is true. *)
Definition float_truthy (x : float) : bool :=
  match x with
  | FZero _ => false
  | _ => true
  end.

(** JSON-shaped Python values. *)
#[warnings="-register-all"]
Inductive pyval : Type :=
| PNone
| PBool (b : bool)
| PInt (z : Z)
| PFloat (x : float)
| PStr (s : string)
| PList (l : list pyval)
| PDict (d : gmap string pyval).

(** Truth value of a [dict]: non-empty. *)
Definition dict_truthy {A} (d : gmap string A) : bool :=
  negb (bool_decide (d = ∅)).

(** Truth value testing ([if x:], [x or y]). *)
Definition truthy (v : pyval) : bool :=
  match v with
  | PNone => false
  | PBool b => b
  | PInt z => negb (z =? 0)%Z
  | PFloat x => float_truthy x
  | PStr s => negb (String.eqb s "")
  | PList l => match l with [] => false | _ => true end
  | PDict d => dict_truthy d
  end.

(** The values that count as false, as the language reference lists
    them: [None], [False], zero of a numeric type, and the empty string,
    list and mapping. *)
Inductive falsy : pyval -> Prop :=
| falsy_None : falsy PNone
| falsy_False : falsy (PBool false)
| falsy_int : falsy (PInt 0)
| falsy_float (negative : bool) : falsy (PFloat (FZero negative))
| falsy_str : falsy (PStr "")
| falsy_list : falsy (PList [])
| falsy_dict : falsy (PDict ∅).

(** Truth value of an [Optional[str]]. *)
Definition truthy_str (o : option string) : bool :=
  match o with
  | None => false
  | Some s => negb (String.eqb s "")
  end.

(** [a or b] on [Optional[str]] operands. *)
Definition or_str (a b : option string) : option string :=
  if truthy_str a then a else b.

(** *** Strings and bytes

    A Python [str] is represented by the Rocq string holding its UTF-8
    encoding; [bytes] are lists of bytes. *)

Definition in_range (b : byte) (lo hi : N) : bool :=
  ((lo <=? Byte.to_N b) && (Byte.to_N b <=? hi))%N.

(** Well-formed UTF-8 as CPython's strict decoder accepts it: shortest
    forms only, no surrogates, nothing above U+10FFFF. *)
Fixpoint utf8_valid (bs : list byte) : bool :=
  match bs with
  | [] => true
  | b0 :: t0 =>
      if in_range b0 0x00 0x7f then utf8_valid t0
      else if in_range b0 0xc2 0xdf then
        match t0 with
        | b1 :: t1 => in_range b1 0x80 0xbf && utf8_valid t1
        | _ => false
        end
      else if in_range b0 0xe0 0xef then
        match t0 with
        | b1 :: b2 :: t2 =>
            in_range b1 (if in_range b0 0xe0 0xe0 then 0xa0 else 0x80)
                        (if in_range b0 0xed 0xed then 0x9f else 0xbf)
            && in_range b2 0x80 0xbf && utf8_valid t2
        | _ => false
        end
      else if in_range b0 0xf0 0xf4 then
        match t0 with
        | b1 :: b2 :: b3 :: t3 =>
            in_range b1 (if in_range b0 0xf0 0xf0 then 0x90 else 0x80)
                        (if in_range b0 0xf4 0xf4 then 0x8f else 0xbf)
            && in_range b2 0x80 0xbf && in_range b3 0x80 0xbf
            && utf8_valid t3
        | _ => false
        end
      else false
  end.

(** Where CPython's decoder gives up: the offset of the sequence it cannot
    decode, how many bytes of it the error covers, its first byte, and the
    reason. *)
Record DecodeError : Set := {
  de_start : nat;
  de_length : nat;
  de_byte : byte;
  de_reason : string;
}.

Definition decode_error (start len : nat) (b : byte) (reason : string)
  : DecodeError :=
  {| de_start := start; de_length := len; de_byte := b;
     de_reason := reason |}.

(** The first error of the strict decoder in [bs], which begins at offset
    [pos] of the input.  A sequence cut short by the end of the input is
    reported up to that end, a sequence with a wrong byte up to that
    byte. *)
Fixpoint utf8_error (bs : list byte) (pos : nat) : option DecodeError :=
  match bs with
  | [] => None
  | b0 :: t0 =>
      if in_range b0 0x00 0x7f then utf8_error t0 (1 + pos)
      else if in_range b0 0xc2 0xdf then
        match t0 with
        | [] => Some (decode_error pos 1 b0 "unexpected end of data")
        | b1 :: t1 =>
            if in_range b1 0x80 0xbf then utf8_error t1 (2 + pos)
            else Some (decode_error pos 1 b0 "invalid continuation byte")
        end
      else if in_range b0 0xe0 0xef then
        match t0 with
        | [] => Some (decode_error pos 1 b0 "unexpected end of data")
        | b1 :: t1 =>
            if in_range b1 (if in_range b0 0xe0 0xe0 then 0xa0 else 0x80)
                           (if in_range b0 0xed 0xed then 0x9f else 0xbf)
            then
              match t1 with
              | [] => Some (decode_error pos 2 b0 "unexpected end of data")
              | b2 :: t2 =>
                  if in_range b2 0x80 0xbf then utf8_error t2 (3 + pos)
                  else Some (decode_error pos 2 b0
                               "invalid continuation byte")
              end
            else Some (decode_error pos 1 b0 "invalid continuation byte")
        end
      else if in_range b0 0xf0 0xf4 then
        match t0 with
        | [] => Some (decode_error pos 1 b0 "unexpected end of data")
        | b1 :: t1 =>
            if in_range b1 (if in_range b0 0xf0 0xf0 then 0x90 else 0x80)
                           (if in_range b0 0xf4 0xf4 then 0x8f else 0xbf)
            then
              match t1 with
              | [] => Some (decode_error pos 2 b0 "unexpected end of data")
              | b2 :: t2 =>
                  if in_range b2 0x80 0xbf then
                    match t2 with
                    | [] =>
                        Some (decode_error pos 3 b0 "unexpected end of data")
                    | b3 :: t3 =>
                        if in_range b3 0x80 0xbf then utf8_error t3 (4 + pos)
                        else Some (decode_error pos 3 b0
                                     "invalid continuation byte")
                    end
                  else Some (decode_error pos 2 b0
                               "invalid continuation byte")
              end
            else Some (decode_error pos 1 b0 "invalid continuation byte")
        end
      else Some (decode_error pos 1 b0 "invalid start byte")
  end.

(** [f"{b:02x}"]. *)
Definition hex_digit (n : N) : ascii :=
  match String.get (N.to_nat n) "0123456789abcdef" with
  | Some c => c
  | None => "0"%char
  end.

Definition hex2 (b : byte) : string :=
  String (hex_digit (Byte.to_N b / 16))
    (String (hex_digit (Byte.to_N b mod 16)) "").

(** [str(e)] of the [UnicodeDecodeError] for an error of the decoder. *)
Definition decode_error_str (err : DecodeError) : string :=
  if (de_length err =? 1)%nat then
    "'utf-8' codec can't decode byte 0x" ++ hex2 (de_byte err)
      ++ " in position " ++ pretty (de_start err) ++ ": " ++ de_reason err
  else
    "'utf-8' codec can't decode bytes in position " ++ pretty (de_start err)
      ++ "-" ++ pretty (de_start err + de_length err - 1) ++ ": "
      ++ de_reason err.

(** [str(e)] of what [bs.decode('utf-8')] raises on [bs]. *)
Definition utf8_message (bs : list byte) : string :=
  match utf8_error bs 0 with
  | Some err => decode_error_str err
  | None => ""
  end.

(** [bs.decode('utf-8')]. *)
Definition decode_utf8 (bs : list byte) : Result string :=
  if utf8_valid bs then Return (string_of_list_byte bs)
  else Raise (new_exn UnicodeDecodeError (utf8_message bs)).

(** [json.loads(s)].  The decoder belongs to the standard library and
    stays a parameter: it gives the decoded value or the exception it
    raises, which is a [json.JSONDecodeError] on text that is not JSON, but
    also a [RecursionError] on text nested too deeply and a plain
    [ValueError] on an integer of more digits than the interpreter
    converts. *)
Definition json_loads (decoder : string -> Result pyval) (s : string)
  : Result pyval :=
  decoder s.

(** [a or b] on values. *)
Definition or_val (a b : pyval) : pyval := if truthy a then a else b.

(** [s.encode('utf-8')]. *)
Definition encode_utf8 (s : string) : list byte := list_byte_of_string s.

(** [s.rstrip('/')]. *)
Fixpoint rstrip_slash (s : string) : string :=
  match s with
  | EmptyString => EmptyString
  | String c s' =>
      match rstrip_slash s' with
      | EmptyString => if Ascii.eqb c "/" then EmptyString else String c EmptyString
      | r => String c r
      end
  end.

(** ASCII lower-casing, as [str.lower] acts on header names. *)
Definition lower_ascii (c : ascii) : ascii :=
  let n := nat_of_ascii c in
  if (65 <=? n)%nat && (n <=? 90)%nat then ascii_of_nat (n + 32) else c.

Fixpoint lower (s : string) : string :=
  match s with
  | EmptyString => EmptyString
  | String c s' => String (lower_ascii c) (lower s')
  end.

(** [requests.structures.CaseInsensitiveDict]: the store is keyed by the
    lower-cased name and remembers the spelling last used to set it. *)
Definition header_set (k v : string) (h : gmap string (string * string))
  : gmap string (string * string) :=
  <[lower k := (k, v)]> h.

Definition header_get (k : string) (h : gmap string (string * string))
  : option string :=
  snd <$> h !! lower k.

(** [h.update({k1: v1, ...})] with the items in the order written. *)
Definition headers_update (items : list (string * string))
    (h : gmap string (string * string)) : gmap string (string * string) :=
  foldl (fun acc kv => header_set (fst kv) (snd kv) acc) h items.

End Py.

Export Py.

(** ** The [requests] boundary

    What the clients hand to [requests.Session.request] and what they use of
    the [Response] it gives back. *)

Module Requests.

Record Request : Type := {
  req_method : string;
  req_url : string;
  req_headers : gmap string (string * string);   (* the session's headers *)
  req_json : option pyval;                       (* json=... *)
  req_timeout : option Z;                        (* timeout=..., seconds *)
  req_stream : bool;                             (* stream=... *)
  req_proxies : option (gmap string string);     (* proxies=... *)
}.

Record Response : Type := {
  status_code : Z;
  reason : string;
  url : string;
  json : Result pyval;              (* what [response.json()] evaluates to *)
  lines : list (list byte);         (* what [response.iter_lines()] yields *)
  broken : option exn;              (* raised by [iter_lines] after [lines] *)
}.

(** [Response.raise_for_status]. *)
Definition raise_for_status (r : Response) : Result unit :=
  if (400 <=? status_code r)%Z && (status_code r <? 500)%Z then
    Raise (new_exn requests_HTTPError
             (pretty (status_code r) ++ " Client Error: " ++ reason r
                ++ " for url: " ++ url r))
  else if (500 <=? status_code r)%Z && (status_code r <? 600)%Z then
    Raise (new_exn requests_HTTPError
             (pretty (status_code r) ++ " Server Error: " ++ reason r
                ++ " for url: " ++ url r))
  else Return tt.

(** What the code of a client does that the outside world can observe: its
    own calls of [print], [time.sleep] and [session.request].  What happens
    inside one call of [session.request], the retries of the adapter mounted
    on the session and their waiting included, belongs to that request. *)
Inductive Event : Type :=
| EPrint (s : string)
| ESleep (seconds : Q)
| ERequest (r : Request).

Definition is_request (e : Event) : bool :=
  match e with ERequest _ => true | _ => false end.

Definition is_sleep (e : Event) : bool :=
  match e with ESleep _ => true | _ => false end.

(** Number of physical requests in a trace. *)
Definition attempts_in (tr : list Event) : nat :=
  length (List.filter is_request tr).

(** The delays slept in a trace. *)
Definition sleeps_in (tr : list Event) : list Q :=
  omap (fun e => match e with ESleep d => Some d | _ => None end) tr.

(** The events of a trace that precede its first request. *)
Fixpoint until_request (tr : list Event) : list Event :=
  match tr with
  | [] => []
  | ERequest _ :: _ => []
  | e :: tr' => e :: until_request tr'
  end.

(** One physical attempt over a transport: the request issued after the
    history [hist], then [raise_for_status] on its response. *)
Definition physical
    (session_request : list Event -> Request -> Result Response)
    (hist : list Event) (req : Request) : Result Response :=
  match session_request hist req with
  | Return response =>
      match raise_for_status response with
      | Return _ => Return response
      | Raise e => Raise e
      end
  | Raise e => Raise e
  end.

(** *** [random.uniform]

    Python computes on binary64 numbers.  A number of seconds is kept as
    the rational that the binary64 number is, and every operation rounds its
    exact result to the nearest binary64 number. *)

(** [floor (log2 q)] of a positive [q]. *)
Definition floor_log2 (q : Q) : Z :=
  let e := (Z.log2 (Qnum q) - Z.log2 (Z.pos (Qden q)))%Z in
  if Qle_bool (2 ^ e) q then e else (e - 1)%Z.

(** The integer nearest to [q], the even one of two equally near. *)
Definition round_half_even (q : Q) : Z :=
  let f := Qfloor q in
  match (q - inject_Z f ?= 1 # 2)%Q with
  | Lt => f
  | Gt => (f + 1)%Z
  | Eq => if Z.even f then f else (f + 1)%Z
  end.

(** The binary64 number nearest to [q], ties to even: a multiple of the
    unit in the last of the 53 places of [q].  Magnitudes are taken within
    the range of the normal numbers; overflow and subnormal numbers are
    left out. *)
Definition binary64 (q : Q) : Q :=
  match Qnum q with
  | Z0 => 0%Q
  | _ =>
      let ulp := (2 ^ (floor_log2 (Qabs q) - 52))%Q in
      Qred (inject_Z (round_half_even (q / ulp)) * ulp)
  end.

(** [random.uniform(a, b)], which is [a + (b - a) * self.random()], given
    the value [r] of [random.random()], a multiple of [2 ^ -53] from 0 up
    to [1 - 2 ^ -53]. *)
Definition uniform (a b r : Q) : Q :=
  binary64 (a + binary64 (binary64 (b - a) * r)).

End Requests.

Export Requests.

(** ** [ai_agent_with_proxy.py] *)

Module ProxyRotatingAIAgent.

(** The instance attributes set by [__init__]; the mounted retry adapter
    lives inside the transport.  The cursor is a natural number: it starts
    at 0 and is only ever assigned a remainder modulo the pool size. *)
Record Agent : Type := {
  base_url : string;
  api_key : option string;
  proxies : list string;
  current_proxy_index : nat;
  session_headers : gmap string (string * string);
}.

(** The agent and the history of what it did so far. *)
Record State : Type := {
  self : Agent;
  events : list Event;
}.

Definition set_index (i : nat) (st : State) : State :=
  {| self := {| base_url := base_url (self st);
                api_key := api_key (self st);
                proxies := proxies (self st);
                current_proxy_index := i;
                session_headers := session_headers (self st) |};
     events := events st |}.

Definition emit (e : Event) (st : State) : State :=
  {| self := self st; events := (events st ++ [e])%list |}.

(** Keyword arguments that travel through [make_request]. *)
Record Kwargs : Type := {
  kw_json : option pyval;
  kw_timeout : option Z;
  kw_stream : bool;
  kw_proxies : option (gmap string string);
}.

Definition set_proxies (cfg : gmap string string) (kw : Kwargs) : Kwargs :=
  {| kw_json := kw_json kw; kw_timeout := kw_timeout kw;
     kw_stream := kw_stream kw; kw_proxies := Some cfg |}.

(** State and exceptions. *)
Definition M (A : Type) : Type := State -> Result A * State.

Definition ret {A} (a : A) : M A := fun st => (Return a, st).
Definition raise {A} (e : exn) : M A := fun st => (Raise e, st).
Definition bind {A B} (m : M A) (k : A -> M B) : M B :=
  fun st =>
    match m st with
    | (Return a, st') => k a st'
    | (Raise e, st') => (Raise e, st')
    end.
(** [try: body  except cls as e: handler(e)]. *)
Definition try_except {A} (body : M A) (cls : exc_class) (handler : exn -> M A)
  : M A :=
  fun st =>
    match body st with
    | (Raise e, st') =>
        if isinstance e cls then handler e st' else (Raise e, st')
    | r => r
    end.

Notation "'do' x <- m ; k" := (bind m (fun x => k))
  (at level 10, x name, m at level 100, k at level 200, only parsing).

Definition print (s : string) : M unit := fun st => (Return tt, emit (EPrint s) st).

Definition proxy_config (proxy : string) : gmap string string :=
  <["http" := proxy]> (<["https" := proxy]> ∅).

(** [get_next_proxy]. *)
Definition get_next_proxy : M (option (gmap string string)) :=
  fun st =>
    match proxies (self st) with
    | [] => (Return None, st)
    | _ =>
        match proxies (self st) !! current_proxy_index (self st) with
        | None => (Raise (new_exn IndexError "list index out of range"), st)
        | Some proxy =>
            (Return (Some (proxy_config proxy)),
             set_index ((current_proxy_index (self st) + 1)
                          mod length (proxies (self st))) st)
        end
    end.

(** [n] successive calls of [get_next_proxy], with what each returned. *)
Fixpoint call_get_next_proxy (n : nat) (st : State)
  : list (Result (option (gmap string string))) * State :=
  match n with
  | O => ([], st)
  | S n' =>
      let '(r, st1) := get_next_proxy st in
      let '(rs, st2) := call_get_next_proxy n' st1 in
      (r :: rs, st2)
  end.

(** The cursor invariant of the pool. *)
Definition cursor_valid (st : State) : Prop :=
  proxies (self st) = [] \/
  current_proxy_index (self st) < length (proxies (self st)).

Section Dispatch.

(** The transport: what [self.session.request(method, url, **kwargs)]
    does when issued after the history [events]: a response, or an
    exception. *)
Variable session_request : list Event -> Request -> Result Response.

(** The value [random.random()] yields after a given history. *)
Variable random_random : list Event -> Q.

(** [int(time.time())] after a given history. *)
Variable time_time : list Event -> Z.

Definition build_request (method url : string) (kw : Kwargs) (a : Agent)
  : Request :=
  {| req_method := method; req_url := url;
     req_headers := session_headers a;
     req_json := kw_json kw; req_timeout := kw_timeout kw;
     req_stream := kw_stream kw; req_proxies := kw_proxies kw |}.

(** Lines 58-61: pick the proxy and record it in [kwargs]. *)
Definition use_proxy (kw : Kwargs) : M Kwargs :=
  do proxy_config <- get_next_proxy;
  match proxy_config with
  | Some cfg =>
      if dict_truthy cfg then
        match cfg !! "https" with
        | Some p =>
            do _ <- print ("Using proxy: " ++ p);
            ret (set_proxies cfg kw)
        | None => raise (new_exn KeyError "'https'")
        end
      else ret kw
  | None => ret kw
  end.

(** Lines 63-65: issue the request and check its status. *)
Definition send (method url : string) (kw : Kwargs) : M Response :=
  fun st =>
    let req := build_request method url kw (self st) in
    (physical session_request (events st) req, emit (ERequest req) st).

Definition sleep_uniform (a b : Q) : M unit :=
  fun st =>
    (Return tt, emit (ESleep (uniform a b (random_random (events st)))) st).

(** How one iteration of the attempt loop ends. *)
Inductive Ctl : Type :=
| Done (r : Result Response)       (* [return] or an escaping exception *)
| Next (kw : Kwargs).              (* on to the next iteration *)

(** The two [except] clauses of the loop body, lines 67-74. *)
Definition handlers (max_attempts attempt : nat) (e : exn) (kw : Kwargs)
    (st : State) : Ctl * State :=
  if isinstance e ProxyError then
    (Next kw, emit (EPrint "Proxy failed, trying next...") st)
  else if isinstance e RequestException then
    if (attempt =? max_attempts - 1)%nat then (Done (Raise e), st)
    else
      let st1 := emit (EPrint ("Request failed, retrying... ("
                                 ++ exc_str e ++ ")")) st in
      (Next kw, snd (sleep_uniform 1 3 st1))
  else (Done (Raise e), st).

(** Lines 63-74: the request, and the [except] clauses when it fails. *)
Definition request_once (method url : string) (max_attempts attempt : nat)
    (kw : Kwargs) (st : State) : Ctl * State :=
  match send method url kw st with
  | (Return response, st1) => (Done (Return response), st1)
  | (Raise e, st1) => handlers max_attempts attempt e kw st1
  end.

(** The body of the [for] loop, lines 56-74. *)
Definition iteration (method url : string) (max_attempts attempt : nat)
    (kw : Kwargs) (st : State) : Ctl * State :=
  match use_proxy kw st with
  | (Raise e, st1) => handlers max_attempts attempt e kw st1
  | (Return kw1, st1) => request_once method url max_attempts attempt kw1 st1
  end.

(** [for attempt in attempts: ...] followed by line 76. *)
Fixpoint attempt_loop (method url : string) (max_attempts : nat)
    (attempts : list nat) (kw : Kwargs) (st : State)
  : Result Response * State :=
  match attempts with
  | [] =>
      (Raise (new_exn RequestException "All proxy attempts failed"), st)
  | attempt :: rest =>
      match iteration method url max_attempts attempt kw st with
      | (Done r, st1) => (r, st1)
      | (Next kw1, st1) => attempt_loop method url max_attempts rest kw1 st1
      end
  end.

(** Line 53. *)
Definition max_attempts_of (a : Agent) : nat :=
  match proxies a with
  | [] => 1
  | _ => length (proxies a) + 1
  end.

(** [make_request]. *)
Definition make_request (method url : string) (kw : Kwargs) : M Response :=
  fun st =>
    let max_attempts := max_attempts_of (self st) in
    attempt_loop method url max_attempts (seq 0 max_attempts) kw st.

(** The decoder behind [json.loads]. *)
Variable json_decoder : string -> Result pyval.

Definition get_self : M Agent := fun st => (Return (self st), st).
Definition now : M Z := fun st => (Return (time_time (events st)), st).
Definition lift {A} (r : Result A) : M A := fun st => (r, st).

Definition kwargs (json : option pyval) (timeout : Z) (stream : bool)
  : Kwargs :=
  {| kw_json := json; kw_timeout := Some timeout; kw_stream := stream;
     kw_proxies := None |}.

Definition error_record (prefix : string) (e : exn) : pyval :=
  PDict {[ "error" := PStr (prefix ++ exc_str e) ]}.

Definition chat_payload (message : string) (context : pyval)
    (timestamp : Z) : pyval :=
  PDict (<["message" := PStr message]>
           (<["context" := or_val context (PDict ∅)]>
              (<["timestamp" := PInt timestamp]> ∅))).

(** [send_message]. *)
Definition send_message (message : string) (context : pyval) : M pyval :=
  do timestamp <- now;
  let payload := chat_payload message context timestamp in
  try_except
    (do a <- get_self;
     do response <- make_request "POST" (base_url a ++ "/api/chat")
                      (kwargs (Some payload) 30 false);
     lift (json response))
    RequestException
    (fun e => ret (error_record "Request failed: " e)).

Definition status_kwargs : Kwargs :=
  {| kw_json := None; kw_timeout := Some 15%Z; kw_stream := false;
     kw_proxies := None |}.

(** [get_agent_status]. *)
Definition get_agent_status : M pyval :=
  try_except
    (do a <- get_self;
     do response <- make_request "GET" (base_url a ++ "/api/status")
                      status_kwargs;
     lift (json response))
    RequestException
    (fun e => ret (error_record "Status check failed: " e)).

Definition stream_payload (message : string) (context : pyval) : pyval :=
  PDict (<["message" := PStr message]>
           (<["context" := or_val context (PDict ∅)]>
              (<["stream" := PBool true]> ∅))).

(** The [for line in response.iter_lines()] loop of [stream_chat], lines
    124-131: the records it yields and how it ends.  The local [result],
    appended to and never read, is left out. *)
Fixpoint iter_body (ls : list (list byte)) (failure : option exn)
  : list pyval * Result unit :=
  match ls with
  | [] =>
      match failure with
      | Some e => ([], Raise e)
      | None => ([], Return tt)
      end
  | line :: rest =>
      match line with
      | [] => iter_body rest failure
      | _ =>
          match
            match decode_utf8 line with
            | Return text => json_loads json_decoder text
            | Raise e => Raise e
            end
          with
          | Return chunk =>
              let '(ys, r) := iter_body rest failure in (chunk :: ys, r)
          | Raise e =>
              if isinstance e JSONDecodeError then iter_body rest failure
              else ([], Raise e)
          end
      end
  end.

(** [stream_chat], run to exhaustion: everything the generator yields,
    and whether it then stops or lets an exception out. *)
Definition stream_chat (message : string) (context : pyval) (st : State)
  : (list pyval * Result unit) * State :=
  let payload := stream_payload message context in
  match make_request "POST" (base_url (self st) ++ "/api/stream")
          (kwargs (Some payload) 60 true) st with
  | (Return response, st1) =>
      match iter_body (lines response) (broken response) with
      | (ys, Raise e) =>
          if isinstance e RequestException
          then (((ys ++ [error_record "Stream failed: " e])%list, Return tt), st1)
          else ((ys, Raise e), st1)
      | (ys, Return _) => ((ys, Return tt), st1)
      end
  | (Raise e, st1) =>
      if isinstance e RequestException
      then (([error_record "Stream failed: " e], Return tt), st1)
      else (([], Raise e), st1)
  end.

End Dispatch.

Definition user_agent : string :=
  "Mozilla/5.0 (X11; Linux x86_64) AppleWebKit/537.36".

(** [__init__], given the process environment and the headers a new
    [requests.Session] starts with. *)
Definition __init__ (environ : gmap string string)
    (default_headers : gmap string (string * string))
    (base_url : string) (api_key : option string)
    (proxies : option (list string)) : Agent :=
  let key := or_str api_key (environ !! "AI_AGENT_API_KEY") in
  {| base_url := rstrip_slash base_url;
     api_key := key;
     proxies := match proxies with Some (p :: ps) => p :: ps | _ => [] end;
     current_proxy_index := 0;
     session_headers :=
       match key with
       | Some token =>
           if truthy_str key then
             headers_update
               [("Authorization", "Bearer " ++ token);
                ("Content-Type", "application/json");
                ("Accept", "application/json");
                ("User-Agent", user_agent)]
               default_headers
           else default_headers
       | None => default_headers
       end |}.

End ProxyRotatingAIAgent.

(** ** [ai_agent_integration.py] *)

Module AIAgentClient.

Record Client : Type := {
  base_url : string;
  api_key : option string;
  session_headers : gmap string (string * string);
}.

(** [__init__]. *)
Definition __init__ (environ : gmap string string)
    (default_headers : gmap string (string * string))
    (base_url : string) (api_key : option string) : Client :=
  let key := or_str api_key (environ !! "AI_AGENT_API_KEY") in
  {| base_url := rstrip_slash base_url;
     api_key := key;
     session_headers :=
       match key with
       | Some token =>
           if truthy_str key then
             headers_update
               [("Authorization", "Bearer " ++ token);
                ("Content-Type", "application/json");
                ("Accept", "application/json")]
               default_headers
           else default_headers
       | None => default_headers
       end |}.

Section Calls.

Variable session_request : list Event -> Request -> Result Response.

(** A method of the client: from the history so far to its result and
    the extended history. *)
Definition M (A : Type) : Type := list Event -> Result A * list Event.

(** [self.session.post(url, json=..., timeout=...)] or
    [self.session.get(url)], followed by [raise_for_status] and
    [response.json()]. *)
Definition fetch (req : Request) : M pyval :=
  fun hist =>
    (match physical session_request hist req with
     | Return response => json response
     | Raise e => Raise e
     end,
     (hist ++ [ERequest req])%list).

Definition try_except {A} (body : M A) (cls : exc_class)
    (handler : exn -> Result A) : M A :=
  fun hist =>
    match body hist with
    | (Raise e, hist') =>
        if isinstance e cls then (handler e, hist') else (Raise e, hist')
    | r => r
    end.

Definition error_record (prefix : string) (e : exn) : pyval :=
  PDict {[ "error" := PStr (prefix ++ exc_str e) ]}.

(** The request of [send_message], lines 21-31. *)
Definition chat_request (c : Client) (message : string) (context : pyval)
  : Request :=
  let payload :=
    PDict (<["message" := PStr message]>
             (<["context" := or_val context (PDict ∅)]> ∅)) in
  {| req_method := "POST"; req_url := base_url c ++ "/api/chat";
     req_headers := session_headers c;
     req_json := Some payload; req_timeout := Some 30%Z;
     req_stream := false; req_proxies := None |}.

(** [send_message]. *)
Definition send_message (c : Client) (message : string) (context : pyval)
  : M pyval :=
  try_except (fetch (chat_request c message context))
    RequestException
    (fun e => Return (error_record "Request failed: " e)).

(** The request of [get_agent_status], line 40. *)
Definition status_request (c : Client) : Request :=
  {| req_method := "GET"; req_url := base_url c ++ "/api/status";
     req_headers := session_headers c;
     req_json := None; req_timeout := None;
     req_stream := false; req_proxies := None |}.

(** [get_agent_status]. *)
Definition get_agent_status (c : Client) : M pyval :=
  try_except (fetch (status_request c))
    RequestException
    (fun e => Return (error_record "Status check failed: " e)).

(** [configure_agent]. *)
Definition configure_agent (c : Client) (config : pyval) : M pyval :=
  try_except
    (fetch {| req_method := "POST"; req_url := base_url c ++ "/api/config";
              req_headers := session_headers c;
              req_json := Some config; req_timeout := Some 15%Z;
              req_stream := false; req_proxies := None |})
    RequestException
    (fun e => Return (error_record "Configuration failed: " e)).

End Calls.

End AIAgentClient.

(** ** [simple_ai_agent.py] *)

Module SimpleAIAgent.

Record Agent : Type := {
  base_url : string;
  api_key : string;
  headers : list (string * string);
}.

(** [__init__]. *)
Definition __init__ (base_url api_key : string) : Agent :=
  {| base_url := rstrip_slash base_url;
     api_key := api_key;
     headers := [("Authorization", "Bearer " ++ api_key);
                 ("Content-Type", "application/json");
                 ("Accept", "application/json");
                 ("User-Agent", "AI-Agent-Client/1.0")] |}.

(** [urllib.request.Request(url, data=..., headers=..., method=...)]. *)
Record UrlRequest : Type := {
  ur_url : string;
  ur_data : option (list byte);
  ur_headers : list (string * string);
  ur_method : string;
}.

Section Calls.

(** [urllib.request.urlopen(req, timeout=...)] followed by
    [response.read()]: the body, or the exception that building the
    request, opening it or reading the answer raises. *)
Variable urlopen_read : UrlRequest -> Z -> Result (list byte).

(** [json.dumps]. *)
Variable json_dumps : pyval -> string.

(** The decoder behind [json.loads]. *)
Variable json_decoder : string -> Result pyval.

Definition error_record (msg : string) : pyval :=
  PDict {[ "error" := PStr msg ]}.

(** The [try] block of [_make_request], lines 25-35. *)
Definition request_body (a : Agent) (url : string) (data : pyval)
    (method : string) : Result pyval :=
  let req :=
    if truthy data then
      {| ur_url := url; ur_data := Some (encode_utf8 (json_dumps data));
         ur_headers := headers a; ur_method := method |}
    else
      {| ur_url := url; ur_data := None;
         ur_headers := headers a; ur_method := method |} in
  match urlopen_read req 30 with
  | Return body =>
      match decode_utf8 body with
      | Return response_data => json_loads json_decoder response_data
      | Raise e => Raise e
      end
  | Raise e => Raise e
  end.

(** [_make_request]: the [try] block and its four [except] clauses, the
    first matching one being taken.  An exception raised inside a clause
    is not seen by the clauses after it. *)
Definition _make_request (a : Agent) (url : string) (data : pyval)
    (method : string) : Result pyval :=
  match request_body a url data method with
  | Return v => Return v
  | Raise e =>
      if isinstance e urllib_HTTPError then
        match decode_utf8 (exc_body e) with
        | Return error_body =>
            Return (error_record
                      ("HTTP " ++ pretty (exc_code e) ++ ": " ++ error_body))
        | Raise e' => Raise e'
        end
      else if isinstance e URLError then
        Return (error_record ("URL Error: " ++ exc_str e))
      else if isinstance e JSONDecodeError then
        Return (error_record ("JSON Error: " ++ exc_str e))
      else if isinstance e Exception then
        Return (error_record ("Request failed: " ++ exc_str e))
      else Raise e
  end.

(** [send_message]. *)
Definition send_message (a : Agent) (message : string) (context : pyval)
  : Result pyval :=
  let payload :=
    PDict (<["message" := PStr message]>
             (<["context" := or_val context (PDict ∅)]> ∅)) in
  _make_request a (base_url a ++ "/api/chat") payload "POST".

(** [get_status]. *)
Definition get_status (a : Agent) : Result pyval :=
  _make_request a (base_url a ++ "/api/status") PNone "GET".

(** [configure]. *)
Definition configure (a : Agent) (config : pyval) : Result pyval :=
  _make_request a (base_url a ++ "/api/config") config "POST".

End Calls.

End SimpleAIAgent.

(** ** Runs of the attempt loop, as the outside world sees them

    The trace semantics of the loop of [make_request]: which event sequences
    an invocation can append to the history, and with which result.  The
    loop is shown below to produce exactly such runs, and the properties of
    the retry policy are then read off the runs. *)

Module Trace.

Import ProxyRotatingAIAgent.

Definition proxy_failed : Event := EPrint "Proxy failed, trying next...".

Definition retrying (e : exn) : Event :=
  EPrint ("Request failed, retrying... (" ++ exc_str e ++ ")").

Definition all_failed : exn :=
  new_exn RequestException "All proxy attempts failed".

(** What an iteration emits before its request. *)
Inductive preamble : list Event -> Prop :=
| preamble_direct : preamble []
| preamble_proxy (p : string) : preamble [EPrint ("Using proxy: " ++ p)].

(** The requests one invocation may issue: everything but the proxy is
    fixed by the call, and the proxy is taken from the pool. *)
Definition issued_by (method url : string) (kw : Kwargs) (a : Agent)
    (req : Request) : Prop :=
  req_method req = method /\ req_url req = url /\
  req_headers req = session_headers a /\
  req_json req = kw_json kw /\ req_timeout req = kw_timeout kw /\
  req_stream req = kw_stream kw /\
  match proxies a with
  | [] => req_proxies req = kw_proxies kw
  | _ => exists p, p ∈ proxies a /\ req_proxies req = Some (proxy_config p)
  end.

Section Runs.

Variable session_request : list Event -> Request -> Result Response.
Variable random_random : list Event -> Q.

(** Whether the pool lookup is known not to fail. *)
Variable strict : bool.
(** The attempt budget. *)
Variable max_attempts : nat.
(** The requests of this invocation. *)
Variable call : Request -> Prop.

(** [Run attempt remaining hist new r]: starting at loop index [attempt]
    with [remaining] iterations to go, after the history [hist], the loop
    appends the events [new] and ends with [r]. *)
Inductive Run : nat -> nat -> list Event -> list Event
                -> Result Response -> Prop :=
| run_exhausted attempt hist :
    Run attempt 0 hist [] (Raise all_failed)
| run_lookup_failed attempt remaining hist e :
    strict = false ->
    isinstance e RequestException = false ->
    Run attempt (S remaining) hist [] (Raise e)
| run_success attempt remaining hist pre req response :
    preamble pre -> call req ->
    physical session_request (hist ++ pre) req = Return response ->
    Run attempt (S remaining) hist (pre ++ [ERequest req]) (Return response)
| run_proxy_failed attempt remaining hist pre req e new r :
    preamble pre -> call req ->
    physical session_request (hist ++ pre) req = Raise e ->
    isinstance e ProxyError = true ->
    Run (S attempt) remaining
      (hist ++ pre ++ [ERequest req; proxy_failed]) new r ->
    Run attempt (S remaining) hist
      (pre ++ ERequest req :: proxy_failed :: new) r
| run_retry attempt remaining hist pre req e new r :
    preamble pre -> call req ->
    physical session_request (hist ++ pre) req = Raise e ->
    isinstance e ProxyError = false ->
    isinstance e RequestException = true ->
    attempt <> max_attempts - 1 ->
    let delay :=
      uniform 1 3 (random_random (hist ++ pre ++ [ERequest req; retrying e])) in
    Run (S attempt) remaining
      (hist ++ pre ++ [ERequest req; retrying e; ESleep delay]) new r ->
    Run attempt (S remaining) hist
      (pre ++ ERequest req :: retrying e :: ESleep delay :: new) r
| run_last_failed attempt remaining hist pre req e :
    preamble pre -> call req ->
    physical session_request (hist ++ pre) req = Raise e ->
    isinstance e ProxyError = false ->
    isinstance e RequestException = true ->
    attempt = max_attempts - 1 ->
    Run attempt (S remaining) hist (pre ++ [ERequest req]) (Raise e)
| run_fatal attempt remaining hist pre req e :
    preamble pre -> call req ->
    physical session_request (hist ++ pre) req = Raise e ->
    isinstance e RequestException = false ->
    Run attempt (S remaining) hist (pre ++ [ERequest req]) (Raise e).

(** What a run does after one of its requests, by the outcome of that
    request: [verdict a hist pre req post r m] describes the events
    [post] that follow the request [req] issued after [hist ++ pre], the
    result [r] of the run and the [m] iterations left after it. *)
Definition verdict (a : nat) (hist pre : list Event) (req : Request)
    (post : list Event) (r : Result Response) (m : nat) : Prop :=
  let k := attempts_in pre in
  let h := (hist ++ pre)%list in
  match physical session_request h req with
  | Return response => post = [] /\ r = Return response
  | Raise e =>
      if isinstance e ProxyError then
        exists post',
          post = proxy_failed :: post' /\
          Run (a + k + 1) m (h ++ [ERequest req; proxy_failed]) post' r
      else if isinstance e RequestException then
        if (a + k =? max_attempts - 1)%nat then post = [] /\ r = Raise e
        else
          let delay :=
            uniform 1 3 (random_random (h ++ [ERequest req; retrying e])) in
          exists post',
            post = retrying e :: ESleep delay :: post' /\
            Run (a + k + 1) m
              (h ++ [ERequest req; retrying e; ESleep delay]) post' r
      else post = [] /\ r = Raise e
  end.

End Runs.

(** The attributes of the agent that no method assigns after [__init__]. *)
Definition unchanged (st st' : State) : Prop :=
  base_url (self st') = base_url (self st) /\
  api_key (self st') = api_key (self st) /\
  proxies (self st') = proxies (self st) /\
  session_headers (self st') = session_headers (self st).

(** [out] is the outcome of a run of the loop from [st]. *)
Definition produces (session_request : list Event -> Request -> Result Response)
    (random_random : list Event -> Q) (strict : bool) (max_attempts : nat)
    (method url : string) (kw : Kwargs) (st : State) (attempt remaining : nat)
    (out : Result Response * State) : Prop :=
  exists new,
    events (snd out) = (events st ++ new)%list /\
    Run session_request random_random strict max_attempts
      (issued_by method url kw (self st)) attempt remaining
      (events st) new (fst out) /\
    unchanged st (snd out) /\
    (cursor_valid st -> cursor_valid (snd out)).

(** The records of a streaming body as the specification words them: the
    successfully JSON-decoded lines, in the order of the body. *)
Definition decoded_records (json_decoder : string -> Result pyval)
    (body : list (list byte)) : list pyval :=
  omap (fun line =>
          match json_decoder (string_of_list_byte line) with
          | Return record => Some record
          | Raise _ => None
          end)
       body.

End Trace.

(** ** Sample data *)

Module Samples.

Import ProxyRotatingAIAgent.

Definition sample_agent : Agent :=
  {| base_url := "http://agent.test"; api_key := None;
     proxies := ["http://p1:8080"; "http://p2:8080"; "http://p3:8080"];
     current_proxy_index := 0;
     session_headers := ∅ |}.

Definition sample_state : State := {| self := sample_agent; events := [] |}.

Definition ok_response : Response :=
  {| status_code := 200; reason := "OK"; url := "http://agent.test/api/status";
     json := Return (PDict {[ "status" := PStr "ready" ]});
     lines := []; broken := None |}.

(** A transport whose first request dies in the proxy, whose second times
    out, and which answers from the third on. *)
Definition flaky_transport (hist : list Event) (req : Request)
  : Result Response :=
  match attempts_in hist with
  | 0 => Raise (new_exn ProxyError "Cannot connect to proxy.")
  | 1 => Raise (new_exn ReadTimeout "Read timed out.")
  | _ => Return ok_response
  end.

(** A transport behind which every proxy is dead. *)
Definition dead_proxies (hist : list Event) (req : Request)
  : Result Response :=
  Raise (new_exn ProxyError "Cannot connect to proxy.").

(** A transport that cannot reach the service at all. *)
Definition unreachable (hist : list Event) (req : Request)
  : Result Response :=
  Raise (new_exn requests_ConnectionError "Name or service not known").

Definition half (hist : list Event) : Q := 1 # 2.

(** The largest number [random.random()] gives, [1 - 2 ^ -53]. *)
Definition last_draw (hist : list Event) : Q :=
  9007199254740991 # 9007199254740992.

Definition single_proxy_state : State :=
  {| self := {| base_url := "http://agent.test"; api_key := None;
                proxies := ["http://p1:8080"];
                current_proxy_index := 0;
                session_headers := ∅ |};
     events := [] |}.

Definition status_url : string := "http://agent.test/api/status".

(** An agent without proxies and without a credential. *)
Definition direct_state : State :=
  {| self := {| base_url := "http://agent.test"; api_key := None;
                proxies := []; current_proxy_index := 0;
                session_headers := ∅ |};
     events := [] |}.

(** The bytes of the two JSON lines of the specification's streaming
    examples, an object with the key [a] bound to 1, respectively 2, and a
    line that is not UTF-8. *)
Definition line_a1 : list byte := [x7b; x22; x61; x22; x3a; x31; x7d].
Definition line_a2 : list byte := [x7b; x22; x61; x22; x3a; x32; x7d].
Definition line_not_utf8 : list byte := [xff].
(** [NOT JSON]. *)
Definition line_not_json : list byte :=
  [x4e; x4f; x54; x20; x4a; x53; x4f; x4e].

(** A decoder that knows the two sample lines and rejects everything
    else. *)
Definition sample_decoder (text : string) : Result pyval :=
  if String.eqb text (string_of_list_byte line_a1)
  then Return (PDict {[ "a" := PInt 1 ]})
  else if String.eqb text (string_of_list_byte line_a2)
  then Return (PDict {[ "a" := PInt 2 ]})
  else Raise (new_exn JSONDecodeError
                "Expecting value: line 1 column 1 (char 0)").

Definition streaming (body : list (list byte)) (failure : option exn)
  : Response :=
  {| status_code := 200; reason := "OK";
     url := "http://agent.test/api/stream";
     json := Raise (new_exn requests_JSONDecodeError "Extra data");
     lines := body; broken := failure |}.

Definition serves (response : Response) (hist : list Event) (req : Request)
  : Result Response :=
  Return response.

Definition connection_lost : exn :=
  new_exn ChunkedEncodingError "Connection broken: IncompleteRead".

(** The headers a new [requests.Session] starts with. *)
Definition requests_default_headers : gmap string (string * string) :=
  headers_update
    [("User-Agent", "python-requests/2.31.0");
     ("Accept-Encoding", "gzip, deflate");
     ("Accept", "*/*");
     ("Connection", "keep-alive")] ∅.

(** An agent built with a proxy and without any credential, neither passed
    in nor found in the environment. *)
Definition anonymous_state : State :=
  {| self := __init__ ∅ requests_default_headers "http://agent.test/" None
               (Some ["http://p1:8080"]);
     events := [] |}.

(** An agent built with a proxy and a credential. *)
Definition authorised_state : State :=
  {| self := __init__ ∅ requests_default_headers "http://agent.test/"
               (Some "s3cret") (Some ["http://p1:8080"]);
     events := [] |}.

(** The first request of [authorised_state] for the status. *)
Definition authorised_request : Request :=
  {| req_method := "GET"; req_url := status_url;
     req_headers := session_headers (self authorised_state);
     req_json := None; req_timeout := Some 15%Z; req_stream := false;
     req_proxies := Some (proxy_config "http://p1:8080") |}.

(** The first request of [anonymous_state] for the status. *)
Definition anonymous_request : Request :=
  {| req_method := "GET"; req_url := status_url;
     req_headers := requests_default_headers;
     req_json := None; req_timeout := Some 15%Z; req_stream := false;
     req_proxies := Some (proxy_config "http://p1:8080") |}.

(** What three status calls leave in the history. *)
Definition flaky_trace : list Event :=
  events (snd (make_request flaky_transport half "GET" status_url
                 status_kwargs sample_state)).

(** The same with the largest draw of [random.random()]. *)
Definition slow_trace : list Event :=
  events (snd (make_request flaky_transport last_draw "GET" status_url
                 status_kwargs sample_state)).

Definition authorised_trace : list Event :=
  events (snd (make_request dead_proxies half "GET" status_url
                 status_kwargs authorised_state)).

Definition anonymous_trace : list Event :=
  events (snd (make_request dead_proxies half "GET" status_url
                 status_kwargs anonymous_state)).

(** An HTTP 500 whose error body is not UTF-8. *)
Definition garbled_server_error : exn :=
  {| exc_type := urllib_HTTPError;
     exc_str := "HTTP Error 500: Internal Server Error";
     exc_code := 500;
     exc_body := [xff] |}.

(** The request [make_request "GET" status_url] issues through [proxy]. *)
Definition status_request_via (proxy : string) : Request :=
  {| req_method := "GET"; req_url := status_url; req_headers := ∅;
     req_json := None; req_timeout := Some 15%Z; req_stream := false;
     req_proxies := Some (proxy_config proxy) |}.

End Samples.

(** ** Text operations of [str]

    [str.strip()], [str.split(sep)] and [str.startswith], on strings held as
    their UTF-8 bytes.  A white-space character is one for which
    [str.isspace] holds: U+0009-000D, U+001C-0020, U+0085, U+00A0, U+1680,
    U+2000-200A, U+2028, U+2029, U+202F, U+205F and U+3000. *)

Module Text.

(** The white-space characters of one, two and three bytes. *)
Definition space1 (b0 : byte) : bool :=
  in_range b0 0x09 0x0d || in_range b0 0x1c 0x20.

Definition space2 (b0 b1 : byte) : bool :=
  in_range b0 0xc2 0xc2 && (in_range b1 0x85 0x85 || in_range b1 0xa0 0xa0).

Definition space3 (b0 b1 b2 : byte) : bool :=
  (in_range b0 0xe1 0xe1 && in_range b1 0x9a 0x9a && in_range b2 0x80 0x80)
  || (in_range b0 0xe2 0xe2 && in_range b1 0x80 0x80
      && (in_range b2 0x80 0x8a || in_range b2 0xa8 0xa9
          || in_range b2 0xaf 0xaf))
  || (in_range b0 0xe2 0xe2 && in_range b1 0x81 0x81 && in_range b2 0x9f 0x9f)
  || (in_range b0 0xe3 0xe3 && in_range b1 0x80 0x80 && in_range b2 0x80 0x80).

Section Stripping.

(** What counts as a character to strip, by its bytes in reading order. *)
Variable w1 : byte -> bool.
Variable w2 : byte -> byte -> bool.
Variable w3 : byte -> byte -> byte -> bool.

(** Whether the bytes start with a character to strip. *)
Definition starts_with_space (bs : list byte) : bool :=
  match bs with
  | b0 :: t0 =>
      w1 b0 ||
      match t0 with
      | b1 :: t1 =>
          w2 b0 b1 ||
          match t1 with
          | b2 :: _ => w3 b0 b1 b2
          | [] => false
          end
      | [] => false
      end
  | [] => false
  end.

(** Drop such characters from the front until none is left. *)
Fixpoint strip_front (bs : list byte) : list byte :=
  match bs with
  | b0 :: t0 =>
      if w1 b0 then strip_front t0
      else
        match t0 with
        | b1 :: t1 =>
            if w2 b0 b1 then strip_front t1
            else
              match t1 with
              | b2 :: t2 => if w3 b0 b1 b2 then strip_front t2 else bs
              | [] => bs
              end
        | [] => bs
        end
  | [] => []
  end.

End Stripping.

Definition lstrip_bytes : list byte -> list byte :=
  strip_front space1 space2 space3.

(** From the back the bytes of a character come in reverse. *)
Definition rstrip_bytes (bs : list byte) : list byte :=
  rev (strip_front space1 (fun b1 b0 => space2 b0 b1)
         (fun b2 b1 b0 => space3 b0 b1 b2) (rev bs)).

(** [s.strip()]. *)
Definition strip (s : string) : string :=
  string_of_list_byte (rstrip_bytes (lstrip_bytes (list_byte_of_string s))).

(** [s.split(sep)] for a separator of one ASCII character. *)
Fixpoint split (sep : ascii) (s : string) : list string :=
  match s with
  | EmptyString => [EmptyString]
  | String c rest =>
      if Ascii.eqb c sep then EmptyString :: split sep rest
      else
        match split sep rest with
        | field :: fields => String c field :: fields
        | [] => [String c EmptyString]
        end
  end.

(** [s.startswith(c)] for one ASCII character. *)
Definition startswith (c : ascii) (s : string) : bool :=
  match s with
  | String c0 _ => Ascii.eqb c0 c
  | EmptyString => false
  end.

(** Truth value of a [str]. *)
Definition nonempty (s : string) : bool := negb (String.eqb s "").

End Text.

(** ** [ai_agent_with_proxy.py], module level *)

Module AgentWithProxy.

Import Text.

(** [os.getenv(name, fallback)]. *)
Definition getenv (environ : gmap string string) (name fallback : string)
  : string :=
  default fallback (environ !! name).

(** The entries [load_proxy_list] takes from the lines of the proxy file,
    lines 143-146. *)
Definition file_entries (file_lines : list string) : list string :=
  omap (fun line =>
          let line := strip line in
          if nonempty line && negb (startswith "#" line) then Some line
          else None)
       file_lines.

(** [load_proxy_list], given the process environment and, for each path
    that exists, the lines that iterating over the opened file yields. *)
Definition load_proxy_list (environ : gmap string string)
    (files : gmap string (list string)) : list string :=
  let proxy_file := getenv environ "PROXY_FILE" "proxies.txt" in
  let proxies :=
    match files !! proxy_file with
    | Some file_lines => file_entries file_lines
    | None => []
    end in
  let env_proxies := getenv environ "HTTP_PROXIES" "" in
  let proxies :=
    if nonempty env_proxies then (proxies ++ split "," env_proxies)%list
    else proxies in
  omap (fun p => if nonempty (strip p) then Some (strip p) else None) proxies.

(** The agent [main] builds, lines 160-168. *)
Definition main_agent (environ : gmap string string)
    (files : gmap string (list string))
    (default_headers : gmap string (string * string))
  : ProxyRotatingAIAgent.Agent :=
  let webapp_url :=
    getenv environ "WEBAPP_URL" "https://your-app-domain.ondigitalocean.app" in
  let proxy_list := load_proxy_list environ files in
  ProxyRotatingAIAgent.__init__ environ default_headers webapp_url None
    (Some proxy_list).

End AgentWithProxy.

(** ** Using the agents: sequences of calls and what they leave behind *)

Module Usage.

Import ProxyRotatingAIAgent.

(** The proxy setting of each request of a trace, in order. *)
Definition used_proxies (tr : list Event) : list (option (gmap string string)) :=
  omap (fun ev => match ev with
                  | ERequest r => Some (req_proxies r)
                  | _ => None
                  end) tr.

(** The proxy settings that [k] successive turns of the pool give, starting
    at the cursor of [st]. *)
Definition rotation (st : State) (k : nat) : list (option (gmap string string)) :=
  map (fun i =>
         Some (proxy_config
                 (nth ((current_proxy_index (self st) + i)
                         mod length (proxies (self st)))
                    (proxies (self st)) "")))
      (seq 0 k).

(** The state after some more events. *)
Definition emit_all (evs : list Event) (st : State) : State :=
  {| self := self st; events := (events st ++ evs)%list |}.

(** The time slept in a trace, in seconds. *)
Definition total_sleep (tr : list Event) : Q :=
  fold_right Qplus 0%Q (sleeps_in tr).

(** What a user can call on an agent. *)
Inductive Call : Type :=
| CallSendMessage (message : string) (context : pyval)
| CallGetAgentStatus
| CallStreamChat (message : string) (context : pyval)
| CallMakeRequest (method url : string) (kw : Kwargs)
| CallGetNextProxy.

Section Calls.

Variable session_request : list Event -> Request -> Result Response.
Variable random_random : list Event -> Q.
Variable time_time : list Event -> Z.
Variable json_decoder : string -> Result pyval.

(** The state a call leaves, the generator of [stream_chat] being run to
    its end. *)
Definition after_call (c : Call) (st : State) : State :=
  match c with
  | CallSendMessage message context =>
      snd (send_message session_request random_random time_time
             message context st)
  | CallGetAgentStatus =>
      snd (get_agent_status session_request random_random st)
  | CallStreamChat message context =>
      snd (stream_chat session_request random_random json_decoder
             message context st)
  | CallMakeRequest method url kw =>
      snd (make_request session_request random_random method url kw st)
  | CallGetNextProxy => snd (get_next_proxy st)
  end.

Definition after_calls (cs : list Call) (st : State) : State :=
  fold_left (fun st c => after_call c st) cs st.

End Calls.

(** [k] slashes. *)
Fixpoint slashes (k : nat) : string :=
  match k with
  | O => ""
  | S k' => String "/" (slashes k')
  end.

End Usage.

(** ** [simple_ai_agent.py]: the two halves of [_make_request] *)

Module SimpleRequest.

Import SimpleAIAgent.

(** Lines 26-30: the request [_make_request] prepares. *)
Definition prepared_request (json_dumps : pyval -> string) (a : Agent)
    (url : string) (data : pyval) (method : string) : UrlRequest :=
  {| ur_url := url;
     ur_data := if truthy data then Some (encode_utf8 (json_dumps data))
                else None;
     ur_headers := headers a;
     ur_method := method |}.

(** Lines 34-45: what [_make_request] makes of the answer. *)
Definition respond (json_decoder : string -> Result pyval)
    (answer : Result (list byte)) : Result pyval :=
  match
    match answer with
    | Return body =>
        match decode_utf8 body with
        | Return response_data => json_loads json_decoder response_data
        | Raise e => Raise e
        end
    | Raise e => Raise e
    end
  with
  | Return v => Return v
  | Raise e =>
      if isinstance e urllib_HTTPError then
        match decode_utf8 (exc_body e) with
        | Return error_body =>
            Return (error_record
                      ("HTTP " ++ pretty (exc_code e) ++ ": " ++ error_body))
        | Raise e' => Raise e'
        end
      else if isinstance e URLError then
        Return (error_record ("URL Error: " ++ exc_str e))
      else if isinstance e JSONDecodeError then
        Return (error_record ("JSON Error: " ++ exc_str e))
      else if isinstance e Exception then
        Return (error_record ("Request failed: " ++ exc_str e))
      else Raise e
  end.

End SimpleRequest.

(** ** More sample data *)

Module MoreSamples.

Import ProxyRotatingAIAgent Samples.

(** What a status call through three dead proxies leaves in the history. *)
Definition dead_trace : list Event :=
  events (snd (make_request dead_proxies half "GET" status_url status_kwargs
                 sample_state)).

(** A transport that answers every request. *)
Definition answering : list Event -> Request -> Result Response :=
  serves ok_response.

Definition answered_trace : list Event :=
  events (snd (make_request answering half "GET" status_url status_kwargs
                 sample_state)).

(** A transport that fails with something that is no request failure. *)
Definition crashing (hist : list Event) (req : Request) : Result Response :=
  Raise (new_exn ValueError "Invalid header value").

Definition crashed_trace : list Event :=
  events (snd (make_request crashing half "GET" status_url status_kwargs
                 sample_state)).

Definition sample_clock (hist : list Event) : Z := 1700000000.

(** The request of [send_message "hello"] through the one proxy of
    [single_proxy_state]. *)
Definition hello_request : Request :=
  {| req_method := "POST"; req_url := "http://agent.test/api/chat";
     req_headers := ∅;
     req_json := Some (chat_payload "hello" PNone 1700000000);
     req_timeout := Some 30%Z; req_stream := false;
     req_proxies := Some (proxy_config "http://p1:8080") |}.

Definition hello_trace : list Event :=
  events (snd (send_message flaky_transport half sample_clock "hello" PNone
                 single_proxy_state)).

(** The request of [stream_chat "hello"] through the same proxy. *)
Definition hello_stream_request : Request :=
  {| req_method := "POST"; req_url := "http://agent.test/api/stream";
     req_headers := ∅;
     req_json := Some (stream_payload "hello" PNone);
     req_timeout := Some 60%Z; req_stream := true;
     req_proxies := Some (proxy_config "http://p1:8080") |}.

Definition hello_stream_trace : list Event :=
  events (snd (stream_chat flaky_transport half sample_decoder "hello" PNone
                 single_proxy_state)).

Definition status_trace : list Event :=
  events (snd (get_agent_status flaky_transport half single_proxy_state)).

(** A proxy file with a comment, a padded entry, a blank line and a plain
    entry, and an environment with a padded entry, a blank field and a field
    that starts like a comment. *)
Definition sample_files : gmap string (list string) :=
  {[ "proxies.txt" :=
       ["# the pool"; "  http://p1:8080  "; "   "; "http://p2:8080";
        "   # spare: http://p9:8080"] ]}.

Definition sample_environ : gmap string string :=
  {[ "HTTP_PROXIES" := " http://p3:8080, ,#http://p4:8080" ]}.

(** A proxy file of comments only and a variable of blanks only. *)
Definition empty_files : gmap string (list string) :=
  {[ "proxies.txt" := ["# no proxies yet"; ""] ]}.

Definition empty_environ : gmap string string :=
  {[ "HTTP_PROXIES" := " , " ]}.

End MoreSamples.

(** ** [attached_assets/app_1765327409483.py]: the command processor

    The console's globals, the commands that work on the registry of running
    bots, and the dispatcher.  The clock, [str.lower], [int] and the comment
    engine are parameters. *)

Module Console.

Import Text.

Definition nl : string := String (ascii_of_nat 10) "".
Definition quote : string := String (ascii_of_nat 34) "".

(** An entry of [active_bots]. *)
Record Bot : Type := {
  bot_status : string;
  started_at : string;
  comments_posted : Z;
}.

(** An entry of [command_history]. *)
Record HistoryEntry : Type := {
  timestamp : string;
  command : string;
  session_id : string;
}.

(** [comment_engine.batch_generate_comments(n, platform)]: the comments with
    their categories, or an exception. *)
Definition Engine : Type := Z -> string -> Result (list (string * string)).

(** The module-level state: the comment engine when one is loaded, the
    registry of bots in insertion order, the history, and how often the clock
    was read. *)
Record Globals : Type := {
  comment_engine : option Engine;
  active_bots : list (string * Bot);
  command_history : list HistoryEntry;
  clock_reads : nat;
}.

(** The mapping a command returns; [clear] is the key only [cmd_clear]
    sets. *)
Record Reply : Type := {
  output : string;
  error : bool;
  clear : option bool;
}.

Definition reply (text : string) (failed : bool) : Reply :=
  {| output := text; error := failed; clear := None |}.

(** [key in d], [d[key] = value] and [del d[key]] on a [dict] kept in
    insertion order. *)
Definition dict_has {V} (key : string) (d : list (string * V)) : bool :=
  existsb (fun kv => String.eqb (fst kv) key) d.

Definition dict_set {V} (key : string) (value : V) (d : list (string * V))
  : list (string * V) :=
  if dict_has key d
  then map (fun kv => if String.eqb (fst kv) key then (key, value) else kv) d
  else (d ++ [(key, value)])%list.

Definition dict_del {V} (key : string) (d : list (string * V))
  : list (string * V) :=
  List.filter (fun kv => negb (String.eqb (fst kv) key)) d.

Definition platforms : list string := ["instagram"; "facebook"; "tiktok"].

(** [platform in ['instagram', 'facebook', 'tiktok']]. *)
Definition is_platform (platform : string) : bool :=
  existsb (String.eqb platform) platforms.

(** [l[-count:]]. *)
Definition last_slice {A} (count : Z) (l : list A) : list A :=
  if (0 <? count)%Z then drop (length l - Z.to_nat count) l
  else drop (Z.to_nat (- count)) l.

(** [f"{i:2}"]. *)
Definition width2 (i : nat) : string :=
  if (i <? 10)%nat then " " ++ pretty i else pretty i.

(** [s.split()] on bytes: the maximal runs without white space. *)
Definition flush (word : list byte) (rest : list (list byte))
  : list (list byte) :=
  match word with
  | [] => rest
  | _ => word :: rest
  end.

Fixpoint words_bytes (bs : list byte) (word : list byte) : list (list byte) :=
  match bs with
  | [] => flush word []
  | b0 :: t0 =>
      if space1 b0 then flush word (words_bytes t0 [])
      else
        match t0 with
        | b1 :: t1 =>
            if space2 b0 b1 then flush word (words_bytes t1 [])
            else
              match t1 with
              | b2 :: t2 =>
                  if space3 b0 b1 b2 then flush word (words_bytes t2 [])
                  else words_bytes t0 (word ++ [b0])
              | [] => words_bytes t0 (word ++ [b0])
              end
        | [] => words_bytes t0 (word ++ [b0])
        end
  end.

(** [s.split()]. *)
Definition words (s : string) : list string :=
  map string_of_list_byte (words_bytes (list_byte_of_string s) []).

Definition set_bots (bots : list (string * Bot)) (g : Globals) : Globals :=
  {| comment_engine := comment_engine g; active_bots := bots;
     command_history := command_history g; clock_reads := clock_reads g |}.

Definition set_history (h : list HistoryEntry) (g : Globals) : Globals :=
  {| comment_engine := comment_engine g; active_bots := active_bots g;
     command_history := h; clock_reads := clock_reads g |}.

(** A command as the dispatcher calls it. *)
Definition Handler : Type := list string -> Globals -> Result Reply * Globals.

Section Commands.

(** [datetime.now().isoformat()] at the [n]-th reading of the clock. *)
Variable datetime_now : nat -> string.

(** [s.lower()]. *)
Variable str_lower : string -> string.

(** [int(s)]; [None] stands for the [ValueError]. *)
Variable parse_int : string -> option Z.

(** [datetime.fromisoformat(s).strftime("%H:%M:%S")]. *)
Variable clock_time : string -> Result string.

Definition now (g : Globals) : string * Globals :=
  (datetime_now (clock_reads g),
   {| comment_engine := comment_engine g; active_bots := active_bots g;
      command_history := command_history g;
      clock_reads := S (clock_reads g) |}).

(** [cmd_start].  The clock does not fail, so the handler of line 197 is
    not entered. *)
Definition cmd_start (args : list string) (g : Globals) : Reply * Globals :=
  match args with
  | [] => (reply ("Usage: start <platform>" ++ nl ++ "Platforms: instagram, facebook, tiktok") true, g)
  | arg :: _ =>
      let platform := str_lower arg in
      if negb (is_platform platform) then
        (reply ("Invalid platform: " ++ platform) true, g)
      else if dict_has platform (active_bots g) then
        (reply ("Bot for " ++ platform ++ " is already running") false, g)
      else
        let '(started, g1) := now g in
        (reply ("✅ Started " ++ platform ++ " bot successfully" ++ nl ++ "🤖 Bot is now active and ready for commands") false,
         set_bots (dict_set platform
                     {| bot_status := "running"; started_at := started;
                        comments_posted := 0 |}
                     (active_bots g1)) g1)
  end.

(** [cmd_stop]. *)
Definition cmd_stop (args : list string) (g : Globals) : Reply * Globals :=
  match args with
  | [] => (reply ("Usage: stop <platform>") true, g)
  | arg :: _ =>
      let platform := str_lower arg in
      if negb (dict_has platform (active_bots g)) then
        (reply ("No active bot found for " ++ platform) true, g)
      else
        (reply ("🛑 Stopped " ++ platform ++ " bot") false,
         set_bots (dict_del platform (active_bots g)) g)
  end.

(** The lines of the [for] loop of [cmd_comment], line 242-243, numbered
    from [i]. *)
Fixpoint sample_lines (i : nat) (samples : list (string * string)) : string :=
  match samples with
  | [] => ""
  | sample :: rest =>
      ("  " ++ pretty i ++ ". " ++ quote ++ fst sample ++ quote ++ " (Type: " ++ snd sample ++ ")" ++ nl)
      ++ sample_lines (S i) rest
  end.

(** [cmd_comment].  The bare [except] of line 244 takes whatever the engine
    raises; the engine hands back pairs, so the loop itself does not fail. *)
Definition cmd_comment (args : list string) (g : Globals) : Reply * Globals :=
  match args with
  | arg0 :: arg1 :: _ =>
      let platform := str_lower arg0 in
      match parse_int arg1 with
      | None => (reply ("Invalid number of comments") true, g)
      | Some count =>
          if negb (is_platform platform) then
            (reply ("Invalid platform: " ++ platform) true, g)
          else if (count <? 1)%Z || (50 <? count)%Z then
            (reply ("Comment count must be between 1 and 50") true, g)
          else
            let output := "🚀 Starting comment campaign on " ++ platform ++ nl in
            let output := output ++ "📊 Target: " ++ pretty count ++ " comments" ++ nl in
            let output := output ++ "⏱️ Estimated time: " ++ pretty (count * 2)%Z ++ " minutes" ++ nl ++ nl in
            let output := output ++ "💬 Comment generation in progress..." ++ nl in
            let output :=
              match comment_engine g with
              | Some engine =>
                  match engine (Z.min count 3) platform with
                  | Return comments =>
                      output ++ "Generated sample comments:" ++ nl ++ sample_lines 1 comments
                  | Raise _ => output ++ "Sample comment generation failed" ++ nl
                  end
              | None => output
              end in
            let output := output ++ nl ++ "✅ Comment campaign initiated for " ++ platform in
            let output := output ++ nl ++ "🔄 Use 'status' to monitor progress" in
            (reply output false, g)
      end
  | _ => (reply ("Usage: comment <platform> <number>" ++ nl ++ "Example: comment instagram 5") true, g)
  end.

(** The [for] loop of [cmd_history], lines 383-385, numbered from [i]; a
    timestamp that cannot be read ends it with the exception. *)
Fixpoint history_lines (i : nat) (entries : list HistoryEntry) : Result string :=
  match entries with
  | [] => Return ""
  | entry :: rest =>
      match clock_time (timestamp entry) with
      | Raise e => Raise e
      | Return time =>
          match history_lines (S i) rest with
          | Raise e => Raise e
          | Return lines => Return ((width2 i ++ ". [" ++ time ++ "] " ++ command entry ++ nl) ++ lines)
          end
      end
  end.

(** [cmd_history]. *)
Definition cmd_history (args : list string) (g : Globals)
  : Result Reply * Globals :=
  match command_history g with
  | [] => (Return (reply ("No command history available") false), g)
  | _ =>
      let count :=
        match args with
        | arg :: _ =>
            match parse_int arg with
            | Some n => n
            | None => 10%Z
            end
        | [] => 10%Z
        end in
      let recent_commands := last_slice count (command_history g) in
      match history_lines 1 recent_commands with
      | Raise e => (Raise e, g)
      | Return lines =>
          (Return (reply ("📜 Last " ++ pretty (length recent_commands) ++ " Commands" ++ nl ++ nl ++ lines) false), g)
      end
  end.

(** [cmd_clear]. *)
Definition cmd_clear (args : list string) (g : Globals) : Reply * Globals :=
  ({| output := ""; error := false; clear := Some true |}, g).

(** [cmd_test]. *)
Definition cmd_test (args : list string) (g : Globals) : Reply * Globals :=
  match args with
  | [] => (reply ("Usage: test <platform>") true, g)
  | arg :: _ =>
      let platform := str_lower arg in
      if negb (is_platform platform) then
        (reply ("Invalid platform: " ++ platform) true, g)
      else
        let output := "🧪 Testing " ++ platform ++ " connection..." ++ nl in
        let output := output ++ "🔍 Checking authentication... ✅" ++ nl in
        let output := output ++ "🌐 Testing API endpoints... ✅" ++ nl in
        let output := output ++ "🛡️ Validating security settings... ✅" ++ nl in
        let output := output ++ "💬 Testing comment generation... ✅" ++ nl ++ nl in
        let output := output ++ "✅ " ++ platform ++ " is ready for operation!" in
        (reply output false, g)
  end.

(** A command that cannot raise, as an entry of [self.commands]. *)
Definition total (f : list string -> Globals -> Reply * Globals) : Handler :=
  fun args g => let '(r, g') := f args g in (Return r, g').

(** The entries of [self.commands], lines 53-67, for the commands above. *)
Definition registry_commands : gmap string Handler :=
  <["start" := total cmd_start]>
    (<["stop" := total cmd_stop]>
       (<["comment" := total cmd_comment]>
          (<["history" := cmd_history]>
             (<["clear" := total cmd_clear]>
                (<["test" := total cmd_test]> ∅))))).

(** Lines 79-83: the entry [process] appends to the history. *)
Definition record (session : gmap string string) (command_line : string)
    (g : Globals) : Globals :=
  let '(stamp, g1) := now g in
  set_history
    (command_history g1
       ++ [{| timestamp := stamp; command := command_line;
              session_id := default "unknown" (session !! "session_id") |}])%list
    g1.

(** Lines 85-97: the call of the command, if there is one of that name. *)
Definition dispatch (commands : gmap string Handler) (cmd : string)
    (args : list string) (g : Globals) : Result Reply * Globals :=
  match commands !! cmd with
  | Some handler =>
      match handler args g with
      | (Raise e, g') =>
          if isinstance e Exception
          then (Return (reply ("Error executing command '" ++ cmd ++ "': " ++ exc_str e) true), g')
          else (Raise e, g')
      | r => r
      end
  | None => (Return (reply ("Unknown command: " ++ cmd ++ ". Type 'help' for available commands.") true), g)
  end.

(** [process], for the table [commands] of [self.commands] and the
    [session] of the request. *)
Definition process (commands : gmap string Handler)
    (session : gmap string string) (command_line : string) (g : Globals)
  : Result Reply * Globals :=
  if negb (nonempty (strip command_line)) then (Return (reply "" false), g)
  else
    match words (strip command_line) with
    | [] => (Raise (new_exn IndexError "list index out of range"), g)
    | part :: args =>
        dispatch commands (str_lower part) args (record session command_line g)
    end.

End Commands.

End Console.

(** ** The registry of bots over a session of the console *)

Module Registry.

Import Console.

(** An entry as [cmd_start] makes it: a platform of the console, running,
    with no comment counted. *)
Definition pristine (entry : string * Bot) : bool :=
  is_platform (fst entry)
  && String.eqb (bot_status (snd entry)) "running"
  && (comments_posted (snd entry) =? 0)%Z.

Fixpoint distinct (names : list string) : bool :=
  match names with
  | [] => true
  | name :: rest => negb (existsb (String.eqb name) rest) && distinct rest
  end.

Definition registry_ok (g : Globals) : bool :=
  distinct (map fst (active_bots g)) && forallb pristine (active_bots g).

(** A command that leaves the registry and the history as they are. *)
Definition keeps_stores (handler : Handler) : Prop :=
  forall args g,
    active_bots (snd (handler args g)) = active_bots g
    /\ command_history (snd (handler args g)) = command_history g.

Section Sessions.

Variable datetime_now : nat -> string.
Variable str_lower : string -> string.
Variable parse_int : string -> option Z.
Variable clock_time : string -> Result string.

(** A table [self.commands] that binds the commands of the registry as the
    source does, and whose other commands only read the two stores. *)
Definition extends_registry (commands : gmap string Handler) : Prop :=
  registry_commands datetime_now str_lower parse_int clock_time ⊆ commands
  /\ forall name handler,
       commands !! name = Some handler ->
       registry_commands datetime_now str_lower parse_int clock_time !! name
       = None ->
       keeps_stores handler.

(** The globals after the requests [lines], each with its session. *)
Definition after_lines (commands : gmap string Handler)
    (lines : list (gmap string string * string)) (g : Globals) : Globals :=
  fold_left
    (fun g line =>
       snd (process datetime_now str_lower commands (fst line) (snd line) g))
    lines g.

End Sessions.

(** The globals when the module is loaded, with the engine that
    [initialize_systems] may have set. *)
Definition startup (engine : option Engine) : Globals :=
  {| comment_engine := engine; active_bots := []; command_history := [];
     clock_reads := 0 |}.

End Registry.

Module ConsoleSamples.

Import Console Registry.

Definition sample_now (n : nat) : string := "2024-05-01T10:00:0" ++ pretty n.

Definition digit (c : ascii) : option Z :=
  let n := Z.of_nat (nat_of_ascii c) in
  if (48 <=? n)%Z && (n <=? 57)%Z then Some (n - 48)%Z else None.

Fixpoint digits (acc : Z) (s : string) : option Z :=
  match s with
  | EmptyString => Some acc
  | String c rest =>
      match digit c with
      | Some d => digits (10 * acc + d)%Z rest
      | None => None
      end
  end.

(** [int] on unsigned decimal numerals. *)
Definition sample_int (s : string) : option Z :=
  match s with
  | EmptyString => None
  | _ => digits 0 s
  end.

(** The time of day of a timestamp in ISO form. *)
Definition sample_clock_time (s : string) : Result string :=
  Return (substring 11 8 s).

Definition sample_session : gmap string string := {[ "session_id" := "s-1" ]}.

Definition sample_help : Handler :=
  fun _ g => (Return (reply "Available Commands" false), g).

Definition sample_commands : gmap string Handler :=
  <["help" := sample_help]>
    (registry_commands sample_now lower sample_int sample_clock_time).

Definition sample_engine : Engine :=
  fun n platform => Return [("Nice!", "praise")].

Definition sample_requests : list (gmap string string * string) :=
  [(sample_session, "start Instagram"); (sample_session, "start tiktok");
   (sample_session, "comment tiktok 5"); (sample_session, "stop instagram");
   (sample_session, "start youtube"); (sample_session, " HISTORY ")].

End ConsoleSamples.

(** * Properties *)

(** ** The exception hierarchy *)

Lemma proxy_error_is_request_exception (e : exn) :
  isinstance e ProxyError = true -> isinstance e RequestException = true.
Proof. unfold isinstance. destruct (exc_type e); vm_compute; congruence. Qed.

Lemma request_exception_is_exception (e : exn) :
  isinstance e RequestException = true -> isinstance e Exception = true.
Proof. unfold isinstance. destruct (exc_type e); vm_compute; congruence. Qed.

Lemma unicode_error_not_request_exception (msg : string) :
  isinstance (new_exn UnicodeDecodeError msg) RequestException = false.
Proof. reflexivity. Qed.

(** Truth-value testing is false on the false values and on nothing
    else. *)
Lemma truthy_falsy (v : pyval) : truthy v = false <-> falsy v.
Proof.
  split.
  - destruct v as [|[]|z|[]|s|[|]|d]; cbn; try discriminate;
      try (intros _; constructor).
    + intros H. apply negb_false_iff, Z.eqb_eq in H. subst. constructor.
    + intros H. apply negb_false_iff, String.eqb_eq in H. subst. constructor.
    + unfold dict_truthy. intros H.
      apply negb_false_iff, bool_decide_eq_true in H. subst. constructor.
  - intros []; reflexivity.
Qed.

(** [a or b] is [b] for a false [a] and [a] otherwise. *)
Lemma or_val_falsy (a b : pyval) :
  (falsy a -> (if truthy a then a else b) = b)
  /\ (~ falsy a -> (if truthy a then a else b) = a).
Proof.
  split.
  - intros H. apply truthy_falsy in H. rewrite H. reflexivity.
  - intros H. destruct (truthy a) eqn:E; [reflexivity|].
    apply truthy_falsy in E. contradiction.
Qed.

(** The decoder finds an error exactly in the bytes that are not UTF-8. *)
Lemma utf8_valid_error (n : nat) :
  forall bs pos, length bs <= n ->
    utf8_valid bs
    = match utf8_error bs pos with None => true | Some _ => false end.
Proof.
  induction n as [|n IH]; intros bs pos Hlen.
  - destruct bs; [reflexivity | cbn in Hlen; lia].
  - destruct bs as [|b0 t0]; [reflexivity|].
    cbn [utf8_valid utf8_error]. cbn [length] in Hlen.
    repeat (first
      [ reflexivity
      | apply IH; cbn [length]; lia
      | match goal with
        | |- context [match ?l with [] => _ | _ :: _ => _ end] =>
            is_var l; destruct l; cbn [length] in Hlen
        | |- context [if in_range ?b ?lo ?hi then _ else _] =>
            destruct (in_range b lo hi)
        | |- context [in_range ?b ?lo ?hi && _] =>
            destruct (in_range b lo hi)
        end; cbn [andb] ]).
Qed.

Lemma utf8_error_invalid (bs : list byte) (pos : nat) :
  utf8_valid bs = false -> exists err, utf8_error bs pos = Some err.
Proof.
  rewrite (utf8_valid_error (length bs) bs pos) by reflexivity.
  destruct (utf8_error bs pos) as [err|]; [eauto | discriminate].
Qed.

Lemma decode_utf8_raises (bs : list byte) (e : exn) :
  decode_utf8 bs = Raise e -> exc_type e = UnicodeDecodeError.
Proof. unfold decode_utf8. destruct (utf8_valid bs); intros [= <-]; reflexivity. Qed.

(** ** The proxy pool *)

Section PoolProperties.

Import ProxyRotatingAIAgent.

Lemma set_index_same (st : State) :
  set_index (current_proxy_index (self st)) st = st.
Proof. destruct st as [[] ?]; reflexivity. Qed.

Lemma set_index_twice (i j : nat) (st : State) :
  set_index j (set_index i st) = set_index j st.
Proof. reflexivity. Qed.

Lemma get_next_proxy_empty (st : State) :
  proxies (self st) = [] -> get_next_proxy st = (Return None, st).
Proof. unfold get_next_proxy. intros ->. reflexivity. Qed.

Lemma get_next_proxy_at (st : State) (p : string) :
  proxies (self st) !! current_proxy_index (self st) = Some p ->
  get_next_proxy st =
    (Return (Some (proxy_config p)),
     set_index ((current_proxy_index (self st) + 1)
                  mod length (proxies (self st))) st).
Proof.
  unfold get_next_proxy. intros H.
  destruct (proxies (self st)) as [|q qs] eqn:E; [discriminate|].
  rewrite H. reflexivity.
Qed.

(** From a valid cursor [c], the [i]-th of [k] successive calls hands out
    the endpoint at index [(c + i) mod N], and the cursor ends at
    [(c + k) mod N]. *)
Lemma call_get_next_proxy_rotation (k : nat) (st : State) :
  current_proxy_index (self st) < length (proxies (self st)) ->
  call_get_next_proxy k st =
    (map (fun i =>
            Return (Some (proxy_config
                            (nth ((current_proxy_index (self st) + i)
                                    mod length (proxies (self st)))
                               (proxies (self st)) ""))))
         (seq 0 k),
     set_index ((current_proxy_index (self st) + k)
                  mod length (proxies (self st))) st).
Proof.
  revert st. induction k as [|k IH]; intros st Hc.
  - simpl. rewrite Nat.add_0_r, Nat.mod_small by exact Hc.
    rewrite set_index_same. reflexivity.
  - cbn [call_get_next_proxy].
    set (c := current_proxy_index (self st)) in *.
    set (P := proxies (self st)) in *.
    destruct (lookup_lt_is_Some_2 P c Hc) as [p Hp].
    rewrite (get_next_proxy_at st p Hp).
    fold c P.
    assert (HN : length P <> 0) by lia.
    rewrite IH; cbn [self set_index current_proxy_index proxies]; fold P;
      [|apply Nat.mod_upper_bound; exact HN].
    rewrite set_index_twice. f_equal.
    + cbn [seq map]. f_equal.
      * rewrite Nat.add_0_r, Nat.mod_small by exact Hc.
        do 3 f_equal. symmetry. apply nth_lookup_Some with (d := ""). exact Hp.
      * rewrite <- seq_shift, map_map. apply map_ext. intros i.
        do 4 f_equal.
        rewrite Nat.Div0.add_mod_idemp_l. f_equal. lia.
    + f_equal. rewrite Nat.Div0.add_mod_idemp_l. f_equal. lia.
Qed.

Lemma map_nth_seq {A B} (f : A -> B) (d : A) (l : list A) :
  map (fun i => f (nth (i mod length l) l d)) (seq 0 (length l)) = map f l.
Proof.
  apply nth_ext
    with (d := (fun i => f (nth (i mod length l) l d)) 0) (d' := f d).
  - rewrite !length_map, length_seq. reflexivity.
  - intros n Hn. rewrite length_map, length_seq in Hn.
    rewrite (map_nth (fun i => f (nth (i mod length l) l d)) _ 0).
    rewrite seq_nth by exact Hn. cbn [Nat.add].
    rewrite Nat.mod_small by exact Hn.
    symmetry. apply (map_nth f).
Qed.

End PoolProperties.

Section RoundRobin.

Import ProxyRotatingAIAgent.

(** C2.  [get_next_proxy] returns [None] on an empty pool.  On a non-empty
    pool whose cursor is a valid index it returns the endpoint [p] at the
    cursor, as the mapping [{'http': p, 'https': p}], and moves the cursor
    to [(cursor + 1) mod N], which is again a valid index.  Starting from
    cursor 0, [N] successive calls return the endpoints of the list once
    each in list order, and the call after them returns the first endpoint
    again.  The mapping tells the endpoint: different endpoints are handed
    out as different mappings. *)
Theorem get_next_proxy_round_robin (st : State) (Hwf : cursor_valid st) :
  let P := proxies (self st) in
  let c := current_proxy_index (self st) in
  let handed p : Result (option (gmap string string)) :=
    Return (Some {[ "http" := p; "https" := p ]}) in
  (forall p q, handed p = handed q -> p = q) /\
  (P = [] -> get_next_proxy st = (Return None, st)) /\
  (P <> [] ->
     exists p, P !! c = Some p /\
       get_next_proxy st = (handed p, set_index ((c + 1) mod length P) st) /\
       (c + 1) mod length P < length P /\
       cursor_valid (snd (get_next_proxy st))) /\
  (P <> [] -> c = 0 ->
     fst (call_get_next_proxy (length P) st) = map handed P /\
     current_proxy_index (self (snd (call_get_next_proxy (length P) st))) = 0 /\
     fst (call_get_next_proxy (length P + 1) st)
       = (map handed P ++ map handed (take 1 P))%list).
Proof.
  intros P c handed.
  change handed with (fun p => @Return (option (gmap string string))
                                 (Some (proxy_config p))).
  split; [|split; [|split]].
  - intros p q H.
    apply (f_equal (fun r : Result (option (gmap string string)) =>
                      match r with
                      | Return (Some m) => m !! "http"
                      | _ => None
                      end)) in H.
    cbv beta iota in H. unfold proxy_config in H.
    rewrite !lookup_insert_eq in H. congruence.
  - apply get_next_proxy_empty.
  - intros Hne.
    assert (Hc : c < length P).
    { destruct Hwf as [H|H]; [contradiction | exact H]. }
    destruct (lookup_lt_is_Some_2 P c Hc) as [p Hp].
    exists p. split; [exact Hp|].
    rewrite (get_next_proxy_at st p Hp). fold P c.
    assert (Hm : (c + 1) mod length P < length P)
      by (apply Nat.mod_upper_bound; lia).
    repeat split; [exact Hm|]. right. exact Hm.
  - intros Hne Hc0.
    assert (Hc : current_proxy_index (self st) < length (proxies (self st))).
    { destruct Hwf as [H|H]; [contradiction | exact H]. }
    rewrite !(call_get_next_proxy_rotation _ st Hc).
    fold P c. rewrite Hc0. cbn [fst snd Nat.add].
    pose proof (map_nth_seq (fun p => @Return (option (gmap string string))
                                        (Some (proxy_config p))) "" P) as HP.
    cbv beta in HP. split; [|split].
    + exact HP.
    + cbn [set_index self current_proxy_index].
      apply Nat.Div0.mod_same.
    + rewrite seq_app, map_app. cbn [Nat.add seq map].
      rewrite HP. f_equal.
      rewrite Nat.Div0.mod_same.
      destruct P as [|p0 P']; [contradiction|]. reflexivity.
Qed.

Import Samples.

Lemma get_next_proxy_round_robin_witness :
  fst (call_get_next_proxy 4 sample_state)
  = [Return (Some {[ "http" := "http://p1:8080"; "https" := "http://p1:8080" ]});
     Return (Some {[ "http" := "http://p2:8080"; "https" := "http://p2:8080" ]});
     Return (Some {[ "http" := "http://p3:8080"; "https" := "http://p3:8080" ]});
     Return (Some {[ "http" := "http://p1:8080"; "https" := "http://p1:8080" ]})].
Proof.
  assert (Hwf : cursor_valid sample_state) by (right; simpl; lia).
  destruct (get_next_proxy_round_robin sample_state Hwf) as (_ & _ & _ & H).
  destruct H as (_ & _ & H); [discriminate | reflexivity |].
  exact H.
Defined.

End RoundRobin.

(** ** The attempt loop produces runs *)

Section LoopProperties.

Import ProxyRotatingAIAgent Trace.

Variable session_request : list Event -> Request -> Result Response.
Variable random_random : list Event -> Q.

Lemma proxy_config_truthy (p : string) : dict_truthy (proxy_config p) = true.
Proof.
  unfold dict_truthy, proxy_config.
  rewrite bool_decide_eq_false_2; [reflexivity|].
  apply insert_non_empty.
Qed.

Lemma proxy_config_https (p : string) : proxy_config p !! "https" = Some p.
Proof.
  unfold proxy_config.
  rewrite lookup_insert_ne by discriminate. apply lookup_insert_eq.
Qed.

Lemma proxy_config_http (p : string) : proxy_config p !! "http" = Some p.
Proof. unfold proxy_config. apply lookup_insert_eq. Qed.

(** The three ways lines 58-61 can go. *)
Lemma use_proxy_cases (kw : Kwargs) (st : State) :
  (proxies (self st) = [] /\ use_proxy kw st = (Return kw, st)) \/
  (exists p,
      proxies (self st) !! current_proxy_index (self st) = Some p /\
      use_proxy kw st =
        (Return (set_proxies (proxy_config p) kw),
         emit (EPrint ("Using proxy: " ++ p))
           (set_index ((current_proxy_index (self st) + 1)
                         mod length (proxies (self st))) st))) \/
  (proxies (self st) <> [] /\
   proxies (self st) !! current_proxy_index (self st) = None /\
   use_proxy kw st = (Raise (new_exn IndexError "list index out of range"), st)).
Proof.
  unfold use_proxy, bind.
  destruct (proxies (self st)) as [|q qs] eqn:EP.
  - left. split; [reflexivity|].
    rewrite get_next_proxy_empty by exact EP. reflexivity.
  - destruct (proxies (self st) !! current_proxy_index (self st)) as [p|] eqn:EL.
    + right; left. exists p. rewrite <- EP. split; [exact EL|].
      rewrite (get_next_proxy_at st p EL).
      rewrite proxy_config_truthy, proxy_config_https. reflexivity.
    + right; right. rewrite <- EP. split; [rewrite EP; discriminate|].
      split; [exact EL|].
      unfold get_next_proxy. rewrite EL, EP. reflexivity.
Qed.

Lemma cursor_valid_lookup (st : State) :
  cursor_valid st -> proxies (self st) <> [] ->
  is_Some (proxies (self st) !! current_proxy_index (self st)).
Proof.
  intros [H|H] Hne; [contradiction|]. apply lookup_lt_is_Some_2. exact H.
Qed.

Lemma cursor_valid_advance (st : State) :
  proxies (self st) <> [] ->
  cursor_valid (set_index ((current_proxy_index (self st) + 1)
                             mod length (proxies (self st))) st).
Proof.
  intros Hne. right. cbn [set_index self current_proxy_index proxies].
  apply Nat.mod_upper_bound. destruct (proxies (self st)); [contradiction|].
  simpl; lia.
Qed.

Lemma issued_by_proxy (method url : string) (kw : Kwargs) (st : State)
    (p : string) (i : nat) (ev : Event) :
  proxies (self st) !! current_proxy_index (self st) = Some p ->
  issued_by method url kw (self st)
    (build_request method url (set_proxies (proxy_config p) kw)
       (self (emit ev (set_index i st)))).
Proof.
  intros Hp. unfold issued_by. cbn.
  repeat (split; [reflexivity|]).
  apply list_elem_of_lookup_2 in Hp.
  destruct (proxies (self st)) as [|q qs] eqn:EP; [inversion Hp|].
  exists p. split; [exact Hp|reflexivity].
Qed.

Lemma issued_by_direct (method url : string) (kw : Kwargs) (st : State) :
  proxies (self st) = [] ->
  issued_by method url kw (self st) (build_request method url kw (self st)).
Proof.
  intros EP. unfold issued_by. cbn. repeat (split; [reflexivity|]).
  rewrite EP. reflexivity.
Qed.

(** [issued_by] looks only at what the loop leaves unchanged. *)
Lemma issued_by_stable (method url : string) (kw kw' : Kwargs) (a a' : Agent)
    (req : Request) :
  session_headers a' = session_headers a -> proxies a' = proxies a ->
  kw_json kw' = kw_json kw -> kw_timeout kw' = kw_timeout kw ->
  kw_stream kw' = kw_stream kw ->
  (proxies a = [] -> kw_proxies kw' = kw_proxies kw) ->
  issued_by method url kw' a' req -> issued_by method url kw a req.
Proof.
  intros Hh Hp Hj Ht Hs Hk (H1 & H2 & H3 & H4 & H5 & H6 & H7).
  unfold issued_by. rewrite <- Hh, <- Hj, <- Ht, <- Hs.
  repeat (split; [assumption|]).
  rewrite Hp in H7. destruct (proxies a); [|exact H7].
  rewrite H7. apply Hk. reflexivity.
Qed.

Lemma Run_mono (strict : bool) (max_attempts : nat)
    (call call' : Request -> Prop) (a n : nat) (hist new : list Event)
    (r : Result Response) :
  (forall req, call req -> call' req) ->
  Run session_request random_random strict max_attempts call a n hist new r ->
  Run session_request random_random strict max_attempts call' a n hist new r.
Proof.
  intros Himp H. induction H.
  - apply run_exhausted.
  - apply run_lookup_failed; assumption.
  - apply run_success; auto.
  - eapply run_proxy_failed; eauto.
  - eapply run_retry; eauto.
  - eapply run_last_failed; eauto.
  - eapply run_fatal; eauto.
Qed.

End LoopProperties.

Section LoopAdequacy.

Import ProxyRotatingAIAgent Trace.

Variable session_request : list Event -> Request -> Result Response.
Variable random_random : list Event -> Q.

Abbreviation attempt_loop := (attempt_loop session_request random_random).
Abbreviation request_once := (request_once session_request random_random).
Abbreviation physical := (physical session_request).
Abbreviation produces := (produces session_request random_random).

(** The five ways lines 63-74 can go. *)
Lemma request_once_cases (method url : string) (max_attempts attempt : nat)
    (kw : Kwargs) (st : State) :
  let req := build_request method url kw (self st) in
  let sent := emit (ERequest req) st in
  match physical (events st) req with
  | Return response =>
      request_once method url max_attempts attempt kw st
      = (Done (Return response), sent)
  | Raise e =>
      if isinstance e ProxyError then
        request_once method url max_attempts attempt kw st
        = (Next kw, emit proxy_failed sent)
      else if isinstance e RequestException then
        if (attempt =? max_attempts - 1)%nat then
          request_once method url max_attempts attempt kw st
          = (Done (Raise e), sent)
        else
          request_once method url max_attempts attempt kw st
          = (Next kw,
             emit (ESleep (uniform 1 3
                             (random_random (events (emit (retrying e) sent)))))
               (emit (retrying e) sent))
      else
        request_once method url max_attempts attempt kw st
        = (Done (Raise e), sent)
  end.
Proof.
  intros req sent. unfold request_once, send, handlers. fold req. fold sent.
  destruct (physical (events st) req) as [response|e]; [reflexivity|].
  destruct (isinstance e ProxyError); [reflexivity|].
  destruct (isinstance e RequestException); [|reflexivity].
  destruct (attempt =? max_attempts - 1)%nat; reflexivity.
Qed.

Lemma unchanged_refl (st : State) : unchanged st st.
Proof. repeat split. Qed.

Lemma unchanged_trans (st1 st2 st3 : State) :
  unchanged st1 st2 -> unchanged st2 st3 -> unchanged st1 st3.
Proof.
  intros (A1 & A2 & A3 & A4) (B1 & B2 & B3 & B4).
  repeat split; congruence.
Qed.

Lemma unchanged_emit (ev : Event) (st st' : State) :
  unchanged st st' -> unchanged st (emit ev st').
Proof. intros H; exact H. Qed.

Lemma cursor_valid_emit (ev : Event) (st : State) :
  cursor_valid st -> cursor_valid (emit ev st).
Proof. intros H; exact H. Qed.

(** One iteration whose proxy selection went through, followed by the rest
    of the loop. *)
Lemma loop_step (strict : bool) (max_attempts : nat) (method url : string)
    (n a : nat) (kw kw1 : Kwargs) (st st1 : State) (pre : list Event) :
  (forall kw2 st2, (strict = true -> cursor_valid st2) ->
      produces strict max_attempts method url kw2 st2 (S a) n
        (attempt_loop method url max_attempts (seq (S a) n) kw2 st2)) ->
  preamble pre ->
  events st1 = (events st ++ pre)%list ->
  unchanged st st1 ->
  (strict = true -> cursor_valid st1) ->
  (cursor_valid st -> cursor_valid st1) ->
  kw_json kw1 = kw_json kw -> kw_timeout kw1 = kw_timeout kw ->
  kw_stream kw1 = kw_stream kw ->
  (proxies (self st) = [] -> kw_proxies kw1 = kw_proxies kw) ->
  issued_by method url kw (self st) (build_request method url kw1 (self st1)) ->
  produces strict max_attempts method url kw st a (S n)
    (match request_once method url max_attempts a kw1 st1 with
     | (Done r, st') => (r, st')
     | (Next kw2, st') =>
         attempt_loop method url max_attempts (seq (S a) n) kw2 st'
     end).
Proof.
  intros IH Hpre Hev Hun Hst Hcv Hj Ht Hs Hk Hreq.
  pose proof (request_once_cases method url max_attempts a kw1 st1) as Hc.
  cbv zeta in Hc. rewrite Hev in Hc.
  set (req := build_request method url kw1 (self st1)) in *.
  assert (Hstable : forall req' st2, unchanged st1 st2 ->
            issued_by method url kw1 (self st2) req' ->
            issued_by method url kw (self st) req').
  { intros req' st2 (U1 & U2 & U3 & U4) Hi.
    destruct Hun as (V1 & V2 & V3 & V4).
    eapply issued_by_stable; [ | | | | | | exact Hi]; try congruence.
    exact Hk. }
  destruct (physical (events st ++ pre) req) as [response|e] eqn:Eph.
  - rewrite Hc. exists (pre ++ [ERequest req])%list.
    cbn [fst snd emit events]. rewrite Hev, <- app_assoc.
    split; [reflexivity|]. split; [apply run_success; assumption|].
    split; [exact Hun | exact Hcv].
  - destruct (isinstance e ProxyError) eqn:EPx;
      [|destruct (isinstance e RequestException) eqn:ERq;
        [destruct (a =? max_attempts - 1)%nat eqn:Ea|]]; rewrite Hc.
    + (* proxy failure: on to the next iteration *)
      set (st2 := emit proxy_failed (emit (ERequest req) st1)).
      destruct (IH kw1 st2) as (new & Hev2 & Hrun & Hun2 & Hcv2).
      { intros Hs'. apply Hst. exact Hs'. }
      exists (pre ++ ERequest req :: proxy_failed :: new)%list.
      split; [|split; [|split]].
      * rewrite Hev2. subst st2. cbn [emit events]. rewrite Hev.
        rewrite <- !app_assoc. reflexivity.
      * eapply run_proxy_failed; try eassumption.
        eapply Run_mono; [|].
        2:{ replace (events st ++ pre ++ [ERequest req; proxy_failed])%list
              with (events st2).
            - exact Hrun.
            - subst st2. cbn [emit events]. rewrite Hev.
              rewrite <- !app_assoc. reflexivity. }
        intros req' Hi. apply (Hstable req' st2); [|exact Hi].
        exact (unchanged_refl st1).
      * eapply unchanged_trans; [exact Hun|]. exact Hun2.
      * intros Hv. apply Hcv2. apply Hcv. exact Hv.
    + (* the last attempt failed *)
      exists (pre ++ [ERequest req])%list.
      cbn [fst snd emit events]. rewrite Hev, <- app_assoc.
      split; [reflexivity|]. split; [|split; [exact Hun | exact Hcv]].
      apply run_last_failed; try assumption.
      apply Nat.eqb_eq. exact Ea.
    + (* a retry after the backoff delay *)
      set (sent := emit (retrying e) (emit (ERequest req) st1)) in *.
      set (delay := uniform 1 3 (random_random (events sent))).
      set (st2 := emit (ESleep delay) sent).
      destruct (IH kw1 st2) as (new & Hev2 & Hrun & Hun2 & Hcv2).
      { intros Hs'. apply Hst. exact Hs'. }
      assert (Hsent : events sent
                      = (events st ++ pre ++ [ERequest req; retrying e])%list).
      { subst sent. cbn [emit events]. rewrite Hev.
        rewrite <- !app_assoc. reflexivity. }
      exists (pre ++ ERequest req :: retrying e :: ESleep delay :: new)%list.
      split; [|split; [|split]].
      * rewrite Hev2. subst st2. cbn [emit events]. rewrite Hsent.
        rewrite <- !app_assoc. reflexivity.
      * subst delay. rewrite Hsent.
        eapply run_retry; try eassumption.
        { apply Nat.eqb_neq. exact Ea. }
        eapply Run_mono; [|].
        2:{ rewrite <- Hsent.
            replace (events st ++ pre ++
                       [ERequest req; retrying e;
                        ESleep (uniform 1 3 (random_random (events sent)))])%list
              with (events st2).
            - exact Hrun.
            - subst st2. cbn [emit events]. rewrite Hsent.
              rewrite <- !app_assoc. reflexivity. }
        intros req' Hi. apply (Hstable req' st2); [|exact Hi].
        exact (unchanged_refl st1).
      * eapply unchanged_trans; [exact Hun|]. exact Hun2.
      * intros Hv. apply Hcv2. apply Hcv. exact Hv.
    + (* not a request failure: it escapes *)
      exists (pre ++ [ERequest req])%list.
      cbn [fst snd emit events]. rewrite Hev, <- app_assoc.
      split; [reflexivity|]. split; [|split; [exact Hun | exact Hcv]].
      apply run_fatal; assumption.
Qed.

End LoopAdequacy.

Section LoopRuns.

Import ProxyRotatingAIAgent Trace.

Variable session_request : list Event -> Request -> Result Response.
Variable random_random : list Event -> Q.

Abbreviation attempt_loop := (attempt_loop session_request random_random).
Abbreviation make_request := (make_request session_request random_random).
Abbreviation produces := (produces session_request random_random).

(** Every execution of the loop is a run. *)
Lemma attempt_loop_run (strict : bool) (max_attempts : nat)
    (method url : string) (n : nat) :
  forall (a : nat) (kw : Kwargs) (st : State),
    (strict = true -> cursor_valid st) ->
    produces strict max_attempts method url kw st a n
      (attempt_loop method url max_attempts (seq a n) kw st).
Proof.
  induction n as [|n IH]; intros a kw st Hst.
  - exists []. cbn. rewrite app_nil_r.
    split; [reflexivity|]. split; [apply run_exhausted|].
    split; [apply unchanged_refl | auto].
  - cbn [seq ProxyRotatingAIAgent.attempt_loop]. unfold iteration.
    destruct (use_proxy_cases kw st)
      as [[EP Hu] | [(p & Hp & Hu) | (Hne & Hnone & Hu)]]; rewrite Hu.
    + (* no pool: a direct request *)
      apply loop_step with (pre := []); try reflexivity; auto.
      * apply preamble_direct.
      * rewrite app_nil_r. reflexivity.
      * apply unchanged_refl.
      * apply issued_by_direct. exact EP.
    + (* the proxy at the cursor *)
      assert (Hne : proxies (self st) <> []).
      { intros E. rewrite E in Hp. discriminate. }
      apply loop_step with (pre := [EPrint ("Using proxy: " ++ p)]);
        try reflexivity; auto.
      * apply preamble_proxy.
      * repeat split.
      * intros _. apply cursor_valid_emit, cursor_valid_advance. exact Hne.
      * intros _. apply cursor_valid_emit, cursor_valid_advance. exact Hne.
      * intros E. contradiction.
      * apply issued_by_proxy. exact Hp.
    + (* the cursor is not an index of the pool *)
      exists []. cbn. rewrite app_nil_r.
      split; [reflexivity|]. split; [|split; [apply unchanged_refl | auto]].
      apply run_lookup_failed; [|reflexivity].
      destruct strict; [|reflexivity].
      destruct (cursor_valid_lookup st (Hst eq_refl) Hne) as [q Hq].
      congruence.
Qed.

(** Every execution of [make_request] is a run of the whole budget. *)
Lemma make_request_run (strict : bool) (method url : string) (kw : Kwargs)
    (st : State) :
  (strict = true -> cursor_valid st) ->
  produces strict (max_attempts_of (self st)) method url kw st
    0 (max_attempts_of (self st)) (make_request method url kw st).
Proof. intros H. apply attempt_loop_run. exact H. Qed.

Lemma max_attempts_positive (a : Agent) : 0 < max_attempts_of a.
Proof. unfold max_attempts_of. destruct (proxies a); simpl; lia. Qed.

End LoopRuns.

(** ** Properties of runs *)

Section RunProperties.

Import ProxyRotatingAIAgent Trace.

Variable session_request : list Event -> Request -> Result Response.
Variable random_random : list Event -> Q.
Variable strict : bool.
Variable max_attempts : nat.
Variable call : Request -> Prop.

Abbreviation physical := (physical session_request).
Abbreviation Run :=
  (Run session_request random_random strict max_attempts call).

Lemma attempts_in_app (l1 l2 : list Event) :
  attempts_in (l1 ++ l2) = attempts_in l1 + attempts_in l2.
Proof. unfold attempts_in. rewrite List.filter_app, length_app. reflexivity. Qed.

Lemma attempts_in_preamble (pre : list Event) :
  preamble pre -> attempts_in pre = 0.
Proof. intros []; reflexivity. Qed.

Lemma sleeps_in_preamble (pre : list Event) :
  preamble pre -> sleeps_in pre = [].
Proof. intros []; reflexivity. Qed.

Lemma until_request_preamble (pre : list Event) (req : Request)
    (post : list Event) :
  preamble pre -> until_request (pre ++ ERequest req :: post) = pre.
Proof. intros []; reflexivity. Qed.

(** Where a request can sit in a trace whose first request is known. *)
Lemma first_request_split (pre0 : list Event) :
  forall (r0 : Request) (t0 pre : list Event) (r : Request) (post : list Event),
    attempts_in pre0 = 0 ->
    (pre0 ++ ERequest r0 :: t0 = pre ++ ERequest r :: post)%list ->
    (pre = pre0 /\ r = r0 /\ post = t0) \/
    (exists pre', pre = (pre0 ++ ERequest r0 :: pre')%list /\
                  t0 = (pre' ++ ERequest r :: post)%list).
Proof.
  induction pre0 as [|x pre0 IH]; intros r0 t0 pre r post H0 Heq.
  - destruct pre as [|y pre]; cbn in Heq.
    + injection Heq as -> ->. left. auto.
    + injection Heq as <- ->. right. exists pre. auto.
  - destruct pre as [|y pre]; cbn in Heq.
    + injection Heq as -> _. discriminate H0.
    + injection Heq as -> Heq.
      assert (H0' : attempts_in pre0 = 0).
      { unfold attempts_in in *. cbn in H0.
        destruct (is_request y); [discriminate | exact H0]. }
      destruct (IH _ _ _ _ _ H0' Heq) as [(-> & -> & ->) | (pre' & -> & ->)].
      * left. auto.
      * right. exists pre'. auto.
Qed.

Lemma Run_attempts_bound (a n : nat) (hist new : list Event)
    (r : Result Response) :
  Run a n hist new r -> attempts_in new <= n.
Proof.
  induction 1;
    repeat (rewrite ?attempts_in_app, ?(attempts_in_preamble pre) by assumption);
    unfold attempts_in in *; cbn; lia.
Qed.

(** A run that returns a response ends with the request that got it. *)
Lemma Run_returns (a n : nat) (hist new : list Event) (response : Response) :
  Run a n hist new (Return response) ->
  exists pre req,
    new = (pre ++ [ERequest req])%list /\ call req /\
    physical (hist ++ pre) req = Return response.
Proof.
  intros H. remember (Return response) as r eqn:Er.
  induction H; try discriminate.
  - injection Er as ->. exists pre, req. auto.
  - destruct (IHRun Er) as (pre' & req' & -> & Hc & Hp).
    exists (pre ++ ERequest req :: proxy_failed :: pre')%list, req'.
    split; [rewrite <- !app_assoc; reflexivity|]. split; [exact Hc|].
    rewrite <- Hp. f_equal. rewrite <- !app_assoc. reflexivity.
  - destruct (IHRun Er) as (pre' & req' & -> & Hc & Hp).
    exists (pre ++ ERequest req :: retrying e :: ESleep delay :: pre')%list, req'.
    split; [rewrite <- !app_assoc; reflexivity|]. split; [exact Hc|].
    rewrite <- Hp. f_equal. rewrite <- !app_assoc. reflexivity.
Qed.

(** How a run starts: with nothing, or with a preamble and a request. *)
Lemma Run_starts (a n : nat) (hist new : list Event) (r : Result Response) :
  Run a n hist new r ->
  new = [] \/
  exists pre req post,
    new = (pre ++ ERequest req :: post)%list /\ preamble pre /\ call req.
Proof.
  destruct 1; [left; reflexivity | left; reflexivity | right ..].
  - exists pre, req, []. auto.
  - exists pre, req, (proxy_failed :: new). auto.
  - exists pre, req, (retrying e :: ESleep delay :: new). auto.
  - exists pre, req, []. auto.
  - exists pre, req, []. auto.
Qed.

(** When the pool lookup cannot fail, a run with iterations left issues a
    request. *)
Lemma Run_strict_starts (a n : nat) (hist new : list Event)
    (r : Result Response) :
  strict = true -> 0 < n -> Run a n hist new r ->
  exists pre req post,
    new = (pre ++ ERequest req :: post)%list /\ preamble pre /\ call req.
Proof.
  intros Hs Hn H. destruct H; [lia | congruence | ..].
  - exists pre, req, []. auto.
  - exists pre, req, (proxy_failed :: new). auto.
  - exists pre, req, (retrying e :: ESleep delay :: new). auto.
  - exists pre, req, []. auto.
  - exists pre, req, []. auto.
Qed.

Lemma preamble_no_request (pre : list Event) (req : Request) :
  preamble pre -> ERequest req ∉ pre.
Proof.
  intros [] Hin.
  - inversion Hin.
  - apply list_elem_of_singleton in Hin. discriminate.
Qed.

(** Every request of a run belongs to the call. *)
Lemma Run_requests (a n : nat) (hist new : list Event) (r : Result Response) :
  Run a n hist new r ->
  forall req, ERequest req ∈ new -> call req.
Proof.
  induction 1; intros req' Hin;
    rewrite ?elem_of_app, ?elem_of_cons, ?elem_of_nil in Hin;
    try (exfalso; exact Hin);
    repeat match goal with
      | H : _ \/ _ |- _ => destruct H
      | H : False |- _ => destruct H
      | H : ERequest _ = ERequest _ |- _ => injection H as ->
      | H : ERequest _ = _ |- _ => discriminate H
      | H : ERequest ?q ∈ ?p, P : preamble ?p |- _ =>
          destruct (preamble_no_request p q P H)
      end;
    auto.
Qed.

Abbreviation verdict :=
  (verdict session_request random_random strict max_attempts call).

Lemma Run_split (a n : nat) (hist new : list Event) (r : Result Response) :
  Run a n hist new r ->
  forall pre req post,
    new = (pre ++ ERequest req :: post)%list ->
    call req /\
    exists m, m + attempts_in pre + 1 = n /\ verdict a hist pre req post r m.
Proof.
  induction 1 as
    [ a hist
    | a n hist e Hstrict Hcls
    | a n hist pre0 req0 response Hpre Hcall Hph
    | a n hist pre0 req0 e new r Hpre Hcall Hph HPx Hrun IH
    | a n hist pre0 req0 e new r Hpre Hcall Hph HPx HRq Hnl delay Hrun IH
    | a n hist pre0 req0 e Hpre Hcall Hph HPx HRq Hl
    | a n hist pre0 req0 e Hpre Hcall Hph HRq ];
    intros pre req post Heq.
  - apply app_cons_not_nil in Heq. contradiction.
  - apply app_cons_not_nil in Heq. contradiction.
  - destruct (first_request_split pre0 req0 [] pre req post
                (attempts_in_preamble _ Hpre) Heq)
      as [(-> & -> & ->) | (pre' & _ & E)];
      [|apply app_cons_not_nil in E; contradiction].
    split; [exact Hcall|]. exists n.
    rewrite attempts_in_preamble by exact Hpre.
    split; [lia|]. unfold verdict. rewrite Hph. auto.
  - destruct (first_request_split pre0 req0 _ pre req post
                (attempts_in_preamble _ Hpre) Heq)
      as [(-> & -> & ->) | (pre' & -> & E)].
    + split; [exact Hcall|]. exists n.
      rewrite attempts_in_preamble by exact Hpre.
      split; [lia|]. unfold verdict. rewrite Hph, HPx.
      rewrite attempts_in_preamble by exact Hpre.
      exists new. split; [reflexivity|].
      replace (a + 0 + 1) with (S a) by lia.
      rewrite <- app_assoc. exact Hrun.
    + destruct pre' as [|y pre'']; [discriminate E|].
      injection E as <- E.
      destruct (IH pre'' req post E) as (Hc & m & Hm & Hv).
      split; [exact Hc|]. exists m.
      assert (Ek : attempts_in (pre0 ++ ERequest req0 :: proxy_failed :: pre'')
                   = S (attempts_in pre'')).
      { rewrite attempts_in_app, attempts_in_preamble by exact Hpre.
        reflexivity. }
      split; [lia|]. unfold verdict in *. rewrite Ek.
      replace (hist ++ pre0 ++ ERequest req0 :: proxy_failed :: pre'')%list
        with ((hist ++ pre0 ++ [ERequest req0; proxy_failed]) ++ pre'')%list
        by (rewrite <- !app_assoc; reflexivity).
      replace (a + S (attempts_in pre'')) with (S a + attempts_in pre'') by lia.
      exact Hv.
  - destruct (first_request_split pre0 req0 _ pre req post
                (attempts_in_preamble _ Hpre) Heq)
      as [(-> & -> & ->) | (pre' & -> & E)].
    + split; [exact Hcall|]. exists n.
      rewrite attempts_in_preamble by exact Hpre.
      split; [lia|]. unfold verdict. rewrite Hph, HPx, HRq.
      rewrite attempts_in_preamble by exact Hpre.
      replace (a + 0) with a by lia.
      rewrite (proj2 (Nat.eqb_neq _ _) Hnl).
      exists new. subst delay. rewrite <- !app_assoc.
      split; [reflexivity|].
      replace (a + 1) with (S a) by lia. exact Hrun.
    + destruct pre' as [|y pre'']; [discriminate E|].
      injection E as <- E.
      destruct pre'' as [|z pre'']; [discriminate E|].
      injection E as <- E.
      destruct (IH pre'' req post E) as (Hc & m & Hm & Hv).
      split; [exact Hc|]. exists m.
      assert (Ek : attempts_in (pre0 ++ ERequest req0 :: retrying e
                                  :: ESleep delay :: pre'')
                   = S (attempts_in pre'')).
      { rewrite attempts_in_app, attempts_in_preamble by exact Hpre.
        reflexivity. }
      split; [lia|]. unfold verdict in *. rewrite Ek.
      replace (hist ++ pre0 ++ ERequest req0 :: retrying e
                 :: ESleep delay :: pre'')%list
        with ((hist ++ pre0 ++ [ERequest req0; retrying e; ESleep delay])
                ++ pre'')%list
        by (rewrite <- !app_assoc; reflexivity).
      replace (a + S (attempts_in pre'')) with (S a + attempts_in pre'') by lia.
      exact Hv.
  - destruct (first_request_split pre0 req0 [] pre req post
                (attempts_in_preamble _ Hpre) Heq)
      as [(-> & -> & ->) | (pre' & _ & E)];
      [|apply app_cons_not_nil in E; contradiction].
    split; [exact Hcall|]. exists n.
    rewrite attempts_in_preamble by exact Hpre.
    split; [lia|]. unfold verdict. rewrite Hph, HPx, HRq.
    rewrite attempts_in_preamble by exact Hpre.
    replace (a + 0) with a by lia.
    rewrite (proj2 (Nat.eqb_eq _ _) Hl). auto.
  - destruct (first_request_split pre0 req0 [] pre req post
                (attempts_in_preamble _ Hpre) Heq)
      as [(-> & -> & ->) | (pre' & _ & E)];
      [|apply app_cons_not_nil in E; contradiction].
    split; [exact Hcall|]. exists n.
    rewrite attempts_in_preamble by exact Hpre.
    split; [lia|]. unfold verdict. rewrite Hph, HRq.
    destruct (isinstance e ProxyError) eqn:HPx; [|auto].
    apply proxy_error_is_request_exception in HPx. congruence.
Qed.

End RunProperties.

(** ** Rounding to binary64 and [random.uniform(1, 3)] *)

Section Binary64.

Local Open Scope Q_scope.

Ltac hide_powers :=
  repeat match goal with
         | |- context [Qpower 2 ?z] => generalize dependent (Qpower 2 z)
         | H : context [Qpower 2 ?z] |- _ => generalize dependent (Qpower 2 z)
         end;
  intros.

Lemma two_nonzero : ~ 2 == 0.
Proof. intros H. discriminate H. Qed.

Lemma pow2_pos (e : Z) : 0 < 2 ^ e.
Proof. apply Qpower_0_lt. reflexivity. Qed.

(** [floor_log2] is the exponent of the power of two at or below [q]. *)
Lemma floor_log2_spec (q : Q) :
  0 < q -> 2 ^ floor_log2 q <= q /\ q < 2 ^ (floor_log2 q + 1).
Proof.
  destruct q as [n d]. intros Hq.
  assert (Hn : (0 < n)%Z).
  { unfold Qlt in Hq. cbn in Hq. lia. }
  unfold floor_log2. cbn [Qnum Qden].
  set (a := Z.log2 n). set (b := Z.log2 (Z.pos d)).
  destruct (Z.log2_spec n Hn) as [Ha1 Ha2]. fold a in Ha1, Ha2.
  destruct (Z.log2_spec (Z.pos d) eq_refl) as [Hb1 Hb2]. fold b in Hb1, Hb2.
  assert (Ha0 : (0 <= a)%Z) by apply Z.log2_nonneg.
  assert (Hb0 : (0 <= b)%Z) by apply Z.log2_nonneg.
  assert (Hup : n # d < 2 ^ (a - b + 1)).
  { replace (a - b + 1)%Z with (Z.succ a - b)%Z by lia.
    rewrite Qpower_minus by exact two_nonzero.
    rewrite <- !(Zpower_Qpower 2) by lia.
    apply Qlt_shift_div_l.
    - change 0 with (inject_Z 0). rewrite <- Zlt_Qlt. lia.
    - unfold Qlt, Qmult, inject_Z. cbn [Qnum Qden].
      assert (0 < 2 ^ b)%Z by lia. nia. }
  assert (Hlow : 2 ^ (a - b - 1) <= n # d).
  { replace (a - b - 1)%Z with (a - Z.succ b)%Z by lia.
    rewrite Qpower_minus by exact two_nonzero.
    rewrite <- !(Zpower_Qpower 2) by lia.
    apply Qle_shift_div_r.
    - change 0 with (inject_Z 0). rewrite <- Zlt_Qlt. lia.
    - unfold Qle, Qmult, inject_Z. cbn [Qnum Qden].
      assert (0 < 2 ^ a)%Z by lia. nia. }
  destruct (Qle_bool (2 ^ (a - b)) (n # d)) eqn:E.
  - apply Qle_bool_iff in E. split; assumption.
  - assert (Hlt : n # d < 2 ^ (a - b)).
    { apply Qnot_le_lt. intros H. apply Qle_bool_iff in H. congruence. }
    replace (a - b - 1 + 1)%Z with (a - b)%Z by lia. split; assumption.
Qed.

Lemma round_half_even_floor (q : Q) :
  round_half_even q = Qfloor q
  \/ (round_half_even q = (Qfloor q + 1)%Z /\ inject_Z (Qfloor q) + (1 # 2) <= q).
Proof.
  unfold round_half_even.
  destruct (q - inject_Z (Qfloor q) ?= 1 # 2) eqn:E.
  - apply Qeq_alt in E. destruct (Z.even (Qfloor q)); [left; reflexivity|].
    right. split; [reflexivity | lra].
  - left. reflexivity.
  - apply Qgt_alt in E. right. split; [reflexivity | lra].
Qed.

Lemma round_half_even_le (q : Q) (m : Z) :
  q <= inject_Z m -> (round_half_even q <= m)%Z.
Proof.
  intros H. pose proof (Qfloor_le q) as Hf.
  destruct (round_half_even_floor q) as [->|[-> Hh]].
  - rewrite Zle_Qle. lra.
  - assert (inject_Z (Qfloor q) < inject_Z m) as Hlt by lra.
    rewrite <- Zlt_Qlt in Hlt. lia.
Qed.

Lemma round_half_even_ge (q : Q) (m : Z) :
  inject_Z m <= q -> (m <= round_half_even q)%Z.
Proof.
  intros H.
  assert (m <= Qfloor q)%Z.
  { rewrite <- (Qfloor_Z m). apply Qfloor_resp_le. exact H. }
  destruct (round_half_even_floor q) as [->|[-> _]]; lia.
Qed.

Lemma round_half_even_near (q : Q) :
  inject_Z (round_half_even q) - (1 # 2) <= q
  /\ q <= inject_Z (round_half_even q) + (1 # 2).
Proof.
  pose proof (Qfloor_le q) as Hf. pose proof (Qlt_floor q) as Hc.
  rewrite inject_Z_plus in Hc. change (inject_Z 1) with 1 in Hc.
  unfold round_half_even.
  destruct (q - inject_Z (Qfloor q) ?= 1 # 2) eqn:E.
  - apply Qeq_alt in E.
    destruct (Z.even (Qfloor q)); rewrite ?inject_Z_plus;
      change (inject_Z 1) with 1; split; lra.
  - apply Qlt_alt in E. split; lra.
  - apply Qgt_alt in E. rewrite inject_Z_plus.
    change (inject_Z 1) with 1. split; lra.
Qed.

(** The binary64 number of a positive [q], by its unit in the last place. *)
Lemma binary64_pos (q : Q) :
  0 < q ->
  binary64 q
  == inject_Z (round_half_even (q / 2 ^ (floor_log2 q - 52)))
     * 2 ^ (floor_log2 q - 52).
Proof.
  destruct q as [[|p|p] d]; intros Hq; try discriminate Hq.
  unfold binary64. cbn [Qnum]. rewrite Qred_correct. reflexivity.
Qed.

Lemma binary64_le (q : Q) (m : Z) :
  0 < q -> q <= inject_Z m * 2 ^ (floor_log2 q - 52) ->
  binary64 q <= inject_Z m * 2 ^ (floor_log2 q - 52).
Proof.
  intros Hq H. rewrite (binary64_pos q Hq).
  pose proof (pow2_pos (floor_log2 q - 52)) as Hu.
  apply Qmult_le_compat_r; [|lra].
  rewrite <- Zle_Qle. apply round_half_even_le.
  apply Qle_shift_div_r; assumption.
Qed.

Lemma binary64_ge (q : Q) (m : Z) :
  0 < q -> inject_Z m * 2 ^ (floor_log2 q - 52) <= q ->
  inject_Z m * 2 ^ (floor_log2 q - 52) <= binary64 q.
Proof.
  intros Hq H. rewrite (binary64_pos q Hq).
  pose proof (pow2_pos (floor_log2 q - 52)) as Hu.
  apply Qmult_le_compat_r; [|lra].
  rewrite <- Zle_Qle. apply round_half_even_ge.
  apply Qle_shift_div_l; assumption.
Qed.

(** Rounding moves a number by at most half a unit in the last place. *)
Lemma binary64_near (q : Q) :
  0 < q ->
  q - 2 ^ (floor_log2 q - 53) <= binary64 q
  /\ binary64 q <= q + 2 ^ (floor_log2 q - 53).
Proof.
  intros Hq. rewrite (binary64_pos q Hq).
  set (u := 2 ^ (floor_log2 q - 52)).
  assert (Hu : 0 < u) by apply pow2_pos.
  assert (Hh : 2 ^ (floor_log2 q - 53) == u * (1 # 2)).
  { unfold u. replace (floor_log2 q - 53)%Z with (floor_log2 q - 52 + -1)%Z by lia.
    rewrite Qpower_plus by exact two_nonzero. reflexivity. }
  rewrite Hh.
  destruct (round_half_even_near (q / u)) as [H1 H2].
  set (k := inject_Z (round_half_even (q / u))) in *.
  assert (Hq' : q == (q / u) * u).
  { field. lra. }
  assert (H1' : (k - (1 # 2)) * u <= (q / u) * u)
    by (apply Qmult_le_compat_r; lra).
  assert (H2' : (q / u) * u <= (k + (1 # 2)) * u)
    by (apply Qmult_le_compat_r; lra).
  rewrite <- Hq' in H1', H2'. split; lra.
Qed.

Lemma binary64_zero (q : Q) : q == 0 -> binary64 q = 0.
Proof.
  destruct q as [n d]. unfold Qeq. cbn. intros H.
  assert (n = 0%Z) as -> by lia. reflexivity.
Qed.

(** Below [2 ^ k] rounding stays at or below [2 ^ k]. *)
Lemma binary64_below (q : Q) (k : Z) :
  0 <= q -> q < 2 ^ k ->
  0 <= binary64 q /\ binary64 q <= 2 ^ k
  /\ q - 2 ^ (k - 54) <= binary64 q /\ binary64 q <= q + 2 ^ (k - 54).
Proof.
  intros H0 Hk.
  destruct (Qlt_le_dec 0 q) as [Hq|Hle0].
  - destruct (floor_log2_spec q Hq) as [He1 He2].
    set (e := floor_log2 q) in *.
    assert (He : (e < k)%Z).
    { apply (Qpower_lt_compat_l_inv 2); [lra | reflexivity]. }
    assert (Hp : inject_Z (2 ^ 53) * 2 ^ (e - 52) == 2 ^ (e + 1)).
    { rewrite (Zpower_Qpower 2 53) by lia.
      rewrite <- Qpower_plus by exact two_nonzero.
      replace (53 + (e - 52))%Z with (e + 1)%Z by lia. reflexivity. }
    assert (Hge : 0 <= binary64 q).
    { pose proof (binary64_ge q 0 Hq) as H. fold e in H.
      change (inject_Z 0) with 0 in H. rewrite Qmult_0_l in H.
      apply H. lra. }
    assert (Hle : binary64 q <= 2 ^ (e + 1)).
    { rewrite <- Hp. apply (binary64_le q (2 ^ 53) Hq). fold e.
      rewrite Hp. lra. }
    assert (Hm : 2 ^ (e + 1) <= 2 ^ k)
      by (apply Qpower_le_compat_l; [lia | discriminate]).
    assert (Hm2 : 2 ^ (e - 53) <= 2 ^ (k - 54))
      by (apply Qpower_le_compat_l; [lia | discriminate]).
    destruct (binary64_near q Hq) as [Hn1 Hn2]. fold e in Hn1, Hn2.
    clear He1 He2 Hp. hide_powers. repeat split; lra.
  - assert (Hz : q == 0) by lra.
    rewrite (binary64_zero q Hz), Hz.
    pose proof (pow2_pos k). pose proof (pow2_pos (k - 54)).
    hide_powers. repeat split; lra.
Qed.

Lemma binary64_3_1 : binary64 (3 - 1) == 2.
Proof. reflexivity. Qed.

(** [random.uniform(1, 3)] lies from 1 to 3, both included, within
    [3 * 2 ^ -53] of [1 + 2 * r]. *)
Lemma uniform_1_3_bounds (r : Q) :
  0 <= r -> r < 1 ->
  (1 <= uniform 1 3 r /\ uniform 1 3 r <= 3)
  /\ 1 + 2 * r - (3 # 9007199254740992) <= uniform 1 3 r
  /\ uniform 1 3 r <= 1 + 2 * r + (3 # 9007199254740992).
Proof.
  intros H0 H1. unfold uniform.
  set (x := binary64 (3 - 1) * r).
  assert (Hx : x == 2 * r) by (unfold x; rewrite binary64_3_1; reflexivity).
  destruct (binary64_below x 1) as (Ht0 & Ht2 & Ht3 & Ht4).
  { lra. }
  { rewrite Hx. change (2 ^ 1) with 2. lra. }
  set (t := binary64 x) in *.
  change (2 ^ 1) with 2 in Ht2.
  change (2 ^ (1 - 54)) with (1 # 9007199254740992) in Ht3, Ht4.
  set (y := 1 + t).
  assert (Hy : 0 < y) by (unfold y; lra).
  destruct (floor_log2_spec y Hy) as [He1 He2].
  destruct (binary64_near y Hy) as [Hn1 Hn2].
  pose proof (binary64_ge y) as Hge. pose proof (binary64_le y) as Hle.
  set (e := floor_log2 y) in *.
  assert (He : (-1 < e < 2)%Z).
  { split.
    - assert (2 ^ 0 < 2 ^ (e + 1)) as H.
      { change (2 ^ 0) with 1. unfold y in He2. lra. }
      apply (Qpower_lt_compat_l_inv 2 0 (e + 1)) in H; [lia | reflexivity].
    - apply (Qpower_lt_compat_l_inv 2); [|reflexivity].
      change (2 ^ 2) with 4. unfold y in He1. lra. }
  assert (e = 0 \/ e = 1)%Z as [E|E] by lia; rewrite E in *.
  - specialize (Hge (2 ^ 52)%Z Hy). specialize (Hle (3 * 2 ^ 52)%Z Hy).
    change (inject_Z (2 ^ 52) * 2 ^ (0 - 52))
      with (4503599627370496 # 4503599627370496) in Hge.
    change (inject_Z (3 * 2 ^ 52) * 2 ^ (0 - 52))
      with (13510798882111488 # 4503599627370496) in Hle.
    change (2 ^ (0 - 53)) with (1 # 9007199254740992) in Hn1, Hn2.
    assert (Hge' := Hge ltac:(unfold y; lra)).
    assert (Hle' := Hle ltac:(unfold y; lra)).
    unfold y in *. repeat split; lra.
  - specialize (Hge (2 ^ 52)%Z Hy). specialize (Hle (3 * 2 ^ 51)%Z Hy).
    change (inject_Z (2 ^ 52) * 2 ^ (1 - 52))
      with (4503599627370496 # 2251799813685248) in Hge.
    change (inject_Z (3 * 2 ^ 51) * 2 ^ (1 - 52))
      with (6755399441055744 # 2251799813685248) in Hle.
    change (2 ^ (1 - 53)) with (1 # 4503599627370496) in Hn1, Hn2.
    change (2 ^ 1) with 2 in He1.
    assert (Hge' := Hge ltac:(unfold y in *; lra)).
    assert (Hle' := Hle ltac:(unfold y; lra)).
    unfold y in *. repeat split; lra.
Qed.

(** The largest value of [random.random()] gives 3 itself. *)
Lemma uniform_1_3_last :
  uniform 1 3 (9007199254740991 # 9007199254740992) = 3.
Proof. reflexivity. Qed.

End Binary64.

(** ** The retry policy of [make_request] *)

Section RetryPolicy.

Import ProxyRotatingAIAgent Trace.

Variable session_request : list Event -> Request -> Result Response.
Variable random_random : list Event -> Q.

Abbreviation make_request := (make_request session_request random_random).
Abbreviation physical := (physical session_request).
Abbreviation Run := (Run session_request random_random).

(** The run behind an execution, with the trace read off the final state. *)
Lemma make_request_trace (strict : bool) (method url : string) (kw : Kwargs)
    (st : State) (new : list Event) :
  (strict = true -> cursor_valid st) ->
  events (snd (make_request method url kw st)) = (events st ++ new)%list ->
  Run strict (max_attempts_of (self st)) (issued_by method url kw (self st))
    0 (max_attempts_of (self st)) (events st) new
    (fst (make_request method url kw st)).
Proof.
  intros Hs Hev.
  destruct (make_request_run session_request random_random strict
              method url kw st Hs) as (new' & Hev' & Hrun & _).
  rewrite Hev' in Hev. apply app_inv_head in Hev. subst new'. exact Hrun.
Qed.

Lemma Run_exhausted_inv (strict : bool) (max_attempts : nat)
    (call : Request -> Prop) (a : nat) (hist new : list Event)
    (r : Result Response) :
  Run strict max_attempts call a 0 hist new r ->
  new = [] /\ r = Raise all_failed.
Proof. inversion 1. auto. Qed.

(** C1.  The attempt budget of [make_request] is [len(P) + 1] for a
    non-empty pool [P] and 1 for an empty one.  An invocation issues at most
    that many physical requests, and exactly one when the pool is empty.  It
    returns a response only as the answer to the last request it issued;
    and when the request that uses up the budget fails, no further request
    follows and the invocation ends by raising. *)
Theorem make_request_attempt_budget (method url : string) (kw : Kwargs)
    (st : State) :
  let budget := max_attempts_of (self st) in
  let out := make_request method url kw st in
  budget = match proxies (self st) with
           | [] => 1
           | _ :: _ => length (proxies (self st)) + 1
           end /\
  exists new,
    events (snd out) = (events st ++ new)%list /\
    attempts_in new <= budget /\
    (proxies (self st) = [] -> attempts_in new = 1) /\
    (forall response, fst out = Return response ->
       exists pre req,
         new = (pre ++ [ERequest req])%list /\
         physical (events st ++ pre) req = Return response) /\
    (forall pre req post e,
       new = (pre ++ ERequest req :: post)%list ->
       attempts_in pre + 1 = budget ->
       physical (events st ++ pre) req = Raise e ->
       attempts_in post = 0 /\ exists e', fst out = Raise e').
Proof.
  intros budget out. split.
  { unfold budget, max_attempts_of. destruct (proxies (self st)); reflexivity. }
  destruct (make_request_run session_request random_random false
              method url kw st) as (new & Hev & Hrun & _); [discriminate|].
  fold out in Hev, Hrun. fold budget in Hrun.
  exists new. split; [exact Hev|]. split; [|split; [|split]].
  - eapply Run_attempts_bound. exact Hrun.
  - intros EP.
    assert (Hb : budget = 1) by (unfold budget, max_attempts_of; rewrite EP; reflexivity).
    pose proof (make_request_trace true method url kw st new
                  (fun _ => or_introl EP) Hev) as Hrun'.
    fold out budget in Hrun'.
    pose proof (Run_attempts_bound _ _ _ _ _ _ _ _ _ _ Hrun) as Hle.
    destruct (Run_strict_starts _ _ _ _ _ _ _ _ _ _ eq_refl
                (max_attempts_positive (self st)) Hrun')
      as (pre & req & post & -> & Hpre & _).
    rewrite attempts_in_app in *. unfold attempts_in in *. cbn in *. lia.
  - intros response Hr. rewrite Hr in Hrun.
    destruct (Run_returns _ _ _ _ _ _ _ _ _ _ Hrun) as (pre & req & E & _ & Hp).
    exists pre, req. auto.
  - intros pre req post e -> Hk Hph.
    destruct (Run_split _ _ _ _ _ _ _ _ _ _ Hrun pre req post eq_refl)
      as (_ & m & Hm & Hv).
    assert (m = 0) by lia. subst m.
    unfold verdict in Hv. rewrite Hph in Hv.
    destruct (isinstance e ProxyError).
    + destruct Hv as (post' & -> & Hrest).
      apply Run_exhausted_inv in Hrest as [-> ->]. split; [reflexivity|eauto].
    + destruct (isinstance e RequestException).
      * replace (0 + attempts_in pre =? budget - 1)%nat with true in Hv
          by (symmetry; apply Nat.eqb_eq; lia).
        destruct Hv as [-> ->]. split; [reflexivity|eauto].
      * destruct Hv as [-> ->]. split; [reflexivity|eauto].
Qed.

Lemma Run_no_sleep_before_request (strict : bool) (max_attempts : nat)
    (call : Request -> Prop) (a n : nat) (hist new : list Event)
    (r : Result Response) :
  Run strict max_attempts call a n hist new r ->
  sleeps_in (until_request new) = [].
Proof.
  intros H. destruct (Run_starts _ _ _ _ _ _ _ _ _ _ H)
    as [-> | (pre & req & post & -> & Hpre & _)]; [reflexivity|].
  rewrite until_request_preamble by exact Hpre.
  apply sleeps_in_preamble. exact Hpre.
Qed.

Lemma Run_strict_attempts (max_attempts : nat) (call : Request -> Prop)
    (a n : nat) (hist new : list Event) (r : Result Response) :
  0 < n -> Run true max_attempts call a n hist new r -> 0 < attempts_in new.
Proof.
  intros Hn H.
  destruct (Run_strict_starts _ _ _ _ _ _ _ _ _ _ eq_refl Hn H)
    as (pre & req & post & -> & _ & _).
  rewrite attempts_in_app. unfold attempts_in. cbn. lia.
Qed.

(** C3.  Take any request of a [make_request] invocation that failed,
    together with the events [post] that followed it.  If it failed with a
    proxy error, the invocation sleeps at no point between that request and
    the next one (or the end), and, on a pool with a valid cursor, a next
    request does follow unless the budget is used up.  If it failed with any
    other request failure and was not the final attempt, exactly one sleep
    lies between it and the next request, and a next request follows.  The
    length of the sleep is [random.uniform(1, 3)]: for a draw [r] of
    [random.random()] in [0, 1) it is the binary64 number of [1 + 2 * r],
    within [3 * 2 ^ -53] of it, and lies from 1 to 3 seconds, both
    included. *)
Theorem make_request_backoff (method url : string) (kw : Kwargs) (st : State)
    (pre : list Event) (req : Request) (post : list Event) (e : exn) :
  let budget := max_attempts_of (self st) in
  let out := make_request method url kw st in
  events (snd out) = (events st ++ pre ++ ERequest req :: post)%list ->
  physical (events st ++ pre) req = Raise e ->
  (isinstance e ProxyError = true ->
     sleeps_in (until_request post) = [] /\
     (cursor_valid st -> attempts_in pre + 1 < budget ->
      0 < attempts_in post)) /\
  (isinstance e ProxyError = false ->
   isinstance e RequestException = true ->
   attempts_in pre <> budget - 1 ->
     let draw :=
       random_random (events st ++ pre ++ [ERequest req; retrying e]) in
     sleeps_in (until_request post) = [uniform 1 3 draw] /\
     ((0 <= draw)%Q -> (draw < 1)%Q ->
      ((1 <= uniform 1 3 draw)%Q /\ (uniform 1 3 draw <= 3)%Q) /\
      (1 + 2 * draw - (3 # 9007199254740992) <= uniform 1 3 draw)%Q /\
      (uniform 1 3 draw <= 1 + 2 * draw + (3 # 9007199254740992))%Q) /\
     (cursor_valid st -> 0 < attempts_in post)).
Proof.
  intros budget out Hev Hph.
  assert (Hsplit : forall strict, (strict = true -> cursor_valid st) ->
            exists m, m + attempts_in pre + 1 = budget /\
              verdict session_request random_random strict budget
                (issued_by method url kw (self st))
                0 (events st) pre req post (fst out) m).
  { intros strict Hs.
    pose proof (make_request_trace strict method url kw st _ Hs Hev) as Hrun.
    destruct (Run_split _ _ _ _ _ _ _ _ _ _ Hrun pre req post eq_refl)
      as (_ & m & Hm & Hv).
    exists m. auto. }
  split.
  - intros HPx. split.
    + destruct (Hsplit false) as (m & Hm & Hv); [discriminate|].
      unfold verdict in Hv. rewrite Hph, HPx in Hv.
      destruct Hv as (post' & -> & Hrest).
      change (sleeps_in (until_request (proxy_failed :: post')))
        with (sleeps_in (until_request post')).
      eapply Run_no_sleep_before_request. exact Hrest.
    + intros Hcv Hlt.
      destruct (Hsplit true (fun _ => Hcv)) as (m & Hm & Hv).
      unfold verdict in Hv. rewrite Hph, HPx in Hv.
      destruct Hv as (post' & -> & Hrest).
      apply Run_strict_attempts in Hrest; [|lia].
      unfold attempts_in in *. cbn. exact Hrest.
  - intros HPx HRq Hnl draw.
    assert (Hneq : (0 + attempts_in pre =? budget - 1)%nat = false)
      by (apply Nat.eqb_neq; lia).
    split; [|split].
    + destruct (Hsplit false) as (m & Hm & Hv); [discriminate|].
      unfold verdict in Hv. rewrite Hph, HPx, HRq, Hneq in Hv.
      destruct Hv as (post' & -> & Hrest).
      change (sleeps_in (until_request (retrying e :: ESleep ?d :: post')))
        with (d :: sleeps_in (until_request post')).
      rewrite (Run_no_sleep_before_request _ _ _ _ _ _ _ _ Hrest).
      subst draw. rewrite <- !app_assoc. reflexivity.
    + apply uniform_1_3_bounds.
    + intros Hcv.
      destruct (Hsplit true (fun _ => Hcv)) as (m & Hm & Hv).
      unfold verdict in Hv. rewrite Hph, HPx, HRq, Hneq in Hv.
      destruct Hv as (post' & -> & Hrest).
      apply Run_strict_attempts in Hrest; [|lia].
      unfold attempts_in in *. cbn. exact Hrest.
Qed.

(** C4.  Take the final attempt of a [make_request] invocation, the one
    that uses up the budget, and let it fail with a request failure [e].  If
    [e] is not a proxy error, [make_request] raises [e] itself and does
    nothing more.  If [e] is a proxy error, the loop runs to completion
    without a success and [make_request] raises the generic
    [RequestException("All proxy attempts failed")]. *)
Theorem make_request_final_failure (method url : string) (kw : Kwargs)
    (st : State) (pre : list Event) (req : Request) (post : list Event)
    (e : exn) :
  let budget := max_attempts_of (self st) in
  let out := make_request method url kw st in
  events (snd out) = (events st ++ pre ++ ERequest req :: post)%list ->
  attempts_in pre + 1 = budget ->
  physical (events st ++ pre) req = Raise e ->
  isinstance e RequestException = true ->
  (isinstance e ProxyError = false -> fst out = Raise e /\ post = []) /\
  (isinstance e ProxyError = true ->
     fst out = Raise (new_exn RequestException "All proxy attempts failed") /\
     post = [EPrint "Proxy failed, trying next..."]).
Proof.
  intros budget out Hev Hk Hph HRq.
  pose proof (make_request_trace false method url kw st _
                ltac:(discriminate) Hev) as Hrun.
  destruct (Run_split _ _ _ _ _ _ _ _ _ _ Hrun pre req post eq_refl)
    as (_ & m & Hm & Hv).
  fold budget in Hm, Hv. fold out in Hv.
  assert (m = 0) by lia. subst m.
  unfold verdict in Hv. rewrite Hph, HRq in Hv.
  replace (0 + attempts_in pre =? budget - 1)%nat with true in Hv
    by (symmetry; apply Nat.eqb_eq; lia).
  split; intros HPx; rewrite HPx in Hv.
  - destruct Hv as [-> ->]. auto.
  - destruct Hv as (post' & -> & Hrest).
    apply Run_exhausted_inv in Hrest as [-> ->]. auto.
Qed.

(** When every attempt ends in a proxy failure, the whole budget is spent
    and the generic failure is raised. *)
Lemma Run_all_proxies_failed (max_attempts : nat) (call : Request -> Prop)
    (a n : nat) (hist new : list Event) (r : Result Response) :
  (forall h q, exists e, physical h q = Raise e /\
                         isinstance e ProxyError = true) ->
  Run true max_attempts call a n hist new r ->
  r = Raise all_failed /\ attempts_in new = n.
Proof.
  intros Hdead H.
  induction H as
    [ a hist
    | a n hist e Hstrict Hcls
    | a n hist pre0 req0 response Hpre Hcall Hph
    | a n hist pre0 req0 e new r Hpre Hcall Hph HPx Hrun IH
    | a n hist pre0 req0 e new r Hpre Hcall Hph HPx HRq Hnl delay Hrun IH
    | a n hist pre0 req0 e Hpre Hcall Hph HPx HRq Hl
    | a n hist pre0 req0 e Hpre Hcall Hph HRq ];
    try (destruct (Hdead (hist ++ pre0)%list req0) as (e' & He' & HPx');
         rewrite He' in Hph).
  - auto.
  - discriminate.
  - discriminate.
  - destruct IH as [-> IH]. split; [reflexivity|].
    rewrite attempts_in_app, attempts_in_preamble by exact Hpre.
    unfold attempts_in in *. cbn. lia.
  - injection Hph as ->. congruence.
  - injection Hph as ->. congruence.
  - injection Hph as ->.
    apply proxy_error_is_request_exception in HPx'. congruence.
Qed.

Lemma make_request_all_proxies_failed (method url : string) (kw : Kwargs)
    (st : State) :
  cursor_valid st ->
  (forall h q, exists e, physical h q = Raise e /\
                         isinstance e ProxyError = true) ->
  fst (make_request method url kw st) = Raise all_failed /\
  exists new,
    events (snd (make_request method url kw st)) = (events st ++ new)%list /\
    attempts_in new = max_attempts_of (self st).
Proof.
  intros Hcv Hdead.
  destruct (make_request_run session_request random_random true
              method url kw st (fun _ => Hcv)) as (new & Hev & Hrun & _).
  destruct (Run_all_proxies_failed _ _ _ _ _ _ _ Hdead Hrun) as [Hr Hn].
  split; [exact Hr|]. exists new. auto.
Qed.

End RetryPolicy.

Section RetryPolicyWitnesses.

Import ProxyRotatingAIAgent Trace Samples.

Lemma make_request_backoff_witness :
  (sleeps_in (until_request (drop 2 flaky_trace)) = [] /\
   0 < attempts_in (drop 2 flaky_trace)) /\
  sleeps_in (until_request (drop 5 flaky_trace)) = [uniform 1 3 (1 # 2)].
Proof.
  split.
  - pose proof (make_request_backoff flaky_transport half "GET" status_url
                  status_kwargs sample_state
                  (take 1 flaky_trace) (status_request_via "http://p1:8080")
                  (drop 2 flaky_trace)
                  (new_exn ProxyError "Cannot connect to proxy.")) as H.
    cbv zeta in H.
    destruct H as [H _]; try (vm_compute; reflexivity).
    destruct H as [Hquiet Hnext]; [reflexivity|].
    split; [exact Hquiet|]. apply Hnext.
    + right. vm_compute. lia.
    + vm_compute. lia.
  - refine (proj1 (proj2
              (make_request_backoff flaky_transport half "GET" status_url
                 status_kwargs sample_state
                 (take 4 flaky_trace) (status_request_via "http://p2:8080")
                 (drop 5 flaky_trace)
                 (new_exn ReadTimeout "Read timed out.") _ _) _ _ _));
      try (vm_compute; reflexivity).
    vm_compute. lia.
Defined.

(** C3, as stated, fails: after a read timeout on a non-final attempt the
    back-off of [random.uniform(1, 3)] lasts 3 seconds when
    [random.random()] gives its largest number, so the delays are not all
    below 3 seconds. *)
Lemma backoff_delay_reaches_3 :
  ~ (forall d, d ∈ sleeps_in slow_trace -> (1 <= d)%Q /\ (d < 3)%Q).
Proof.
  intros H.
  assert (Hin : 3%Q ∈ sleeps_in slow_trace).
  { apply list_elem_of_lookup_2 with (i := 0). vm_compute. reflexivity. }
  destruct (H _ Hin) as [_ Hlt]. discriminate Hlt.
Qed.

Lemma make_request_final_failure_witness :
  fst (make_request flaky_transport half "GET" status_url status_kwargs
         single_proxy_state)
    = Raise (new_exn ReadTimeout "Read timed out.") /\
  fst (make_request dead_proxies half "GET" status_url status_kwargs
         single_proxy_state)
    = Raise (new_exn RequestException "All proxy attempts failed").
Proof.
  split.
  - refine (proj1 (proj1
              (make_request_final_failure flaky_transport half "GET"
                 status_url status_kwargs single_proxy_state
                 [EPrint "Using proxy: http://p1:8080";
                  ERequest (status_request_via "http://p1:8080");
                  EPrint "Proxy failed, trying next...";
                  EPrint "Using proxy: http://p1:8080"]
                 (status_request_via "http://p1:8080") []
                 (new_exn ReadTimeout "Read timed out.") _ _ _ _) _));
      vm_compute; reflexivity.
  - refine (proj1 (proj2
              (make_request_final_failure dead_proxies half "GET"
                 status_url status_kwargs single_proxy_state
                 [EPrint "Using proxy: http://p1:8080";
                  ERequest (status_request_via "http://p1:8080");
                  EPrint "Proxy failed, trying next...";
                  EPrint "Using proxy: http://p1:8080"]
                 (status_request_via "http://p1:8080")
                 [EPrint "Proxy failed, trying next..."]
                 (new_exn ProxyError "Cannot connect to proxy.") _ _ _ _) _));
      vm_compute; reflexivity.
Defined.

End RetryPolicyWitnesses.

(** ** The uniform failure shape of the facades *)

Section Facades.

Variable session_request : list Event -> Request -> Result Response.
Variable random_random : list Event -> Q.
Variable time_time : list Event -> Z.

Abbreviation make_request :=
  (ProxyRotatingAIAgent.make_request session_request random_random).
Abbreviation rotating_send_message :=
  (ProxyRotatingAIAgent.send_message session_request random_random time_time).
Abbreviation rotating_get_agent_status :=
  (ProxyRotatingAIAgent.get_agent_status session_request random_random).

Lemma rotating_try_except_caught {A} (body : ProxyRotatingAIAgent.M A)
    (cls : exc_class) (handler : exn -> A) (st : ProxyRotatingAIAgent.State)
    (e : exn) :
  fst (ProxyRotatingAIAgent.try_except body cls
         (fun e => ProxyRotatingAIAgent.ret (handler e)) st) = Raise e ->
  isinstance e cls = false.
Proof.
  unfold ProxyRotatingAIAgent.try_except, ProxyRotatingAIAgent.ret.
  destruct (body st) as [[v|e'] st']; [discriminate|].
  destruct (isinstance e' cls) eqn:E; cbn; intros H;
    [discriminate | injection H as <-; exact E].
Qed.

Lemma client_try_except_caught {A} (body : AIAgentClient.M A)
    (cls : exc_class) (handler : exn -> A) (hist : list Event) (e : exn) :
  fst (AIAgentClient.try_except body cls (fun e => Return (handler e)) hist)
    = Raise e ->
  isinstance e cls = false.
Proof.
  unfold AIAgentClient.try_except.
  destruct (body hist) as [[v|e'] hist']; [discriminate|].
  destruct (isinstance e' cls) eqn:E; cbn; intros H;
    [discriminate | injection H as <-; exact E].
Qed.

(** C5.  [send_message] and [get_agent_status], of the proxy-rotating agent
    and of the plain client alike, never let a [RequestException] out: when
    the dispatch layer ([make_request], respectively the session call with
    [raise_for_status]) raises a request failure [e], the operation returns
    the mapping [{'error': prefix + str(e)}], whose only key is ['error'] and
    whose value is a string. *)
Theorem facades_return_error_records (message : string) (context : pyval)
    (st : ProxyRotatingAIAgent.State) (c : AIAgentClient.Client)
    (hist : list Event) :
  let failed prefix (e : exn) : Result pyval :=
    Return (PDict {[ "error" := PStr (prefix ++ exc_str e) ]}) in
  let url path := ProxyRotatingAIAgent.base_url (ProxyRotatingAIAgent.self st) ++ path in
  let payload :=
    ProxyRotatingAIAgent.chat_payload message context
      (time_time (ProxyRotatingAIAgent.events st)) in
  (* nothing that escapes is a request failure *)
  (forall e, fst (rotating_send_message message context st) = Raise e ->
             isinstance e RequestException = false) /\
  (forall e, fst (rotating_get_agent_status st) = Raise e ->
             isinstance e RequestException = false) /\
  (forall e, fst (AIAgentClient.send_message session_request c message
                    context hist) = Raise e ->
             isinstance e RequestException = false) /\
  (forall e, fst (AIAgentClient.get_agent_status session_request c hist)
             = Raise e ->
             isinstance e RequestException = false) /\
  (* a request failure of the dispatch layer comes back as an error record *)
  (forall e, isinstance e RequestException = true ->
     fst (make_request "POST" (url "/api/chat")
            (ProxyRotatingAIAgent.kwargs (Some payload) 30 false) st) = Raise e ->
     fst (rotating_send_message message context st)
     = failed "Request failed: " e) /\
  (forall e, isinstance e RequestException = true ->
     fst (make_request "GET" (url "/api/status")
            ProxyRotatingAIAgent.status_kwargs st) = Raise e ->
     fst (rotating_get_agent_status st) = failed "Status check failed: " e) /\
  (forall e, isinstance e RequestException = true ->
     physical session_request hist
       (AIAgentClient.chat_request c message context) = Raise e ->
     fst (AIAgentClient.send_message session_request c message context hist)
     = failed "Request failed: " e) /\
  (forall e, isinstance e RequestException = true ->
     physical session_request hist (AIAgentClient.status_request c) = Raise e ->
     fst (AIAgentClient.get_agent_status session_request c hist)
     = failed "Status check failed: " e).
Proof.
  intros failed url payload.
  repeat match goal with |- _ /\ _ => split end.
  - intros e.
    apply (rotating_try_except_caught _ _
             (ProxyRotatingAIAgent.error_record "Request failed: ")).
  - intros e.
    apply (rotating_try_except_caught _ _
             (ProxyRotatingAIAgent.error_record "Status check failed: ")).
  - intros e.
    apply (client_try_except_caught _ _
             (AIAgentClient.error_record "Request failed: ")).
  - intros e.
    apply (client_try_except_caught _ _
             (AIAgentClient.error_record "Status check failed: ")).
  - intros e HRq Hraise.
    unfold ProxyRotatingAIAgent.send_message, ProxyRotatingAIAgent.bind,
      ProxyRotatingAIAgent.now, ProxyRotatingAIAgent.try_except,
      ProxyRotatingAIAgent.get_self.
    fold payload. fold (url "/api/chat").
    destruct (make_request "POST" (url "/api/chat")
                (ProxyRotatingAIAgent.kwargs (Some payload) 30 false) st)
      as [[response|e'] st']; cbn in Hraise; [discriminate|].
    injection Hraise as ->. rewrite HRq. reflexivity.
  - intros e HRq Hraise.
    unfold ProxyRotatingAIAgent.get_agent_status, ProxyRotatingAIAgent.bind,
      ProxyRotatingAIAgent.try_except, ProxyRotatingAIAgent.get_self.
    fold (url "/api/status").
    destruct (make_request "GET" (url "/api/status")
                ProxyRotatingAIAgent.status_kwargs st)
      as [[response|e'] st']; cbn in Hraise; [discriminate|].
    injection Hraise as ->. rewrite HRq. reflexivity.
  - intros e HRq Hraise.
    unfold AIAgentClient.send_message, AIAgentClient.try_except,
      AIAgentClient.fetch.
    rewrite Hraise, HRq. reflexivity.
  - intros e HRq Hraise.
    unfold AIAgentClient.get_agent_status, AIAgentClient.try_except,
      AIAgentClient.fetch.
    rewrite Hraise, HRq. reflexivity.
Qed.

End Facades.

(** ** The streaming decoder *)

Section Streaming.

Import ProxyRotatingAIAgent Trace.

Variable session_request : list Event -> Request -> Result Response.
Variable random_random : list Event -> Q.
Variable json_decoder : string -> Result pyval.

Abbreviation make_request := (make_request session_request random_random).
Abbreviation iter_body := (iter_body json_decoder).
Abbreviation stream_chat :=
  (stream_chat session_request random_random json_decoder).

(** A transport failure after the lines changes the end of the loop and
    nothing else. *)
Lemma iter_body_failure (e : exn) (body : list (list byte)) :
  forall ys, iter_body body None = (ys, Return tt) ->
             iter_body body (Some e) = (ys, Raise e).
Proof.
  induction body as [|line rest IH]; intros ys H.
  - cbn in *. injection H as <-. reflexivity.
  - cbn [ProxyRotatingAIAgent.iter_body] in *. destruct line as [|b bs].
    + apply IH. exact H.
    + unfold decode_utf8 in *.
      destruct (utf8_valid (b :: bs)); [|discriminate].
      destruct (json_loads json_decoder _) as [chunk|e2].
      * destruct (iter_body rest None) as [ys' r'] eqn:E.
        injection H as <- ->. rewrite (IH ys' eq_refl). reflexivity.
      * destruct (isinstance e2 JSONDecodeError); [apply IH; exact H|].
        discriminate.
Qed.

(** On a body of UTF-8 lines on which the decoder raises nothing but
    [json.JSONDecodeError], the loop yields the decoded records of the
    lines, in order, and stops only at the end of the body. *)
Lemma iter_body_decoded_records (body : list (list byte))
    (failure : option exn) :
  (exists e, json_decoder "" = Raise e) ->
  Forall (fun line => utf8_valid line = true) body ->
  Forall (fun line =>
            forall e, json_decoder (string_of_list_byte line) = Raise e ->
                      isinstance e JSONDecodeError = true) body ->
  iter_body body failure
  = (decoded_records json_decoder body,
     match failure with Some e => Raise e | None => Return tt end).
Proof.
  intros [e0 Hempty] Hvalid Hjson.
  induction Hvalid as [|line rest Hline _ IH].
  - cbn. destruct failure; reflexivity.
  - apply Forall_cons in Hjson as [Hj Hjson]. specialize (IH Hjson).
    cbn [ProxyRotatingAIAgent.iter_body]. unfold decoded_records in *.
    cbn [omap list_omap]. destruct line as [|b bs].
    + change (string_of_list_byte []) with "". rewrite Hempty. exact IH.
    + unfold decode_utf8. rewrite Hline. unfold json_loads.
      destruct (json_decoder (string_of_list_byte (b :: bs))) as [v|e1].
      * rewrite IH. reflexivity.
      * rewrite (Hj e1 eq_refl). cbn. exact IH.
Qed.

(** C7.  Let [e] be a request failure.  If establishing the stream fails
    with [e], [stream_chat] yields the single record
    [{'error': 'Stream failed: ' + str(e)}] and stops.  If the stream is
    established and [iter_lines] raises [e] after a body whose lines yield
    the records [ys], [stream_chat] yields [ys], then that one error record,
    and stops.  In both cases the agent is left as [make_request] left it:
    nothing is requested again. *)
Theorem stream_chat_transport_failure (message : string) (context : pyval)
    (st : State) (e : exn) :
  let established :=
    make_request "POST" (base_url (self st) ++ "/api/stream")
      (kwargs (Some (stream_payload message context)) 60 true) st in
  let failed := PDict {[ "error" := PStr ("Stream failed: " ++ exc_str e) ]} in
  isinstance e RequestException = true ->
  (fst established = Raise e ->
     stream_chat message context st
     = (([failed], Return tt), snd established)) /\
  (forall response ys,
     fst established = Return response ->
     broken response = Some e ->
     iter_body (lines response) None = (ys, Return tt) ->
     stream_chat message context st
     = (((ys ++ [failed])%list, Return tt), snd established)).
Proof.
  intros established failed HRq. unfold ProxyRotatingAIAgent.stream_chat.
  fold established. split.
  - intros H. destruct established as [[response|e'] st1]; cbn in H;
      [discriminate|]. injection H as ->. rewrite HRq. reflexivity.
  - intros response ys H Hb Hbody.
    destruct established as [[response'|e'] st1]; cbn in H; [|discriminate].
    injection H as ->. rewrite Hb, (iter_body_failure e _ ys Hbody), HRq.
    reflexivity.
Qed.

End Streaming.

Section StreamingExamples.

Import ProxyRotatingAIAgent Trace Samples.

Lemma stream_chat_transport_failure_witness :
  fst (stream_chat unreachable half sample_decoder "hello" PNone direct_state)
  = ([PDict {[ "error" := PStr "Stream failed: Name or service not known" ]}],
     Return tt) /\
  fst (stream_chat (serves (streaming [line_a1] (Some connection_lost))) half
         sample_decoder "hello" PNone direct_state)
  = ([PDict {[ "a" := PInt 1 ]};
      PDict {[ "error" := PStr "Stream failed: Connection broken: IncompleteRead" ]}],
     Return tt).
Proof.
  split.
  - rewrite (proj1 (stream_chat_transport_failure unreachable half
                      sample_decoder "hello" PNone direct_state
                      (new_exn requests_ConnectionError
                         "Name or service not known") eq_refl) eq_refl).
    reflexivity.
  - rewrite (proj2 (stream_chat_transport_failure
                      (serves (streaming [line_a1] (Some connection_lost)))
                      half sample_decoder "hello" PNone direct_state
                      connection_lost eq_refl)
               (streaming [line_a1] (Some connection_lost))
               [PDict {[ "a" := PInt 1 ]}] eq_refl eq_refl eq_refl).
    reflexivity.
Defined.

(** The specification's malformed-line example: the line that is not JSON
    is skipped and both records arrive. *)
Example stream_chat_skips_malformed_json :
  fst (stream_chat (serves (streaming [line_a1; line_not_json; line_a2] None))
         half sample_decoder "hello" PNone direct_state)
  = ([PDict {[ "a" := PInt 1 ]}; PDict {[ "a" := PInt 2 ]}], Return tt).
Proof. vm_compute. reflexivity. Qed.

(** C6.  A body line that is not valid UTF-8 is not dropped: decoding it
    raises [UnicodeDecodeError], which neither [except] clause of
    [stream_chat] catches.  The generator yields the records before that
    line and then lets the exception out, so the records of the lines after
    it are never yielded.  This is so for every decoder that raises nothing
    but [json.JSONDecodeError] on the first line, as [json.loads] does on a
    line this short. *)
Theorem stream_chat_aborts_on_undecodable_line :
  let body := [line_a1; line_not_utf8; line_a2] in
  let undecodable :=
    new_exn UnicodeDecodeError
      "'utf-8' codec can't decode byte 0xff in position 0: invalid start byte"
  in
  (forall (random_random : list Event -> Q)
          (json_decoder : string -> Result pyval),
     (forall e, json_decoder (string_of_list_byte line_a1) = Raise e ->
                isinstance e JSONDecodeError = true) ->
     fst (stream_chat (serves (streaming body None)) random_random
            json_decoder "hello" PNone direct_state)
     = (decoded_records json_decoder [line_a1], Raise undecodable)) /\
  decoded_records sample_decoder body
  = [PDict {[ "a" := PInt 1 ]}; PDict {[ "a" := PInt 2 ]}] /\
  fst (stream_chat (serves (streaming body None)) half sample_decoder
         "hello" PNone direct_state)
  = ([PDict {[ "a" := PInt 1 ]}], Raise undecodable).
Proof.
  intros body undecodable. split; [|split].
  - intros random_random json_decoder Hjson.
    unfold stream_chat, make_request, body. cbn -[isinstance].
    unfold json_loads, decoded_records. cbn -[isinstance].
    let text := eval vm_compute in (string_of_list_byte line_a1) in
    change (string_of_list_byte line_a1) with text in Hjson.
    destruct (json_decoder _) as [record|e]; [reflexivity|].
    rewrite (Hjson e eq_refl). reflexivity.
  - vm_compute. reflexivity.
  - vm_compute. reflexivity.
Qed.

End StreamingExamples.

(** ** The status operation *)

Section StatusOperation.

Variable session_request : list Event -> Request -> Result Response.
Variable random_random : list Event -> Q.

(** The proxy-rotating agent asks for the status with [GET], at
    [/api/status], with a timeout of 15 seconds, on every attempt. *)
Lemma rotating_get_agent_status_requests (st : ProxyRotatingAIAgent.State)
    (new : list Event) (req : Request) :
  ProxyRotatingAIAgent.events
    (snd (ProxyRotatingAIAgent.get_agent_status session_request
            random_random st))
  = (ProxyRotatingAIAgent.events st ++ new)%list ->
  ERequest req ∈ new ->
  req_method req = "GET" /\
  req_url req
  = ProxyRotatingAIAgent.base_url (ProxyRotatingAIAgent.self st) ++ "/api/status" /\
  req_timeout req = Some 15%Z.
Proof.
  intros Hev Hin.
  assert (Hsame :
    snd (ProxyRotatingAIAgent.get_agent_status session_request random_random st)
    = snd (ProxyRotatingAIAgent.make_request session_request random_random
             "GET"
             (ProxyRotatingAIAgent.base_url (ProxyRotatingAIAgent.self st)
                ++ "/api/status")
             ProxyRotatingAIAgent.status_kwargs st)).
  { unfold ProxyRotatingAIAgent.get_agent_status, ProxyRotatingAIAgent.bind,
      ProxyRotatingAIAgent.try_except, ProxyRotatingAIAgent.get_self,
      ProxyRotatingAIAgent.lift, ProxyRotatingAIAgent.ret.
    destruct (ProxyRotatingAIAgent.make_request _ _ _ _ _ st)
      as [[response|e] st1]; cbn -[isinstance].
    - destruct (json response) as [v|e]; [reflexivity|].
      destruct (isinstance e RequestException); reflexivity.
    - destruct (isinstance e RequestException); reflexivity. }
  rewrite Hsame in Hev.
  pose proof (make_request_trace session_request random_random false
                _ _ _ st new ltac:(discriminate) Hev) as Hrun.
  destruct (Run_requests _ _ _ _ _ _ _ _ _ _ Hrun req Hin)
    as (Hm & Hu & _ & _ & Ht & _).
  auto.
Qed.

(** C8.  The plain client's [get_agent_status] issues one [GET] to
    [/api/status] and passes no timeout with it. *)
Theorem client_get_agent_status_request (c : AIAgentClient.Client)
    (hist : list Event) :
  exists req,
    snd (AIAgentClient.get_agent_status session_request c hist)
    = (hist ++ [ERequest req])%list /\
    req_method req = "GET" /\
    req_url req = AIAgentClient.base_url c ++ "/api/status" /\
    req_timeout req = None.
Proof.
  exists (AIAgentClient.status_request c).
  split; [|repeat split].
  unfold AIAgentClient.get_agent_status, AIAgentClient.try_except,
    AIAgentClient.fetch.
  destruct (physical session_request hist (AIAgentClient.status_request c))
    as [response|e].
  - destruct (json response) as [v|e]; [reflexivity|].
    destruct (isinstance e RequestException); reflexivity.
  - destruct (isinstance e RequestException); reflexivity.
Qed.

End StatusOperation.

(** ** The session headers *)

Section SessionHeaders.

Import ProxyRotatingAIAgent Trace.

Variable session_request : list Event -> Request -> Result Response.
Variable random_random : list Event -> Q.

Lemma init_headers_with_credential (environ : gmap string string)
    (default_headers : gmap string (string * string)) (base : string)
    (key : option string) (pool : option (list string)) (token : string) :
  api_key (__init__ environ default_headers base key pool) = Some token ->
  token <> "" ->
  let h := session_headers (__init__ environ default_headers base key pool) in
  header_get "Authorization" h = Some ("Bearer " ++ token) /\
  header_get "Content-Type" h = Some "application/json" /\
  header_get "Accept" h = Some "application/json" /\
  header_get "User-Agent" h = Some user_agent.
Proof.
  unfold __init__. cbn [api_key session_headers]. intros -> Hne.
  assert (Ht : truthy_str (Some token) = true).
  { cbn. destruct (String.eqb_spec token ""); [contradiction | reflexivity]. }
  rewrite Ht. unfold header_get, headers_update, header_set. cbn.
  repeat split.
  - repeat (rewrite lookup_insert_ne by discriminate).
    rewrite lookup_insert_eq. reflexivity.
  - repeat (rewrite lookup_insert_ne by discriminate).
    rewrite lookup_insert_eq. reflexivity.
  - repeat (rewrite lookup_insert_ne by discriminate).
    rewrite lookup_insert_eq. reflexivity.
  - rewrite lookup_insert_eq. reflexivity.
Qed.

(** Without a credential [__init__] leaves the session's headers alone. *)
Lemma init_headers_without_credential (environ : gmap string string)
    (default_headers : gmap string (string * string)) (base : string)
    (key : option string) (pool : option (list string)) :
  truthy_str (api_key (__init__ environ default_headers base key pool)) = false ->
  session_headers (__init__ environ default_headers base key pool)
  = default_headers.
Proof.
  unfold __init__. cbn [api_key session_headers]. intros H.
  destruct (or_str key (environ !! "AI_AGENT_API_KEY")); [|reflexivity].
  rewrite H. reflexivity.
Qed.

(** C9, as the code has it.  Every request that [make_request] issues
    carries the session's headers as [__init__] left them.  When a credential
    is configured these include [Authorization: Bearer <token>],
    [Content-Type: application/json], [Accept: application/json] and the
    fixed browser-like [User-Agent]; when none is configured they are the
    session's default headers, with or without proxies. *)
Theorem credential_headers_on_every_request (environ : gmap string string)
    (default_headers : gmap string (string * string)) (base : string)
    (key : option string) (pool : option (list string))
    (method url : string) (kw : Kwargs) (st : State) (new : list Event)
    (req : Request) :
  let a := __init__ environ default_headers base key pool in
  session_headers (self st) = session_headers a ->
  events (snd (make_request session_request random_random method url kw st))
  = (events st ++ new)%list ->
  ERequest req ∈ new ->
  (forall token, api_key a = Some token -> token <> "" ->
     header_get "Authorization" (req_headers req) = Some ("Bearer " ++ token) /\
     header_get "Content-Type" (req_headers req) = Some "application/json" /\
     header_get "Accept" (req_headers req) = Some "application/json" /\
     header_get "User-Agent" (req_headers req) = Some user_agent) /\
  (truthy_str (api_key a) = false -> req_headers req = default_headers).
Proof.
  intros a Hh Hev Hin.
  pose proof (make_request_trace session_request random_random false
                method url kw st new ltac:(discriminate) Hev) as Hrun.
  destruct (Run_requests _ _ _ _ _ _ _ _ _ _ Hrun req Hin)
    as (_ & _ & Hreq & _).
  rewrite Hreq, Hh. split.
  - intros token Hkey Hne.
    exact (init_headers_with_credential environ default_headers base key pool
             token Hkey Hne).
  - apply init_headers_without_credential.
Qed.

End SessionHeaders.

Section SessionHeadersExamples.

Import ProxyRotatingAIAgent Trace Samples.

Lemma credential_headers_on_every_request_witness :
  header_get "Authorization" (req_headers authorised_request)
  = Some "Bearer s3cret" /\
  header_get "Content-Type" (req_headers authorised_request)
  = Some "application/json" /\
  header_get "Accept" (req_headers authorised_request)
  = Some "application/json" /\
  header_get "User-Agent" (req_headers authorised_request) = Some user_agent.
Proof.
  apply (proj1 (credential_headers_on_every_request dead_proxies half ∅
                  requests_default_headers "http://agent.test/" (Some "s3cret")
                  (Some ["http://p1:8080"]) "GET" status_url status_kwargs
                  authorised_state authorised_trace authorised_request
                  eq_refl eq_refl
                  ltac:(apply list_elem_of_lookup_2 with (i := 1);
                        vm_compute; reflexivity))).
  - vm_compute. reflexivity.
  - discriminate.
Defined.

(** C9, as stated, fails: an agent that rotates proxies but has no
    credential sends its requests with the session's default [User-Agent],
    not the browser-like one. *)
Lemma user_agent_needs_credential :
  ~ (forall req, ERequest req ∈ anonymous_trace ->
       req_proxies req <> None ->
       header_get "User-Agent" (req_headers req) = Some user_agent).
Proof.
  intros H.
  assert (Hin : ERequest anonymous_request ∈ anonymous_trace).
  { apply list_elem_of_lookup_2 with (i := 1). vm_compute. reflexivity. }
  specialize (H _ Hin ltac:(discriminate)).
  vm_compute in H. discriminate H.
Qed.

End SessionHeadersExamples.

(** ** [SimpleAIAgent._make_request] *)

Section SimpleRequests.

Import SimpleAIAgent.

Variable urlopen_read : UrlRequest -> Z -> Result (list byte).
Variable json_dumps : pyval -> string.
Variable json_decoder : string -> Result pyval.

Abbreviation request_body :=
  (request_body urlopen_read json_dumps json_decoder).
Abbreviation _make_request :=
  (_make_request urlopen_read json_dumps json_decoder).

(** Whatever the [try] block returns is returned; and an [Exception] it
    raises is turned into an error record, provided that, when it is an
    [HTTPError], its body is UTF-8. *)
Lemma simple_make_request_returns (a : Agent) (url : string) (data : pyval)
    (method : string) :
  match request_body a url data method with
  | Return v => _make_request a url data method = Return v
  | Raise e =>
      isinstance e Exception = true ->
      (isinstance e urllib_HTTPError = true ->
       utf8_valid (exc_body e) = true) ->
      exists msg,
        _make_request a url data method
        = Return (PDict {[ "error" := PStr msg ]})
  end.
Proof.
  unfold SimpleAIAgent._make_request.
  destruct (request_body a url data method) as [v|e]; [reflexivity|].
  intros HEx Hbody.
  destruct (isinstance e urllib_HTTPError).
  - unfold decode_utf8. rewrite (Hbody eq_refl). eauto.
  - destruct (isinstance e URLError); [eauto|].
    destruct (isinstance e JSONDecodeError); [eauto|].
    rewrite HEx. eauto.
Qed.

End SimpleRequests.

Section SimpleRequestsExamples.

Import SimpleAIAgent Samples.

(** C10.  When the server answers with an HTTP error whose body is not
    UTF-8, [_make_request] raises: the [UnicodeDecodeError] of
    [e.read().decode('utf-8')] arises inside the [except HTTPError] clause,
    where the later clauses do not apply, and it reaches the caller of
    [_make_request], [get_status], [send_message] and [configure]. *)
Theorem simple_make_request_raises_in_handler
    (json_dumps : pyval -> string) (json_decoder : string -> Result pyval)
    (a : Agent) (url : string) (data : pyval) (method : string) :
  let urlopen_read (req : UrlRequest) (timeout : Z) : Result (list byte) :=
    Raise garbled_server_error in
  let escaped : Result pyval :=
    Raise (new_exn UnicodeDecodeError
             "'utf-8' codec can't decode byte 0xff in position 0: invalid start byte")
  in
  _make_request urlopen_read json_dumps json_decoder a url data method
  = escaped /\
  get_status urlopen_read json_dumps json_decoder a = escaped /\
  send_message urlopen_read json_dumps json_decoder a "hello" PNone
  = escaped /\
  configure urlopen_read json_dumps json_decoder a data = escaped.
Proof.
  intros urlopen_read escaped.
  assert (H : forall u d m,
            _make_request urlopen_read json_dumps json_decoder a u d m
            = escaped).
  { intros u d m. unfold _make_request, request_body, urlopen_read.
    destruct (truthy d); reflexivity. }
  repeat split; apply H.
Qed.

End SimpleRequestsExamples.

(** ** The clients at work on sample inputs *)

Section Scenarios.

Import ProxyRotatingAIAgent Trace Samples.

(** With an empty pool and an unreachable service, the status call makes one
    request and gives back an error record. *)
Example status_of_unreachable_service :
  fst (get_agent_status unreachable half direct_state)
  = Return (PDict {[ "error" :=
                       PStr "Status check failed: Name or service not known" ]})
  /\ attempts_in (events (snd (get_agent_status unreachable half direct_state)))
     = 1.
Proof. split; vm_compute; reflexivity. Qed.

(** With three dead proxies the budget of four requests is spent, one
    through each proxy and one more through the first, without a sleep. *)
Example dead_proxies_spend_the_budget :
  let out := make_request dead_proxies half "GET" status_url status_kwargs
               sample_state in
  fst out = Raise all_failed /\
  omap (fun ev => match ev with ERequest r => req_proxies r | _ => None end)
    (events (snd out))
  = map proxy_config
      ["http://p1:8080"; "http://p2:8080"; "http://p3:8080"; "http://p1:8080"] /\
  sleeps_in (events (snd out)) = [].
Proof. repeat split; vm_compute; reflexivity. Qed.

(** A response with an error status is a request failure like any other. *)
Example server_error_is_retried_then_raised :
  let failing :=
    serves {| status_code := 503; reason := "Service Unavailable";
              url := status_url; json := Return PNone;
              lines := []; broken := None |} in
  let out := make_request failing half "GET" status_url status_kwargs
               single_proxy_state in
  fst out
  = Raise (new_exn requests_HTTPError
             "503 Server Error: Service Unavailable for url: http://agent.test/api/status")
  /\ attempts_in (events (snd out)) = 2
  /\ sleeps_in (events (snd out)) = [uniform 1 3 (1 # 2)].
Proof. repeat split; vm_compute; reflexivity. Qed.

Example rstrip_slash_examples :
  rstrip_slash "http://agent.test//" = "http://agent.test" /\
  rstrip_slash "http://agent.test/api" = "http://agent.test/api" /\
  rstrip_slash "///" = "".
Proof. repeat split. Qed.

Example utf8_valid_examples :
  utf8_valid line_a1 = true /\
  utf8_valid [xc3; xa9] = true /\            (* U+00E9 *)
  utf8_valid [xe2; x82; xac] = true /\       (* U+20AC *)
  utf8_valid [xf0; x9f; x98; x80] = true /\  (* U+1F600 *)
  utf8_valid [xff] = false /\
  utf8_valid [xc0; x80] = false /\           (* overlong *)
  utf8_valid [xed; xa0; x80] = false /\      (* surrogate *)
  utf8_valid [xe2; x82] = false.             (* truncated *)
Proof. repeat split. Qed.

(** What [str(e)] is for the [UnicodeDecodeError] of some bytes. *)
Example utf8_message_examples :
  utf8_message [xff]
  = "'utf-8' codec can't decode byte 0xff in position 0: invalid start byte" /\
  utf8_message [xe2; x82]
  = "'utf-8' codec can't decode bytes in position 0-1: unexpected end of data" /\
  utf8_message [x61; xed; xa0; x80]
  = "'utf-8' codec can't decode byte 0xed in position 1: invalid continuation byte" /\
  utf8_message [xf0; x9f; x98; x28]
  = "'utf-8' codec can't decode bytes in position 0-2: invalid continuation byte".
Proof. repeat split. Qed.

(** Zero is false also as a [float], of either sign; a NaN and the least
    positive number are true. *)
Example truthy_examples :
  truthy (PFloat (FZero false)) = false /\
  truthy (PFloat (FZero true)) = false /\
  truthy (PFloat FNaN) = true /\
  truthy (PFloat (FFinite false 1 (-1074))) = true /\
  or_val (PFloat (FZero false)) (PDict ∅) = PDict ∅ /\
  or_val (PInt 0) (PDict ∅) = PDict ∅ /\
  or_val (PDict {[ "k" := PInt 0 ]}) (PDict ∅) = PDict {[ "k" := PInt 0 ]}.
Proof. repeat split. Qed.

(** [random.uniform(1, 3)] at the ends and in the middle of the range of
    [random.random()]: its least value gives 1, its second least the
    binary64 number after 1, and its two largest give the binary64 number
    before 3 and 3 itself. *)
Example uniform_examples :
  uniform 1 3 0 = 1%Q /\
  uniform 1 3 (1 # 9007199254740992)
  = (4503599627370497 # 4503599627370496)%Q /\
  uniform 1 3 (1 # 2) = 2%Q /\
  uniform 1 3 (9007199254740990 # 9007199254740992)
  = (6755399441055743 # 2251799813685248)%Q /\
  uniform 1 3 (9007199254740991 # 9007199254740992) = 3%Q.
Proof. repeat split. Qed.

End Scenarios.

(** ** Further properties of the retry loop *)

Section LoopRotation.

Import ProxyRotatingAIAgent Trace Usage.

Variable session_request : list Event -> Request -> Result Response.
Variable random_random : list Event -> Q.

Abbreviation attempt_loop := (attempt_loop session_request random_random).
Abbreviation request_once := (request_once session_request random_random).
Abbreviation make_request := (make_request session_request random_random).
Abbreviation physical := (physical session_request).

(** Whatever its outcome, an attempt records its request, then at most a
    progress line and a sleep, and it ends the loop or goes on with the same
    keyword arguments. *)
Lemma request_once_shape (method url : string) (max_attempts attempt : nat)
    (kw : Kwargs) (st : State) :
  exists ctl tail,
    request_once method url max_attempts attempt kw st
    = (ctl, emit_all (ERequest (build_request method url kw (self st)) :: tail) st) /\
    attempts_in tail = 0 /\
    ((exists r, ctl = Done r /\ tail = []) \/ ctl = Next kw).
Proof.
  pose proof (request_once_cases session_request random_random method url
                max_attempts attempt kw st) as H. cbv zeta in H.
  destruct (physical (events st) _) as [response|e].
  - exists (Done (Return response)), []. rewrite H. repeat split. left. eauto.
  - destruct (isinstance e ProxyError).
    { exists (Next kw), [proxy_failed]. rewrite H.
      split; [|split; [reflexivity|auto]].
      unfold emit_all, emit. cbn. rewrite <- app_assoc. reflexivity. }
    destruct (isinstance e RequestException).
    + destruct (attempt =? max_attempts - 1)%nat.
      * exists (Done (Raise e)), []. rewrite H. repeat split. left. eauto.
      * eexists (Next kw), [retrying e; ESleep _]. rewrite H.
        split; [|split; [reflexivity|auto]].
        unfold emit_all, emit. cbn. rewrite <- !app_assoc. reflexivity.
    + exists (Done (Raise e)), []. rewrite H. repeat split. left. eauto.
Qed.

Lemma rotation_step (st st' : State) (p : string) (k : nat) :
  proxies (self st') = proxies (self st) ->
  current_proxy_index (self st')
  = (current_proxy_index (self st) + 1) mod length (proxies (self st)) ->
  proxies (self st) !! current_proxy_index (self st) = Some p ->
  Some (proxy_config p) :: rotation st' k = rotation st (S k).
Proof.
  intros HP Hc Hp. unfold rotation. rewrite HP, Hc.
  assert (Hlt : current_proxy_index (self st) < length (proxies (self st))).
  { apply lookup_lt_is_Some_1. eauto. }
  cbn [seq map]. f_equal.
  - rewrite Nat.add_0_r, Nat.mod_small by exact Hlt.
    do 2 f_equal. symmetry. apply nth_lookup_Some with (d := ""). exact Hp.
  - rewrite <- seq_shift, map_map. apply map_ext. intros i.
    do 3 f_equal. rewrite Nat.Div0.add_mod_idemp_l. f_equal. lia.
Qed.

Lemma used_proxies_quiet (tail : list Event) :
  attempts_in tail = 0 -> used_proxies tail = [].
Proof.
  induction tail as [|ev tail IH]; [reflexivity|].
  destruct ev; cbn; intros H; try discriminate; apply IH; exact H.
Qed.

Lemma attempt_loop_rotation (method url : string) (max_attempts n : nat) :
  forall (a : nat) (kw : Kwargs) (st : State),
    current_proxy_index (self st) < length (proxies (self st)) ->
    let out := attempt_loop method url max_attempts (seq a n) kw st in
    exists new,
      events (snd out) = (events st ++ new)%list /\
      used_proxies new = rotation st (attempts_in new) /\
      current_proxy_index (self (snd out))
      = (current_proxy_index (self st) + attempts_in new)
          mod length (proxies (self st)).
Proof.
  induction n as [|n IH]; intros a kw st Hc out.
  - exists []. subst out. cbn. rewrite app_nil_r, Nat.add_0_r.
    rewrite Nat.mod_small by exact Hc. auto.
  - subst out. cbn [seq ProxyRotatingAIAgent.attempt_loop]. unfold iteration.
    destruct (use_proxy_cases kw st)
      as [[EP Hu] | [(p & Hp & Hu) | (Hne & Hnone & Hu)]].
    { rewrite EP in Hc. cbn in Hc. lia. }
    2:{ apply lookup_lt_is_Some_2 in Hc. rewrite Hnone in Hc.
        destruct Hc; discriminate. }
    rewrite Hu.
    set (st1 := emit _ (set_index _ st)).
    set (kw1 := set_proxies (proxy_config p) kw).
    assert (HN : length (proxies (self st)) <> 0) by lia.
    assert (Hc1 : current_proxy_index (self st1) < length (proxies (self st1))).
    { subst st1. cbn. apply Nat.mod_upper_bound. exact HN. }
    destruct (request_once_shape method url max_attempts a kw1 st1)
      as (ctl & tail & Hro & Htail & Hctl).
    rewrite Hro.
    set (req := build_request method url kw1 (self st1)) in *.
    assert (Hused : forall rest,
              used_proxies (EPrint ("Using proxy: " ++ p) :: ERequest req
                              :: tail ++ rest)
              = Some (proxy_config p) :: used_proxies rest).
    { intros rest. unfold used_proxies at 1. cbn. f_equal.
      rewrite omap_app. fold (used_proxies tail).
      rewrite (used_proxies_quiet tail Htail). reflexivity. }
    assert (Hatt : forall rest,
              attempts_in (EPrint ("Using proxy: " ++ p) :: ERequest req
                             :: tail ++ rest) = S (attempts_in rest)).
    { intros rest.
      change (attempts_in ([EPrint ("Using proxy: " ++ p); ERequest req]
                             ++ tail ++ rest) = S (attempts_in rest)).
      rewrite !attempts_in_app, Htail. reflexivity. }
    destruct Hctl as [(r & -> & ->) | ->].
    + exists [EPrint ("Using proxy: " ++ p); ERequest req].
      split; [|split].
      * cbn. rewrite <- app_assoc. reflexivity.
      * exact (rotation_step st st1 p 0 eq_refl eq_refl Hp).
      * reflexivity.
    + set (st2 := emit_all (ERequest req :: tail) st1).
      destruct (IH (S a) kw1 st2 Hc1) as (new & Hev & Hu2 & Hcur).
      exists (EPrint ("Using proxy: " ++ p) :: ERequest req :: tail ++ new)%list.
      split; [|split].
      * rewrite Hev. subst st2 st1. cbn. rewrite <- !app_assoc. reflexivity.
      * rewrite Hused, Hatt, Hu2.
        apply rotation_step; [reflexivity | reflexivity | exact Hp].
      * rewrite Hcur, Hatt.
        change (current_proxy_index (self st2))
          with ((current_proxy_index (self st) + 1) mod length (proxies (self st))).
        change (proxies (self st2)) with (proxies (self st)).
        rewrite Nat.Div0.add_mod_idemp_l. f_equal. lia.
Qed.

(** X1.  On a pool whose cursor is a valid index, the requests of one
    [make_request] invocation go through the endpoints that follow the
    cursor in the pool's cyclic order, one endpoint per request, never
    without a proxy; and the invocation leaves the cursor advanced by the
    number of requests it made, modulo the pool size. *)
Theorem make_request_rotates_proxies (method url : string) (kw : Kwargs)
    (st : State) (new : list Event) :
  current_proxy_index (self st) < length (proxies (self st)) ->
  events (snd (make_request method url kw st)) = (events st ++ new)%list ->
  used_proxies new = rotation st (attempts_in new) /\
  current_proxy_index (self (snd (make_request method url kw st)))
  = (current_proxy_index (self st) + attempts_in new)
      mod length (proxies (self st)).
Proof.
  intros Hc Hev.
  destruct (attempt_loop_rotation method url (max_attempts_of (self st))
              (max_attempts_of (self st)) 0 kw st Hc)
    as (new' & Hev' & Hused & Hcur).
  change (attempt_loop method url (max_attempts_of (self st))
            (seq 0 (max_attempts_of (self st))) kw st)
    with (make_request method url kw st) in *.
  rewrite Hev' in Hev. apply app_inv_head in Hev. subst new'. auto.
Qed.

(** X2.  A request of [make_request] that gets a response with a good
    status ends the invocation: nothing is printed, slept or requested after
    it, and that response is what [make_request] returns. *)
Theorem make_request_stops_on_success (method url : string) (kw : Kwargs)
    (st : State) (pre : list Event) (req : Request) (post : list Event)
    (response : Response) :
  events (snd (make_request method url kw st))
  = (events st ++ pre ++ ERequest req :: post)%list ->
  physical (events st ++ pre) req = Return response ->
  post = [] /\ fst (make_request method url kw st) = Return response.
Proof.
  intros Hev Hph.
  pose proof (make_request_trace session_request random_random false
                method url kw st _ ltac:(discriminate) Hev) as Hrun.
  destruct (Run_split _ _ _ _ _ _ _ _ _ _ Hrun pre req post eq_refl)
    as (_ & m & _ & Hv).
  unfold verdict in Hv. rewrite Hph in Hv. exact Hv.
Qed.

(** X3.  An exception of an attempt that is not a [RequestException] is
    never retried: [make_request] raises it at once, whatever is left of the
    budget, and nothing is printed, slept or requested after the request that
    raised it. *)
Theorem make_request_does_not_retry_other_exceptions (method url : string)
    (kw : Kwargs) (st : State) (pre : list Event) (req : Request)
    (post : list Event) (e : exn) :
  events (snd (make_request method url kw st))
  = (events st ++ pre ++ ERequest req :: post)%list ->
  physical (events st ++ pre) req = Raise e ->
  isinstance e RequestException = false ->
  post = [] /\ fst (make_request method url kw st) = Raise e.
Proof.
  intros Hev Hph HRq.
  pose proof (make_request_trace session_request random_random false
                method url kw st _ ltac:(discriminate) Hev) as Hrun.
  destruct (Run_split _ _ _ _ _ _ _ _ _ _ Hrun pre req post eq_refl)
    as (_ & m & _ & Hv).
  unfold verdict in Hv. rewrite Hph, HRq in Hv.
  destruct (isinstance e ProxyError) eqn:HPx; [|exact Hv].
  apply proxy_error_is_request_exception in HPx. congruence.
Qed.

(** X4.  [make_request] never returns a response with a status from 400 to
    599: what it returns is a response that the transport gave to one of its
    requests and whose status is outside that range. *)
Theorem make_request_returns_good_status (method url : string) (kw : Kwargs)
    (st : State) (response : Response) :
  fst (make_request method url kw st) = Return response ->
  ~ (400 <= status_code response < 600)%Z /\
  exists hist req, session_request hist req = Return response.
Proof.
  intros Hr.
  destruct (make_request_run session_request random_random false
              method url kw st ltac:(discriminate)) as (new & _ & Hrun & _).
  rewrite Hr in Hrun.
  destruct (Run_returns _ _ _ _ _ _ _ _ _ _ Hrun) as (pre & req & _ & _ & Hp).
  unfold Requests.physical in Hp.
  destruct (session_request _ req) as [response'|e] eqn:Es; [|discriminate].
  unfold raise_for_status in Hp.
  destruct ((400 <=? status_code response')%Z && (status_code response' <? 500)%Z)
    eqn:E4; [discriminate|].
  destruct ((500 <=? status_code response')%Z && (status_code response' <? 600)%Z)
    eqn:E5; [discriminate|].
  injection Hp as <-. split; [|eauto].
  apply andb_false_iff in E4, E5. lia.
Qed.

End LoopRotation.

Section SleepBudget.

Import ProxyRotatingAIAgent Trace Usage.

Variable session_request : list Event -> Request -> Result Response.
Variable random_random : list Event -> Q.

Abbreviation make_request := (make_request session_request random_random).

Lemma sleeps_in_app (l1 l2 : list Event) :
  sleeps_in (l1 ++ l2) = (sleeps_in l1 ++ sleeps_in l2)%list.
Proof. apply omap_app. Qed.

(** A run that counts its attempts up to the budget sleeps once less often
    than it has iterations, and only for delays drawn by
    [random.uniform(1, 3)]. *)
Lemma Run_sleeps (strict : bool) (max_attempts : nat) (call : Request -> Prop)
    (a n : nat) (hist new : list Event) (r : Result Response) :
  Run session_request random_random strict max_attempts call a n hist new r ->
  a + n = max_attempts ->
  length (sleeps_in new) <= n - 1 /\
  Forall (fun d => exists h, d = uniform 1 3 (random_random h)) (sleeps_in new).
Proof.
  induction 1 as
    [ a hist
    | a n hist e Hstrict Hcls
    | a n hist pre0 req0 response Hpre Hcall Hph
    | a n hist pre0 req0 e new r Hpre Hcall Hph HPx Hrun IH
    | a n hist pre0 req0 e new r Hpre Hcall Hph HPx HRq Hnl delay Hrun IH
    | a n hist pre0 req0 e Hpre Hcall Hph HPx HRq Hl
    | a n hist pre0 req0 e Hpre Hcall Hph HRq ];
    intros Hmax;
    rewrite ?sleeps_in_app, ?(sleeps_in_preamble pre0) by assumption;
    try (split; [cbn; lia | constructor]).
  - destruct IH as [IH1 IH2]; [lia|].
    change (sleeps_in (ERequest req0 :: proxy_failed :: new))
      with (sleeps_in new).
    split; [cbn; lia | exact IH2].
  - destruct IH as [IH1 IH2]; [lia|].
    change (sleeps_in (ERequest req0 :: retrying e :: ESleep delay :: new))
      with (delay :: sleeps_in new).
    split; [cbn; lia|]. constructor; [|exact IH2]. subst delay. eauto.
Qed.

Lemma total_bounded (ds : list Q) :
  Forall (fun d => (d <= 3)%Q) ds ->
  (fold_right Qplus 0 ds <= 3 * inject_Z (Z.of_nat (length ds)))%Q.
Proof.
  induction 1 as [|d ds Hd _ IH].
  - change (0 <= 3 * 0)%Q. lra.
  - cbn [fold_right length]. rewrite Nat2Z.inj_succ. unfold Z.succ.
    rewrite inject_Z_plus. change (inject_Z 1) with 1%Q. lra.
Qed.

(** X5.  One [make_request] invocation enters its own back-off, the
    [time.sleep] of line 71, at most as many times as the pool has
    endpoints, so never on an empty pool; what the retry adapter of the
    session waits inside a request is not counted.  If [random.random()]
    only gives values in [0, 1), every such back-off lasts from 1 to 3
    seconds, both included, and all of them together at most 3 seconds per
    endpoint. *)
Theorem make_request_sleep_budget (method url : string) (kw : Kwargs)
    (st : State) (new : list Event) :
  events (snd (make_request method url kw st)) = (events st ++ new)%list ->
  length (sleeps_in new) <= length (proxies (self st)) /\
  ((forall h, (0 <= random_random h)%Q /\ (random_random h < 1)%Q) ->
     Forall (fun d => (1 <= d)%Q /\ (d <= 3)%Q) (sleeps_in new) /\
     (total_sleep new
        <= 3 * inject_Z (Z.of_nat (length (proxies (self st)))))%Q).
Proof.
  intros Hev.
  pose proof (make_request_trace session_request random_random false
                method url kw st new ltac:(discriminate) Hev) as Hrun.
  destruct (Run_sleeps _ _ _ _ _ _ _ _ Hrun eq_refl) as [Hlen Hall].
  assert (Hb : max_attempts_of (self st) - 1 = length (proxies (self st))).
  { unfold max_attempts_of. destruct (proxies (self st)); cbn; lia. }
  rewrite Hb in Hlen. split; [exact Hlen|].
  intros Hdraw.
  assert (Hin : Forall (fun d => (1 <= d)%Q /\ (d <= 3)%Q) (sleeps_in new)).
  { eapply Forall_impl; [exact Hall|]. intros d [h ->].
    destruct (Hdraw h). apply uniform_1_3_bounds; assumption. }
  split; [exact Hin|].
  unfold total_sleep.
  eapply Qle_trans.
  - apply total_bounded. eapply Forall_impl; [exact Hin|].
    intros d [_ Hd]. exact Hd.
  - assert (Hz : (Z.of_nat (length (sleeps_in new))
                  <= Z.of_nat (length (proxies (self st))))%Z) by lia.
    rewrite Zle_Qle in Hz. lra.
Qed.

End SleepBudget.

(** ** The operations of the proxy-rotating agent, one after another *)

Section Operations.

Import ProxyRotatingAIAgent Trace Usage.

Variable session_request : list Event -> Request -> Result Response.
Variable random_random : list Event -> Q.
Variable time_time : list Event -> Z.
Variable json_decoder : string -> Result pyval.

Abbreviation make_request := (make_request session_request random_random).
Abbreviation send_message :=
  (send_message session_request random_random time_time).
Abbreviation get_agent_status :=
  (get_agent_status session_request random_random).
Abbreviation stream_chat :=
  (stream_chat session_request random_random json_decoder).
Abbreviation after_call :=
  (after_call session_request random_random time_time json_decoder).
Abbreviation after_calls :=
  (after_calls session_request random_random time_time json_decoder).

(** Each facade leaves the agent and the history as its one [make_request]
    call left them. *)
Lemma send_message_state (message : string) (context : pyval) (st : State) :
  snd (send_message message context st)
  = snd (make_request "POST" (base_url (self st) ++ "/api/chat")
           (kwargs (Some (chat_payload message context (time_time (events st))))
              30 false) st).
Proof.
  unfold ProxyRotatingAIAgent.send_message, bind, now, try_except, get_self,
    lift, ret.
  destruct (make_request _ _ _ st) as [[response|e] st1]; cbn -[isinstance].
  - destruct (json response) as [v|e]; [reflexivity|].
    destruct (isinstance e RequestException); reflexivity.
  - destruct (isinstance e RequestException); reflexivity.
Qed.

Lemma get_agent_status_state (st : State) :
  snd (get_agent_status st)
  = snd (make_request "GET" (base_url (self st) ++ "/api/status")
           status_kwargs st).
Proof.
  unfold ProxyRotatingAIAgent.get_agent_status, bind, try_except, get_self,
    lift, ret.
  destruct (make_request _ _ _ st) as [[response|e] st1]; cbn -[isinstance].
  - destruct (json response) as [v|e]; [reflexivity|].
    destruct (isinstance e RequestException); reflexivity.
  - destruct (isinstance e RequestException); reflexivity.
Qed.

Lemma stream_chat_state (message : string) (context : pyval) (st : State) :
  snd (stream_chat message context st)
  = snd (make_request "POST" (base_url (self st) ++ "/api/stream")
           (kwargs (Some (stream_payload message context)) 60 true) st).
Proof.
  unfold ProxyRotatingAIAgent.stream_chat.
  destruct (make_request _ _ _ st) as [[response|e] st1]; cbn -[isinstance].
  - destruct (iter_body json_decoder _ _) as [ys [u|e]]; [reflexivity|].
    destruct (isinstance e RequestException); reflexivity.
  - destruct (isinstance e RequestException); reflexivity.
Qed.

Lemma make_request_keeps (method url : string) (kw : Kwargs) (st : State) :
  cursor_valid st ->
  cursor_valid (snd (make_request method url kw st)) /\
  unchanged st (snd (make_request method url kw st)) /\
  events st `prefix_of` events (snd (make_request method url kw st)).
Proof.
  intros Hcv.
  destruct (make_request_run session_request random_random false
              method url kw st ltac:(discriminate))
    as (new & Hev & _ & Hun & Hcv').
  split; [auto|]. split; [exact Hun|]. exists new. exact Hev.
Qed.

Lemma after_call_keeps (c : Call) (st : State) :
  cursor_valid st ->
  cursor_valid (after_call c st) /\
  unchanged st (after_call c st) /\
  events st `prefix_of` events (after_call c st).
Proof.
  intros Hcv. destruct c as [m ctx| |m ctx|m u kw|]; cbn [Usage.after_call].
  - rewrite send_message_state. apply make_request_keeps. exact Hcv.
  - rewrite get_agent_status_state. apply make_request_keeps. exact Hcv.
  - rewrite stream_chat_state. apply make_request_keeps. exact Hcv.
  - apply make_request_keeps. exact Hcv.
  - unfold get_next_proxy.
    destruct (proxies (self st)) as [|q qs] eqn:EP.
    + cbn. split; [exact Hcv|]. split; [apply unchanged_refl | reflexivity].
    + rewrite <- EP.
      destruct (proxies (self st) !! current_proxy_index (self st)) eqn:EL.
      * cbn [snd]. split; [|split; [repeat split | reflexivity]].
        apply cursor_valid_advance. rewrite EP. discriminate.
      * cbn. split; [exact Hcv|]. split; [apply unchanged_refl | reflexivity].
Qed.

(** X6.  An agent as [__init__] builds it has a valid cursor, and whatever
    sequence of [get_next_proxy], [make_request], [send_message],
    [get_agent_status] and [stream_chat] calls is made on it, the cursor
    stays a valid index of the pool, the pool, the headers, the base URL and
    the credential stay as built, and the history only grows. *)
Theorem calls_keep_the_agent (environ : gmap string string)
    (default_headers : gmap string (string * string)) (base : string)
    (key : option string) (pool : option (list string)) (cs : list Call) :
  let a := __init__ environ default_headers base key pool in
  let st := after_calls cs {| self := a; events := [] |} in
  cursor_valid st /\
  proxies (self st) = proxies a /\
  session_headers (self st) = session_headers a /\
  base_url (self st) = base_url a /\
  api_key (self st) = api_key a.
Proof.
  intros a.
  assert (H0 : cursor_valid {| self := a; events := [] |}).
  { unfold cursor_valid. cbn. destruct pool as [[|p ps]|]; cbn; [auto | | auto].
    right. lia. }
  assert (Hgen : forall cs st0, cursor_valid st0 ->
            cursor_valid (after_calls cs st0) /\ unchanged st0 (after_calls cs st0)).
  { clear. intros cs. induction cs as [|c cs IH]; intros st0 Hcv.
    - split; [exact Hcv | apply unchanged_refl].
    - cbn [Usage.after_calls fold_left].
      destruct (after_call_keeps c st0 Hcv) as (Hcv1 & Hun1 & _).
      destruct (IH _ Hcv1) as (Hcv2 & Hun2).
      split; [exact Hcv2|]. eapply unchanged_trans; eassumption. }
  intros st. destruct (Hgen cs _ H0) as (Hcv & Hb & Hk & Hp & Hh).
  fold st in Hcv, Hb, Hk, Hp, Hh. auto.
Qed.

(** X7.  When the stream is established, every line of the body is valid
    UTF-8 and [json.loads] raises nothing but [json.JSONDecodeError] on the
    lines, [stream_chat] yields the records that the non-empty lines decode
    to, in the order of the body, skips the lines that are not JSON, and then
    ends normally, also when no line decodes at all. *)
Theorem stream_chat_yields_decoded_records (message : string) (context : pyval)
    (st : State) (response : Response) :
  fst (make_request "POST" (base_url (self st) ++ "/api/stream")
         (kwargs (Some (stream_payload message context)) 60 true) st)
  = Return response ->
  broken response = None ->
  Forall (fun line => utf8_valid line = true) (lines response) ->
  Forall (fun line =>
            forall e, json_decoder (string_of_list_byte line) = Raise e ->
                      isinstance e JSONDecodeError = true)
    (lines response) ->
  fst (stream_chat message context st)
  = (decoded_records json_decoder
       (List.filter (fun line => negb (bool_decide (line = [])))
          (lines response)),
     Return tt).
Proof.
  intros Hest Hb Hvalid Hjson. unfold ProxyRotatingAIAgent.stream_chat.
  destruct (make_request _ _ _ st) as [[response'|e] st1]; cbn in Hest;
    [|discriminate].
  injection Hest as ->. rewrite Hb.
  assert (Hbody : iter_body json_decoder (lines response) None
                  = (decoded_records json_decoder
                       (List.filter (fun line => negb (bool_decide (line = [])))
                          (lines response)),
                     Return tt)).
  { clear -Hvalid Hjson.
    induction Hvalid as [|line rest Hline _ IH]; [reflexivity|].
    apply Forall_cons in Hjson as [Hj Hjson]. specialize (IH Hjson).
    cbn [iter_body List.filter]. destruct line as [|b bs].
    - cbn. exact IH.
    - rewrite bool_decide_eq_false_2 by discriminate. cbn [negb].
      unfold decode_utf8. rewrite Hline. unfold json_loads, decoded_records.
      cbn [omap list_omap].
      destruct (json_decoder (string_of_list_byte (b :: bs))) as [v|e1].
      + fold (decoded_records json_decoder). rewrite IH. reflexivity.
      + rewrite (Hj e1 eq_refl). cbn. exact IH. }
  rewrite Hbody. reflexivity.
Qed.

(** X8.  Every attempt of one [send_message] call is the same request: a
    [POST] to [/api/chat] under the base URL, with a timeout of 30 seconds
    and, as its JSON body, the message, the context and the timestamp read
    once before the first attempt.  The context sent is [{}] when the one
    given counts as false, be it [None], an empty mapping or a zero such as
    [0.0], and the one given otherwise. *)
Theorem send_message_requests (message : string) (context : pyval)
    (st : State) (new : list Event) (req : Request) :
  events (snd (send_message message context st)) = (events st ++ new)%list ->
  ERequest req ∈ new ->
  req_method req = "POST" /\
  req_url req = base_url (self st) ++ "/api/chat" /\
  req_timeout req = Some 30%Z /\
  req_stream req = false /\
  exists sent,
    req_json req
    = Some (PDict (<["message" := PStr message]>
                     (<["context" := sent]>
                        (<["timestamp" := PInt (time_time (events st))]> ∅))))
    /\ (falsy context -> sent = PDict ∅)
    /\ (~ falsy context -> sent = context).
Proof.
  intros Hev Hin. rewrite send_message_state in Hev.
  pose proof (make_request_trace session_request random_random false
                _ _ _ st new ltac:(discriminate) Hev) as Hrun.
  destruct (Run_requests _ _ _ _ _ _ _ _ _ _ Hrun req Hin)
    as (Hm & Hu & _ & Hj & Ht & Hs & _).
  repeat (split; [assumption|]).
  exists (if truthy context then context else PDict ∅).
  split; [exact Hj | apply or_val_falsy].
Qed.

(** X9.  Every attempt of one [stream_chat] call is a [POST] to
    [/api/stream] under the base URL, in streaming mode, with a timeout of
    60 seconds and a JSON body of the message, the context and
    [stream: true].  The context sent is [{}] when the one given counts as
    false, be it [None], an empty mapping or a zero such as [0.0], and the
    one given otherwise. *)
Theorem stream_chat_requests (message : string) (context : pyval)
    (st : State) (new : list Event) (req : Request) :
  events (snd (stream_chat message context st)) = (events st ++ new)%list ->
  ERequest req ∈ new ->
  req_method req = "POST" /\
  req_url req = base_url (self st) ++ "/api/stream" /\
  req_timeout req = Some 60%Z /\
  req_stream req = true /\
  exists sent,
    req_json req
    = Some (PDict (<["message" := PStr message]>
                     (<["context" := sent]>
                        (<["stream" := PBool true]> ∅))))
    /\ (falsy context -> sent = PDict ∅)
    /\ (~ falsy context -> sent = context).
Proof.
  intros Hev Hin. rewrite stream_chat_state in Hev.
  pose proof (make_request_trace session_request random_random false
                _ _ _ st new ltac:(discriminate) Hev) as Hrun.
  destruct (Run_requests _ _ _ _ _ _ _ _ _ _ Hrun req Hin)
    as (Hm & Hu & _ & Hj & Ht & Hs & _).
  repeat (split; [assumption|]).
  exists (if truthy context then context else PDict ∅).
  split; [exact Hj | apply or_val_falsy].
Qed.

(** X18.  Every attempt of one [get_agent_status] call of the proxy-rotating
    agent is a [GET] of [/api/status] under the base URL with a timeout of 15
    seconds, without a body and not in streaming mode. *)
Theorem get_agent_status_requests (st : State) (new : list Event)
    (req : Request) :
  events (snd (get_agent_status st)) = (events st ++ new)%list ->
  ERequest req ∈ new ->
  req_method req = "GET" /\
  req_url req = base_url (self st) ++ "/api/status" /\
  req_timeout req = Some 15%Z /\
  req_stream req = false /\
  req_json req = None.
Proof.
  intros Hev Hin. rewrite get_agent_status_state in Hev.
  pose proof (make_request_trace session_request random_random false
                _ _ _ st new ltac:(discriminate) Hev) as Hrun.
  destruct (Run_requests _ _ _ _ _ _ _ _ _ _ Hrun req Hin)
    as (Hm & Hu & _ & Hj & Ht & Hs & _).
  auto.
Qed.

End Operations.

(** ** [str.strip] *)

Section StripFront.

Import Text.

Variable w1 : byte -> bool.
Variable w2 : byte -> byte -> bool.
Variable w3 : byte -> byte -> byte -> bool.

Abbreviation starts := (starts_with_space w1 w2 w3).
Abbreviation front := (strip_front w1 w2 w3).

Lemma strip_front_fixed (bs : list byte) :
  starts bs = false -> front bs = bs.
Proof.
  destruct bs as [|b0 [|b1 [|b2 t]]]; cbn; intros H; try reflexivity.
  - rewrite orb_false_r in H. rewrite H. reflexivity.
  - apply orb_false_elim in H as [H1 H2]. rewrite orb_false_r in H2.
    rewrite H1, H2. reflexivity.
  - apply orb_false_elim in H as [H1 H2]. apply orb_false_elim in H2 as [H2 H3].
    rewrite H1, H2, H3. reflexivity.
Qed.

(** What is left starts with no character to strip and is the end of the
    input. *)
Lemma strip_front_spec (n : nat) :
  forall bs, length bs <= n ->
    starts (front bs) = false /\ exists pre, bs = (pre ++ front bs)%list.
Proof.
  induction n as [|n IH]; intros bs Hlen.
  - destruct bs; [|cbn in Hlen; lia].
    split; [reflexivity | exists []; reflexivity].
  - destruct bs as [|b0 t0]; [split; [reflexivity | exists []; reflexivity]|].
    cbn [Text.strip_front]. cbn in Hlen.
    destruct (w1 b0) eqn:E1.
    { destruct (IH t0 ltac:(lia)) as [H (pre & Hp)]. split; [exact H|].
      exists (b0 :: pre). cbn. rewrite <- Hp. reflexivity. }
    destruct t0 as [|b1 t1].
    { split; [cbn; rewrite E1; reflexivity | exists []; reflexivity]. }
    cbn in Hlen. destruct (w2 b0 b1) eqn:E2.
    { destruct (IH t1 ltac:(lia)) as [H (pre & Hp)]. split; [exact H|].
      exists (b0 :: b1 :: pre). cbn. rewrite <- Hp. reflexivity. }
    destruct t1 as [|b2 t2].
    { split; [cbn; rewrite E1, E2; reflexivity | exists []; reflexivity]. }
    cbn in Hlen. destruct (w3 b0 b1 b2) eqn:E3.
    { destruct (IH t2 ltac:(lia)) as [H (pre & Hp)]. split; [exact H|].
      exists (b0 :: b1 :: b2 :: pre). cbn. rewrite <- Hp. reflexivity. }
    split; [cbn; rewrite E1, E2, E3; reflexivity | exists []; reflexivity].
Qed.

Lemma strip_front_clean (bs : list byte) : starts (front bs) = false.
Proof. apply (strip_front_spec (length bs) bs). reflexivity. Qed.

Lemma strip_front_suffix (bs : list byte) :
  exists pre, bs = (pre ++ front bs)%list.
Proof. apply (strip_front_spec (length bs) bs). reflexivity. Qed.

Lemma strip_front_idempotent (bs : list byte) : front (front bs) = front bs.
Proof. apply strip_front_fixed, strip_front_clean. Qed.

Lemma starts_with_space_app (u v : list byte) :
  starts u = true -> starts (u ++ v) = true.
Proof.
  destruct u as [|b0 [|b1 [|b2 t]]]; cbn; intros H; try discriminate.
  - rewrite orb_false_r in H. rewrite H. reflexivity.
  - rewrite orb_false_r in H. apply orb_true_iff in H as [->| ->]; [reflexivity|].
    rewrite orb_true_r. destruct v; reflexivity.
  - exact H.
Qed.

End StripFront.

Section Strip.

Import Text.

Lemma rstrip_bytes_idempotent (bs : list byte) :
  rstrip_bytes (rstrip_bytes bs) = rstrip_bytes bs.
Proof.
  unfold rstrip_bytes. rewrite rev_involutive, strip_front_idempotent.
  reflexivity.
Qed.

Lemma rstrip_bytes_prefix (bs : list byte) :
  exists post, bs = (rstrip_bytes bs ++ post)%list.
Proof.
  unfold rstrip_bytes.
  destruct (strip_front_suffix space1 (fun b1 b0 => space2 b0 b1)
              (fun b2 b1 b0 => space3 b0 b1 b2) (rev bs)) as [pre Hp].
  exists (rev pre). rewrite <- rev_app_distr, <- Hp, rev_involutive.
  reflexivity.
Qed.

(** Stripping the back of bytes that are clean at the front leaves them
    clean at the front. *)
Lemma rstrip_bytes_keeps_front (bs : list byte) :
  starts_with_space space1 space2 space3 bs = false ->
  starts_with_space space1 space2 space3 (rstrip_bytes bs) = false.
Proof.
  intros H. destruct (rstrip_bytes_prefix bs) as [post Hp].
  destruct (starts_with_space space1 space2 space3 (rstrip_bytes bs)) eqn:E;
    [|reflexivity].
  apply (starts_with_space_app _ _ _ _ post) in E. rewrite <- Hp in E.
  congruence.
Qed.

Lemma strip_idempotent (s : string) : strip (strip s) = strip s.
Proof.
  unfold strip. rewrite list_byte_of_string_of_list_byte. f_equal.
  unfold lstrip_bytes at 1.
  rewrite strip_front_fixed.
  - apply rstrip_bytes_idempotent.
  - apply rstrip_bytes_keeps_front. apply strip_front_clean.
Qed.

Lemma nonempty_true (s : string) : nonempty s = true <-> s <> "".
Proof.
  unfold nonempty. destruct (String.eqb_spec s ""); cbn; split; congruence.
Qed.

End Strip.

(** ** [load_proxy_list] *)

Section ProxyList.

Import Text AgentWithProxy.

Lemma file_entries_kept (file_lines : list string) :
  omap (fun p => if nonempty (strip p) then Some (strip p) else None)
    (file_entries file_lines)
  = file_entries file_lines.
Proof.
  unfold file_entries. induction file_lines as [|line rest IH]; [reflexivity|].
  cbn [omap list_omap].
  destruct (nonempty (strip line) && negb (startswith "#" (strip line))) eqn:E;
    [|exact IH].
  cbn [omap list_omap]. rewrite strip_idempotent.
  apply andb_true_iff in E as [-> _]. f_equal. exact IH.
Qed.

(** X10.  Every entry that [load_proxy_list] returns is non-empty and has no
    white space at either end: stripping it again changes nothing. *)
Theorem load_proxy_list_entries_stripped (environ : gmap string string)
    (files : gmap string (list string)) (p : string) :
  p ∈ load_proxy_list environ files -> p <> "" /\ strip p = p.
Proof.
  unfold load_proxy_list. intros Hin.
  apply list_elem_of_omap in Hin as (q & _ & Hq).
  destruct (nonempty (strip q)) eqn:E; [|discriminate].
  injection Hq as <-. split.
  - apply nonempty_true. exact E.
  - apply strip_idempotent.
Qed.

(** X11.  [load_proxy_list] returns the entries of the proxy file, in the
    order of its lines, followed by the entries of [HTTP_PROXIES], in their
    order.  A line of the file counts, stripped, unless it is blank or its
    first non-blank character is [#]; a comma-separated field of
    [HTTP_PROXIES] counts, stripped, unless it is blank, so a field that
    starts with [#] is kept.  A missing file or variable contributes
    nothing. *)
Theorem load_proxy_list_order (environ : gmap string string)
    (files : gmap string (list string)) :
  load_proxy_list environ files
  = (omap (fun line =>
             if nonempty (strip line) && negb (startswith "#" (strip line))
             then Some (strip line) else None)
       (default [] (files !! default "proxies.txt" (environ !! "PROXY_FILE")))
     ++ omap (fun field =>
                if nonempty (strip field) then Some (strip field) else None)
          (split "," (default "" (environ !! "HTTP_PROXIES"))))%list.
Proof.
  unfold load_proxy_list, getenv.
  set (file_lines := files !! default "proxies.txt" (environ !! "PROXY_FILE")).
  set (value := default "" (environ !! "HTTP_PROXIES")).
  assert (Hfile : match file_lines with
                  | Some ls => file_entries ls
                  | None => []
                  end = file_entries (default [] file_lines)).
  { destruct file_lines; reflexivity. }
  rewrite Hfile. fold (file_entries (default [] file_lines)).
  destruct (nonempty value) eqn:E.
  - rewrite omap_app, file_entries_kept. reflexivity.
  - rewrite file_entries_kept.
    assert (value = "") as ->.
    { unfold nonempty in E. apply negb_false_iff, String.eqb_eq in E. exact E. }
    cbn. rewrite app_nil_r. reflexivity.
Qed.

End ProxyList.

(** ** From the proxy list to the agent *)

Section MainAgent.

Import ProxyRotatingAIAgent Trace Usage AgentWithProxy.

Variable session_request : list Event -> Request -> Result Response.
Variable random_random : list Event -> Q.

Abbreviation make_request := (make_request session_request random_random).
Abbreviation get_agent_status :=
  (get_agent_status session_request random_random).

(** Without a pool [make_request] makes its one request with the proxy
    setting of its caller, and at most reports a proxy failure after it. *)
Lemma make_request_direct (method url : string) (kw : Kwargs) (st : State) :
  proxies (self st) = [] ->
  exists tail,
    events (snd (make_request method url kw st))
    = (events st ++ ERequest (build_request method url kw (self st)) :: tail)%list /\
    attempts_in tail = 0 /\ sleeps_in tail = [].
Proof.
  intros EP. unfold ProxyRotatingAIAgent.make_request, max_attempts_of.
  rewrite EP. cbn [seq attempt_loop]. unfold iteration.
  destruct (use_proxy_cases kw st)
    as [[_ Hu] | [(p & Hp & _) | (Hne & _)]];
    [|rewrite EP in Hp; discriminate | contradiction].
  rewrite Hu.
  pose proof (request_once_cases session_request random_random method url
                1 0 kw st) as H. cbv zeta in H.
  destruct (physical session_request (events st) _) as [response|e].
  - rewrite H. exists []. auto.
  - destruct (isinstance e ProxyError).
    + rewrite H. exists [proxy_failed]. cbn.
      rewrite <- app_assoc. auto.
    + destruct (isinstance e RequestException); rewrite H; exists []; auto.
Qed.

(** X12.  The agent that [main] builds has the list of [load_proxy_list] as
    its pool, with the cursor on the first endpoint.  When that list is
    empty, for want of a proxy file and of [HTTP_PROXIES] or because they
    hold nothing but blanks and comments, its status call calls
    [session.request] exactly once, without a proxy, and does not enter the
    back-off of [make_request], the [time.sleep] of line 71.  What the retry
    adapter of the session does inside that one call, its own retries and
    waiting, is not counted: the history records the calls of the client's
    code. *)
Theorem main_agent_pool (environ : gmap string string)
    (files : gmap string (list string))
    (default_headers : gmap string (string * string)) :
  let a := main_agent environ files default_headers in
  let checked := get_agent_status {| self := a; events := [] |} in
  proxies a = load_proxy_list environ files /\
  current_proxy_index a = 0 /\
  (load_proxy_list environ files = [] ->
     used_proxies (events (snd checked)) = [None] /\
     sleeps_in (events (snd checked)) = []).
Proof.
  intros a checked.
  assert (HP : proxies a = load_proxy_list environ files).
  { unfold a, main_agent, __init__. cbn [proxies].
    destruct (load_proxy_list environ files); reflexivity. }
  split; [exact HP|]. split; [reflexivity|].
  intros Hempty. unfold checked.
  rewrite (get_agent_status_state session_request random_random).
  destruct (make_request_direct "GET" (base_url a ++ "/api/status")
              status_kwargs {| self := a; events := [] |})
    as (tail & Hev & Hatt & Hsl).
  { cbn [self]. rewrite HP. exact Hempty. }
  cbn [self events] in *. rewrite Hev. cbn [app].
  split.
  - unfold used_proxies. cbn [omap list_omap build_request req_proxies
                               status_kwargs kw_proxies].
    fold (used_proxies tail). rewrite (used_proxies_quiet tail Hatt).
    reflexivity.
  - change (sleeps_in (ERequest ?r :: tail)) with (sleeps_in tail). exact Hsl.
Qed.

End MainAgent.

(** ** The base URL *)

Section BaseUrl.

Import Usage.

Lemma append_slash_nonempty (t : string) : t ++ "/" <> "".
Proof. destruct t; discriminate. Qed.

(** [rstrip('/')] removes slashes at the end, all of them and nothing
    else. *)
Lemma rstrip_slash_spec (s : string) :
  (exists k, s = rstrip_slash s ++ slashes k) /\
  (forall t, rstrip_slash s <> t ++ "/").
Proof.
  induction s as [|c s [[k Hk] Hend]].
  - split; [exists 0; reflexivity|]. intros t H. symmetry in H.
    exact (append_slash_nonempty t H).
  - cbn [rstrip_slash]. destruct (rstrip_slash s) as [|d r] eqn:E.
    + change (s = slashes k) in Hk.
      destruct (Ascii.eqb_spec c "/") as [->|Hc].
      * split; [exists (S k); rewrite Hk; reflexivity|].
        intros t H. symmetry in H. exact (append_slash_nonempty t H).
      * split; [exists k; rewrite Hk; reflexivity|].
        intros [|c' t] H.
        -- change (String c "" = String "/" "") in H.
           injection H as ->. contradiction.
        -- change (String c "" = String c' (t ++ "/")) in H.
           injection H as _ H. exact (append_slash_nonempty t (eq_sym H)).
    + change (s = String d (r ++ slashes k)) in Hk.
      split; [exists k; rewrite Hk; reflexivity|].
      intros [|c' t] H.
      * change (String c (String d r) = String "/" "") in H. discriminate.
      * change (String c (String d r) = String c' (t ++ "/")) in H.
        injection H as _ H. exact (Hend t H).
Qed.

(** X13.  Whatever base URL a client is built with, the one it keeps is that
    URL without its trailing slashes, all of them and nothing else, so the
    endpoint paths, which start with a slash, are joined to it by exactly
    one slash.  This holds for all three clients. *)
Theorem base_url_has_no_trailing_slash (environ : gmap string string)
    (default_headers : gmap string (string * string)) (base : string)
    (key : option string) (pool : option (list string)) (simple_key : string) :
  let kept := rstrip_slash base in
  ProxyRotatingAIAgent.base_url
    (ProxyRotatingAIAgent.__init__ environ default_headers base key pool)
  = kept /\
  AIAgentClient.base_url
    (AIAgentClient.__init__ environ default_headers base key) = kept /\
  SimpleAIAgent.base_url (SimpleAIAgent.__init__ base simple_key) = kept /\
  (exists k, base = kept ++ slashes k) /\
  (forall t, kept <> t ++ "/").
Proof.
  intros kept. repeat split; try reflexivity; apply rstrip_slash_spec.
Qed.

End BaseUrl.

(** ** The plain client *)

Section PlainClient.

Import AIAgentClient.

Variable session_request : list Event -> Request -> Result Response.

Abbreviation physical := (physical session_request).

Lemma client_fetch_history (req : Request) (cls : exc_class)
    (handler : exn -> Result pyval) (hist : list Event) :
  snd (try_except (fetch session_request req) cls handler hist)
  = (hist ++ [ERequest req])%list.
Proof.
  unfold try_except, fetch.
  destruct (physical hist req) as [response|e].
  - destruct (json response) as [v|e]; [reflexivity|].
    destruct (isinstance e cls); reflexivity.
  - destruct (isinstance e cls); reflexivity.
Qed.

(** X14.  [configure_agent] makes one request, a [POST] of the given
    configuration, as it is, to [/api/config] with a timeout of 15 seconds
    and no proxy, and makes it once whatever the outcome.  It returns the
    decoded body of a good answer, returns
    [{'error': 'Configuration failed: ' + str(e)}] when the request fails
    with a request failure [e], and lets no [RequestException] out. *)
Theorem client_configure_agent_contract (c : Client) (config : pyval)
    (hist : list Event) :
  let req :=
    {| req_method := "POST"; req_url := base_url c ++ "/api/config";
       req_headers := session_headers c; req_json := Some config;
       req_timeout := Some 15%Z; req_stream := false; req_proxies := None |} in
  let out := configure_agent session_request c config hist in
  snd out = (hist ++ [ERequest req])%list /\
  (forall e, fst out = Raise e -> isinstance e RequestException = false) /\
  (forall e, physical hist req = Raise e ->
             isinstance e RequestException = true ->
             fst out
             = Return (PDict {[ "error" :=
                                  PStr ("Configuration failed: " ++ exc_str e) ]})) /\
  (forall response v, physical hist req = Return response ->
                      json response = Return v ->
                      fst out = Return v).
Proof.
  intros req out. split; [|split; [|split]].
  - apply client_fetch_history.
  - intros e.
    apply (client_try_except_caught _ _
             (error_record "Configuration failed: ")).
  - intros e Hph HRq. unfold out, configure_agent, try_except, fetch.
    fold req. rewrite Hph, HRq. reflexivity.
  - intros response v Hph Hj. unfold out, configure_agent, try_except, fetch.
    fold req. rewrite Hph, Hj. reflexivity.
Qed.

(** X15.  The plain client never retries and never uses a proxy:
    [send_message] makes exactly one request whatever the outcome, a [POST]
    to [/api/chat] with a timeout of 30 seconds whose JSON body holds the
    message and the context and nothing else.  The context sent is [{}]
    when the one given counts as false, be it [None], an empty mapping or a
    zero such as [0.0], and the one given otherwise. *)
Theorem client_send_message_request (c : Client) (message : string)
    (context : pyval) (hist : list Event) :
  exists req sent,
    snd (send_message session_request c message context hist)
    = (hist ++ [ERequest req])%list /\
    req_method req = "POST" /\
    req_url req = base_url c ++ "/api/chat" /\
    req_timeout req = Some 30%Z /\
    req_proxies req = None /\
    req_json req
    = Some (PDict (<["message" := PStr message]>
                     (<["context" := sent]> ∅))) /\
    (falsy context -> sent = PDict ∅) /\
    (~ falsy context -> sent = context).
Proof.
  exists (chat_request c message context),
         (if truthy context then context else PDict ∅).
  split; [apply client_fetch_history|].
  repeat (split; [reflexivity|]). apply or_val_falsy.
Qed.

End PlainClient.

(** ** The urllib client *)

Section UrllibClient.

Import SimpleAIAgent SimpleRequest.

Variable urlopen_read : UrlRequest -> Z -> Result (list byte).
Variable json_dumps : pyval -> string.
Variable json_decoder : string -> Result pyval.

Abbreviation _make_request :=
  (_make_request urlopen_read json_dumps json_decoder).
Abbreviation prepared_request := (prepared_request json_dumps).
Abbreviation respond := (respond json_decoder).

(** [_make_request] asks the network once, for the request it prepared,
    with a timeout of 30 seconds. *)
Lemma simple_make_request_factors (a : Agent) (url : string) (data : pyval)
    (method : string) :
  _make_request a url data method
  = respond (urlopen_read (prepared_request a url data method) 30).
Proof.
  unfold SimpleAIAgent._make_request, request_body, SimpleRequest.respond,
    SimpleRequest.prepared_request.
  destruct (truthy data); reflexivity.
Qed.

Lemma not_URLError_not_HTTPError (e : exn) :
  isinstance e URLError = false -> isinstance e urllib_HTTPError = false.
Proof.
  unfold isinstance. destruct (exc_type e); vm_compute; congruence.
Qed.



End UrllibClient.

(** ** The further properties on sample inputs *)

Section MoreExamples.

Import ProxyRotatingAIAgent Trace Usage Text AgentWithProxy Samples MoreSamples.

Lemma make_request_rotates_proxies_witness :
  used_proxies dead_trace
  = map (fun p => Some (proxy_config p))
      ["http://p1:8080"; "http://p2:8080"; "http://p3:8080"; "http://p1:8080"] /\
  current_proxy_index
    (self (snd (make_request dead_proxies half "GET" status_url status_kwargs
                  sample_state))) = 1.
Proof.
  destruct (make_request_rotates_proxies dead_proxies half "GET" status_url
              status_kwargs sample_state dead_trace) as [H1 H2].
  - vm_compute. lia.
  - reflexivity.
  - split.
    + rewrite H1. vm_compute. reflexivity.
    + rewrite H2. vm_compute. reflexivity.
Defined.

Lemma make_request_stops_on_success_witness :
  drop 2 answered_trace = [] /\
  fst (make_request answering half "GET" status_url status_kwargs sample_state)
  = Return ok_response.
Proof.
  apply (make_request_stops_on_success answering half "GET" status_url
           status_kwargs sample_state (take 1 answered_trace)
           (status_request_via "http://p1:8080") (drop 2 answered_trace)
           ok_response).
  - vm_compute. reflexivity.
  - vm_compute. reflexivity.
Defined.

Lemma make_request_does_not_retry_other_exceptions_witness :
  drop 2 crashed_trace = [] /\
  fst (make_request crashing half "GET" status_url status_kwargs sample_state)
  = Raise (new_exn ValueError "Invalid header value").
Proof.
  apply (make_request_does_not_retry_other_exceptions crashing half "GET"
           status_url status_kwargs sample_state (take 1 crashed_trace)
           (status_request_via "http://p1:8080") (drop 2 crashed_trace)
           (new_exn ValueError "Invalid header value")).
  - vm_compute. reflexivity.
  - vm_compute. reflexivity.
  - vm_compute. reflexivity.
Defined.

Lemma make_request_returns_good_status_witness :
  ~ (400 <= status_code ok_response < 600)%Z /\
  exists hist req, answering hist req = Return ok_response.
Proof.
  apply (make_request_returns_good_status answering half "GET" status_url
           status_kwargs sample_state ok_response).
  vm_compute. reflexivity.
Defined.

Lemma make_request_sleep_budget_witness :
  length (sleeps_in flaky_trace) <= 3 /\
  (total_sleep flaky_trace <= 3 * inject_Z 3)%Q.
Proof.
  destruct (make_request_sleep_budget flaky_transport half "GET" status_url
              status_kwargs sample_state flaky_trace) as [Hn Hq].
  - reflexivity.
  - split; [exact Hn|]. apply Hq.
    intros h. unfold half. split; lra.
Defined.

Lemma stream_chat_yields_decoded_records_witness :
  fst (stream_chat
         (serves (streaming [line_a1; []; line_not_json; line_a2] None)) half
         sample_decoder "hello" PNone direct_state)
  = ([PDict {[ "a" := PInt 1 ]}; PDict {[ "a" := PInt 2 ]}], Return tt).
Proof.
  rewrite (stream_chat_yields_decoded_records
             (serves (streaming [line_a1; []; line_not_json; line_a2] None))
             half sample_decoder "hello" PNone direct_state
             (streaming [line_a1; []; line_not_json; line_a2] None)).
  - vm_compute. reflexivity.
  - vm_compute. reflexivity.
  - reflexivity.
  - repeat constructor.
  - repeat constructor; intros e; vm_compute; intros [= <-]; reflexivity.
Defined.

Lemma send_message_requests_witness :
  req_method hello_request = "POST" /\
  req_url hello_request = "http://agent.test" ++ "/api/chat" /\
  req_timeout hello_request = Some 30%Z /\
  req_stream hello_request = false /\
  req_json hello_request
  = Some (PDict (<["message" := PStr "hello"]>
                   (<["context" := PDict ∅]>
                      (<["timestamp" := PInt 1700000000]> ∅)))).
Proof.
  destruct (send_message_requests flaky_transport half sample_clock "hello"
              PNone single_proxy_state hello_trace hello_request)
    as (Hm & Hu & Ht & Hs & sent & Hj & Hf & _).
  - reflexivity.
  - apply list_elem_of_lookup_2 with (i := 4). vm_compute. reflexivity.
  - rewrite (Hf falsy_None) in Hj. repeat split; assumption.
Defined.

Lemma stream_chat_requests_witness :
  req_method hello_stream_request = "POST" /\
  req_url hello_stream_request = "http://agent.test" ++ "/api/stream" /\
  req_timeout hello_stream_request = Some 60%Z /\
  req_stream hello_stream_request = true /\
  req_json hello_stream_request
  = Some (PDict (<["message" := PStr "hello"]>
                   (<["context" := PDict ∅]>
                      (<["stream" := PBool true]> ∅)))).
Proof.
  destruct (stream_chat_requests flaky_transport half sample_decoder "hello"
              PNone single_proxy_state hello_stream_trace hello_stream_request)
    as (Hm & Hu & Ht & Hs & sent & Hj & Hf & _).
  - reflexivity.
  - apply list_elem_of_lookup_2 with (i := 4). vm_compute. reflexivity.
  - rewrite (Hf falsy_None) in Hj. repeat split; assumption.
Defined.

Lemma get_agent_status_requests_witness :
  req_method (status_request_via "http://p1:8080") = "GET" /\
  req_url (status_request_via "http://p1:8080")
  = "http://agent.test" ++ "/api/status" /\
  req_timeout (status_request_via "http://p1:8080") = Some 15%Z /\
  req_stream (status_request_via "http://p1:8080") = false /\
  req_json (status_request_via "http://p1:8080") = None.
Proof.
  apply (get_agent_status_requests flaky_transport half
           single_proxy_state status_trace
           (status_request_via "http://p1:8080")).
  - reflexivity.
  - apply list_elem_of_lookup_2 with (i := 4). vm_compute. reflexivity.
Defined.

Lemma load_proxy_list_entries_stripped_witness :
  "http://p1:8080" <> "" /\ strip "http://p1:8080" = "http://p1:8080".
Proof.
  apply (load_proxy_list_entries_stripped sample_environ sample_files).
  apply list_elem_of_lookup_2 with (i := 0). vm_compute. reflexivity.
Defined.

(** The file entries come first, then those of the variable; the comment
    lines of the file are gone, the field that looks like one is not. *)
Example load_proxy_list_sample :
  load_proxy_list sample_environ sample_files
  = ["http://p1:8080"; "http://p2:8080"; "http://p3:8080"; "#http://p4:8080"] /\
  load_proxy_list empty_environ empty_files = [] /\
  load_proxy_list ∅ ∅ = [].
Proof. repeat split; vm_compute; reflexivity. Qed.

(** White space of more than one byte is stripped too: U+00A0 in front,
    U+3000 and a line feed behind, U+2003 inside stays. *)
Example strip_unicode_space :
  strip (string_of_list_byte
           [xc2; xa0; x41; xe2; x80; x83; x42; xe3; x80; x80; x0a])
  = string_of_list_byte [x41; xe2; x80; x83; x42].
Proof. vm_compute. reflexivity. Qed.

End MoreExamples.

(** ** The console: [attached_assets/app_1765327409483.py] *)

Section Words.

Import Text Console.

Lemma flush_word (word : list byte) (rest : list (list byte)) :
  word <> [] -> flush word rest = word :: rest.
Proof. destruct word; [congruence | reflexivity]. Qed.

(** A word that was begun is delivered. *)
Lemma words_bytes_word (bs : list byte) :
  forall word, word <> [] -> words_bytes bs word <> [].
Proof.
  induction bs as [|b0 t0 IH]; intros word Hw.
  - cbn. rewrite flush_word by exact Hw. discriminate.
  - assert (Hnext : words_bytes t0 (word ++ [b0]) <> []).
    { apply IH. destruct word; discriminate. }
    cbn [words_bytes]. destruct (space1 b0).
    { rewrite flush_word by exact Hw. discriminate. }
    destruct t0 as [|b1 t1]; [exact Hnext|].
    destruct (space2 b0 b1).
    { rewrite flush_word by exact Hw. discriminate. }
    destruct t1 as [|b2 t2]; [exact Hnext|].
    destruct (space3 b0 b1 b2); [|exact Hnext].
    rewrite flush_word by exact Hw. discriminate.
Qed.

Lemma words_bytes_clean (bs : list byte) :
  bs <> [] -> starts_with_space space1 space2 space3 bs = false ->
  words_bytes bs [] <> [].
Proof.
  destruct bs as [|b0 t0]; [congruence|]. intros _ H.
  assert (Hnext : words_bytes t0 ([] ++ [b0]) <> []).
  { apply words_bytes_word. discriminate. }
  cbn [words_bytes]. cbn [starts_with_space] in H.
  apply orb_false_elim in H as [H1 H]. rewrite H1.
  destruct t0 as [|b1 t1]; [exact Hnext|].
  apply orb_false_elim in H as [H2 H]. rewrite H2.
  destruct t1 as [|b2 t2]; [exact Hnext|].
  rewrite H. exact Hnext.
Qed.

(** A line that is not blank has a first word. *)
Lemma words_strip (s : string) : strip s <> "" -> words (strip s) <> [].
Proof.
  intros Hs. unfold words, strip in *.
  rewrite list_byte_of_string_of_list_byte.
  set (bs := rstrip_bytes (lstrip_bytes (list_byte_of_string s))) in *.
  assert (Hbs : bs <> []). { intros E. rewrite E in Hs. apply Hs. reflexivity. }
  assert (Hc : starts_with_space space1 space2 space3 bs = false).
  { apply rstrip_bytes_keeps_front, strip_front_clean. }
  pose proof (words_bytes_clean bs Hbs Hc) as Hw.
  destruct (words_bytes bs []); [congruence | discriminate].
Qed.

End Words.

Section RegistryLemmas.

Import Console Registry.

Lemma dict_has_app {V} (key : string) (d d' : list (string * V)) :
  dict_has key (d ++ d') = dict_has key d || dict_has key d'.
Proof. apply existsb_app. Qed.

Lemma dict_has_keys {V} (key : string) (d : list (string * V)) :
  dict_has key d = existsb (String.eqb key) (map fst d).
Proof.
  induction d as [|kv d IH]; [reflexivity|].
  cbn. unfold dict_has in IH. rewrite IH, (String.eqb_sym key). reflexivity.
Qed.

Lemma distinct_snoc (names : list string) (name : string) :
  distinct names = true -> existsb (String.eqb name) names = false ->
  distinct (names ++ [name]) = true.
Proof.
  induction names as [|n rest IH]; [reflexivity|].
  cbn. intros Hd Hn.
  apply andb_true_iff in Hd as [Hd1 Hd2].
  apply orb_false_elim in Hn as [Hn1 Hn2].
  rewrite existsb_app, (IH Hd2 Hn2). cbn.
  rewrite (String.eqb_sym n name), Hn1.
  apply negb_true_iff in Hd1. rewrite Hd1. reflexivity.
Qed.

Lemma existsb_keys_filter {V} (p : string -> bool) (f : string * V -> bool)
    (d : list (string * V)) :
  existsb p (map fst d) = false ->
  existsb p (map fst (List.filter f d)) = false.
Proof.
  induction d as [|kv d IH]; [reflexivity|].
  cbn. intros H. apply orb_false_elim in H as [H1 H2].
  destruct (f kv); cbn; [rewrite H1|]; apply IH, H2.
Qed.

Lemma distinct_filter {V} (f : string * V -> bool) (d : list (string * V)) :
  distinct (map fst d) = true -> distinct (map fst (List.filter f d)) = true.
Proof.
  induction d as [|kv d IH]; [reflexivity|].
  cbn. intros H. apply andb_true_iff in H as [H1 H2].
  destruct (f kv); cbn; [|apply IH, H2].
  rewrite (IH H2), andb_true_r. apply negb_true_iff.
  apply existsb_keys_filter. apply negb_true_iff. exact H1.
Qed.

Lemma forallb_filter {A} (p f : A -> bool) (l : list A) :
  forallb p l = true -> forallb p (List.filter f l) = true.
Proof.
  induction l as [|a l IH]; [reflexivity|].
  cbn. intros H. apply andb_true_iff in H as [H1 H2].
  destruct (f a); cbn; [rewrite H1|]; apply IH, H2.
Qed.

(** Deleting the key that was added last gives back the [dict]. *)
Lemma dict_del_snoc {V} (key : string) (value : V) (d : list (string * V)) :
  dict_has key d = false -> dict_del key (d ++ [(key, value)]) = d.
Proof.
  unfold dict_del. intros H. rewrite List.filter_app. cbn.
  rewrite String.eqb_refl. cbn. rewrite app_nil_r.
  induction d as [|kv d IH]; [reflexivity|].
  cbn in H. apply orb_false_elim in H as [H1 H2].
  cbn. rewrite H1. cbn. f_equal. apply IH, H2.
Qed.

Lemma dict_set_new {V} (key : string) (value : V) (d : list (string * V)) :
  dict_has key d = false -> dict_set key value d = (d ++ [(key, value)])%list.
Proof. unfold dict_set. intros ->. reflexivity. Qed.

(** The registry never holds more bots than there are platforms. *)
Lemma registry_ok_bound (g : Globals) :
  registry_ok g = true -> length (active_bots g) <= 3.
Proof.
  unfold registry_ok. intros H. apply andb_true_iff in H as [Hd Hp].
  rewrite <- (length_map fst).
  change 3 with (length platforms).
  apply List.NoDup_incl_length.
  - clear Hp. induction (map fst (active_bots g)) as [|n rest IH];
      [constructor|].
    cbn in Hd. apply andb_true_iff in Hd as [H1 H2].
    constructor; [|apply IH, H2].
    intros Hin. apply negb_true_iff in H1.
    assert (existsb (String.eqb n) rest = true) as E; [|congruence].
    apply existsb_exists. exists n. split; [exact Hin | apply String.eqb_refl].
  - intros name Hin. apply in_map_iff in Hin as [kv [<- Hin]].
    rewrite forallb_forall in Hp. specialize (Hp kv Hin).
    unfold pristine in Hp.
    apply andb_true_iff in Hp as [Hp _]. apply andb_true_iff in Hp as [Hp _].
    unfold is_platform in Hp. apply existsb_exists in Hp as [p [Hp Heq]].
    apply String.eqb_eq in Heq. rewrite Heq. exact Hp.
Qed.

End RegistryLemmas.

Section ConsoleCommands.

Import Text Console Registry.

Variable datetime_now : nat -> string.
Variable str_lower : string -> string.
Variable parse_int : string -> option Z.
Variable clock_time : string -> Result string.

Abbreviation start := (cmd_start datetime_now str_lower).
Abbreviation stop := (cmd_stop str_lower).
Abbreviation comment := (cmd_comment str_lower parse_int).
Abbreviation history := (cmd_history parse_int clock_time).
Abbreviation test := (cmd_test str_lower).
Abbreviation registry :=
  (registry_commands datetime_now str_lower parse_int clock_time).
Abbreviation run := (process datetime_now str_lower).

Lemma cmd_start_history (args : list string) (g : Globals) :
  command_history (snd (start args g)) = command_history g.
Proof.
  unfold cmd_start. destruct args as [|arg rest]; [reflexivity|].
  destruct (is_platform (str_lower arg)); [|reflexivity]. cbn [negb].
  destruct (dict_has (str_lower arg) (active_bots g)); reflexivity.
Qed.

Lemma cmd_start_ok (args : list string) (g : Globals) :
  registry_ok g = true -> registry_ok (snd (start args g)) = true.
Proof.
  intros Hok. unfold cmd_start. destruct args as [|arg rest]; [exact Hok|].
  destruct (is_platform (str_lower arg)) eqn:Ep; [|exact Hok]. cbn [negb].
  destruct (dict_has (str_lower arg) (active_bots g)) eqn:Eh; [exact Hok|].
  cbn [now snd]. unfold set_bots. cbn [active_bots].
  rewrite dict_set_new by exact Eh.
  unfold registry_ok in *. cbn [active_bots].
  apply andb_true_iff in Hok as [Hd Hp].
  rewrite List.map_app, forallb_app, Hp. cbn [map fst forallb].
  rewrite distinct_snoc.
  - unfold pristine. cbn [fst snd bot_status comments_posted].
    rewrite Ep. reflexivity.
  - exact Hd.
  - rewrite <- dict_has_keys. exact Eh.
Qed.

Lemma cmd_stop_history (args : list string) (g : Globals) :
  command_history (snd (stop args g)) = command_history g.
Proof.
  unfold cmd_stop. destruct args as [|arg rest]; [reflexivity|].
  destruct (dict_has (str_lower arg) (active_bots g)); reflexivity.
Qed.

Lemma cmd_stop_ok (args : list string) (g : Globals) :
  registry_ok g = true -> registry_ok (snd (stop args g)) = true.
Proof.
  intros Hok. unfold cmd_stop. destruct args as [|arg rest]; [exact Hok|].
  destruct (dict_has (str_lower arg) (active_bots g)); [|exact Hok].
  cbn [negb snd]. unfold set_bots, registry_ok in *. cbn [active_bots].
  apply andb_true_iff in Hok as [Hd Hp]. unfold dict_del.
  rewrite distinct_filter by exact Hd. rewrite forallb_filter by exact Hp.
  reflexivity.
Qed.

Lemma cmd_comment_state (args : list string) (g : Globals) :
  snd (comment args g) = g.
Proof.
  unfold cmd_comment. destruct args as [|a0 [|a1 rest]]; try reflexivity.
  destruct (parse_int a1) as [count|]; [|reflexivity].
  destruct (is_platform (str_lower a0)); [|reflexivity]. cbn [negb].
  destruct ((count <? 1)%Z || (50 <? count)%Z); reflexivity.
Qed.

Lemma cmd_history_state (args : list string) (g : Globals) :
  snd (history args g) = g.
Proof.
  unfold cmd_history. destruct (command_history g); [reflexivity|].
  match goal with |- context [history_lines ?c ?i ?l] =>
    destruct (history_lines c i l) end; reflexivity.
Qed.

Lemma cmd_test_state (args : list string) (g : Globals) :
  snd (test args g) = g.
Proof.
  unfold cmd_test. destruct args as [|arg rest]; [reflexivity|].
  destruct (is_platform (str_lower arg)); reflexivity.
Qed.

Lemma total_state (f : list string -> Globals -> Reply * Globals)
    (args : list string) (g : Globals) :
  snd (total f args g) = snd (f args g).
Proof. unfold total. destruct (f args g). reflexivity. Qed.

(** The six commands of the registry. *)
Lemma registry_lookup (name : string) (handler : Handler) :
  registry !! name = Some handler ->
  handler = total start \/ handler = total stop \/ handler = total comment
  \/ handler = history \/ handler = total cmd_clear \/ handler = total test.
Proof.
  unfold registry_commands. intros H.
  repeat (apply lookup_insert_Some in H as [[_ <-]|[_ H]]; [tauto|]).
  rewrite lookup_empty in H. discriminate.
Qed.

(** A command of the table keeps the history, and keeps the registry in
    order. *)
Lemma handler_step (commands : gmap string Handler) (name : string)
    (handler : Handler) (args : list string) (g : Globals) :
  extends_registry datetime_now str_lower parse_int clock_time commands ->
  commands !! name = Some handler ->
  command_history (snd (handler args g)) = command_history g
  /\ (registry_ok g = true -> registry_ok (snd (handler args g)) = true).
Proof.
  intros [Hsub Hothers] Hl.
  destruct (registry !! name) as [known|] eqn:Ek.
  - pose proof (lookup_weaken _ _ _ _ Ek Hsub) as Hk.
    rewrite Hl in Hk. injection Hk as ->.
    destruct (registry_lookup _ _ Ek) as [-> | [-> | [-> | [-> | [-> | ->]]]]];
      rewrite ?total_state.
    + split; [apply cmd_start_history | apply cmd_start_ok].
    + split; [apply cmd_stop_history | apply cmd_stop_ok].
    + rewrite cmd_comment_state. tauto.
    + rewrite cmd_history_state. tauto.
    + cbn. tauto.
    + rewrite cmd_test_state. tauto.
  - destruct (Hothers name handler Hl Ek args g) as [Hb Hh].
    split; [exact Hh|]. unfold registry_ok. rewrite Hb. tauto.
Qed.

Lemma dispatch_state (commands : gmap string Handler) (cmd : string)
    (args : list string) (g : Globals) :
  snd (dispatch commands cmd args g) = g
  \/ exists handler,
       commands !! cmd = Some handler
       /\ snd (dispatch commands cmd args g) = snd (handler args g).
Proof.
  unfold dispatch. destruct (commands !! cmd) as [handler|]; [|left; reflexivity].
  right. exists handler. split; [reflexivity|].
  destruct (handler args g) as [[r|e] g']; [reflexivity|].
  destruct (isinstance e Exception); reflexivity.
Qed.

Lemma record_history (session : gmap string string) (cl : string)
    (g : Globals) :
  command_history (record datetime_now session cl g)
  = (command_history g
       ++ [{| timestamp := datetime_now (clock_reads g); command := cl;
              session_id := default "unknown" (session !! "session_id") |}])%list.
Proof. reflexivity. Qed.

Lemma record_bots (session : gmap string string) (cl : string) (g : Globals) :
  active_bots (record datetime_now session cl g) = active_bots g.
Proof. reflexivity. Qed.

(** X19. [process] never fails on [parts[0]]: a line is blank, and then
    answered with empty output and nothing is recorded, or it has a first
    word, and then it is recorded and dispatched on that word in lower case
    with the words after it as arguments. *)
Theorem process_blank_or_dispatched (commands : gmap string Handler)
    (session : gmap string string) (cl : string) (g : Globals) :
  (strip cl = "" /\ run commands session cl g = (Return (reply "" false), g))
  \/ exists part args,
       words (strip cl) = part :: args
       /\ run commands session cl g
          = dispatch commands (str_lower part) args
              (record datetime_now session cl g).
Proof.
  unfold process. destruct (nonempty (strip cl)) eqn:E.
  - right. apply nonempty_true in E. apply words_strip in E.
    destruct (words (strip cl)) as [|part args]; [congruence|].
    exists part, args. split; reflexivity.
  - left. split; [|reflexivity].
    destruct (String.eqb_spec (strip cl) ""); [assumption|].
    unfold nonempty in E. apply negb_false_iff in E.
    apply String.eqb_eq in E. exact E.
Qed.

(** X20. Whatever the command is, known or not, failing or not, a line that
    is not blank adds exactly one entry to the history, holding the line as
    it was typed, the time and the session; a blank line adds none. *)
Theorem process_history_grows (commands : gmap string Handler)
    (session : gmap string string) (cl : string) (g : Globals) :
  extends_registry datetime_now str_lower parse_int clock_time commands ->
  command_history (snd (run commands session cl g))
  = if nonempty (strip cl)
    then (command_history g
            ++ [{| timestamp := datetime_now (clock_reads g); command := cl;
                   session_id := default "unknown" (session !! "session_id")
                |}])%list
    else command_history g.
Proof.
  intros Hext.
  destruct (process_blank_or_dispatched commands session cl g)
    as [[Hb ->]|(part & args & Hw & ->)].
  - unfold nonempty. rewrite Hb. reflexivity.
  - assert (nonempty (strip cl) = true) as ->.
    { apply nonempty_true. intros E. rewrite E in Hw. discriminate. }
    rewrite <- record_history.
    destruct (dispatch_state commands (str_lower part) args
                (record datetime_now session cl g)) as [->|(h & Hl & ->)];
      [reflexivity|].
    apply (handler_step commands _ h args _ Hext Hl).
Qed.

Lemma process_ok (commands : gmap string Handler)
    (session : gmap string string) (cl : string) (g : Globals) :
  extends_registry datetime_now str_lower parse_int clock_time commands ->
  registry_ok g = true ->
  registry_ok (snd (run commands session cl g)) = true.
Proof.
  intros Hext Hok.
  destruct (process_blank_or_dispatched commands session cl g)
    as [[Hb ->]|(part & args & Hw & ->)]; [exact Hok|].
  assert (Hrec : registry_ok (record datetime_now session cl g) = true)
    by exact Hok.
  destruct (dispatch_state commands (str_lower part) args
              (record datetime_now session cl g)) as [->|(h & Hl & ->)];
    [exact Hrec|].
  apply (handler_step commands _ h args _ Hext Hl). exact Hrec.
Qed.

(** X21. Over any sequence of requests the registry stays in order: its
    bots are distinct platforms of the console, so at most three, each is
    [running], and no command ever counts a comment as posted. *)
Theorem registry_stays_in_order (commands : gmap string Handler)
    (lines : list (gmap string string * string)) (g : Globals) :
  extends_registry datetime_now str_lower parse_int clock_time commands ->
  registry_ok g = true ->
  registry_ok (after_lines datetime_now str_lower commands lines g) = true
  /\ length (active_bots (after_lines datetime_now str_lower commands lines g))
     <= 3.
Proof.
  intros Hext Hok.
  assert (H : registry_ok (after_lines datetime_now str_lower commands lines g)
              = true).
  { revert g Hok. induction lines as [|line lines IH]; intros g Hok;
      [exact Hok|].
    cbn. apply IH. apply process_ok; assumption. }
  split; [exact H | apply registry_ok_bound, H].
Qed.

(** X22. Starting a platform that is not running and stopping it again
    succeeds twice and gives back the registry as it was. *)
Theorem start_then_stop (arg : string) (rest : list string) (g : Globals) :
  is_platform (str_lower arg) = true ->
  dict_has (str_lower arg) (active_bots g) = false ->
  error (fst (start (arg :: rest) g)) = false
  /\ dict_has (str_lower arg) (active_bots (snd (start (arg :: rest) g)))
     = true
  /\ error (fst (stop (arg :: rest) (snd (start (arg :: rest) g)))) = false
  /\ active_bots (snd (stop (arg :: rest) (snd (start (arg :: rest) g))))
     = active_bots g.
Proof.
  intros Hp Hh. unfold cmd_start. rewrite Hp, Hh.
  cbn [negb now fst snd reply error]. unfold set_bots. cbn [active_bots].
  rewrite dict_set_new by exact Hh.
  assert (Hin : dict_has (str_lower arg)
                  (active_bots g
                     ++ [(str_lower arg,
                          {| bot_status := "running";
                             started_at := datetime_now (clock_reads g);
                             comments_posted := 0 |})]) = true).
  { rewrite dict_has_app. cbn. rewrite String.eqb_refl.
    apply orb_true_iff. right. reflexivity. }
  unfold cmd_stop. cbn [active_bots]. rewrite Hin.
  cbn [negb fst snd reply error]. unfold set_bots. cbn [active_bots].
  rewrite dict_del_snoc by exact Hh. auto.
Qed.

(** X23. [cmd_start] is idempotent on the globals: a second [start] of the
    same arguments changes nothing, so the time a bot was started at is not
    refreshed and the clock is not read again. *)
Theorem cmd_start_idempotent (args : list string) (g : Globals) :
  snd (start args (snd (start args g))) = snd (start args g).
Proof.
  unfold cmd_start. destruct args as [|arg rest]; [reflexivity|].
  destruct (is_platform (str_lower arg)) eqn:Ep; cbn [negb];
    [|reflexivity].
  destruct (dict_has (str_lower arg) (active_bots g)) eqn:Eh.
  { cbn [snd]. rewrite Eh. reflexivity. }
  cbn [now fst snd negb]. unfold set_bots. cbn [active_bots].
  rewrite dict_set_new by exact Eh.
  rewrite dict_has_app. cbn [dict_has existsb fst].
  rewrite String.eqb_refl. cbn [orb]. rewrite orb_true_r.
  reflexivity.
Qed.

(** X24. [cmd_comment] changes nothing, the registry included, and it
    accepts exactly the calls with a platform of the console and a count
    that [int] reads and that lies between 1 and 50; whether a bot runs for
    the platform plays no part. *)
Theorem cmd_comment_accepts (args : list string) (g : Globals) :
  snd (comment args g) = g
  /\ (error (fst (comment args g)) = false
      <-> exists platform number rest count,
            args = platform :: number :: rest
            /\ parse_int number = Some count
            /\ is_platform (str_lower platform) = true
            /\ (1 <= count <= 50)%Z).
Proof.
  split; [apply cmd_comment_state|].
  unfold cmd_comment. split.
  - destruct args as [|a0 [|a1 rest]]; try discriminate.
    destruct (parse_int a1) as [count|] eqn:Ei; [|discriminate].
    destruct (is_platform (str_lower a0)) eqn:Ep; [|discriminate].
    cbn [negb].
    destruct (count <? 1)%Z eqn:E1; [discriminate|].
    destruct (50 <? count)%Z eqn:E2; [discriminate|].
    intros _. exists a0, a1, rest, count.
    apply Z.ltb_ge in E1. apply Z.ltb_ge in E2. repeat split; auto.
  - intros (a0 & a1 & rest & count & -> & Ei & Ep & H1 & H2).
    rewrite Ei, Ep. cbn [negb].
    assert ((count <? 1)%Z = false) as -> by (apply Z.ltb_ge; lia).
    assert ((50 <? count)%Z = false) as -> by (apply Z.ltb_ge; lia).
    reflexivity.
Qed.

Lemma history_lines_total (entries : list HistoryEntry) :
  (forall e, In e entries -> exists t, clock_time (timestamp e) = Return t) ->
  forall i, exists lines, history_lines clock_time i entries = Return lines.
Proof.
  induction entries as [|e entries IH]; intros H i; [eexists; reflexivity|].
  destruct (H e (or_introl eq_refl)) as [t Ht].
  destruct (IH (fun e' Hin => H e' (or_intror Hin)) (S i)) as [lines Hl].
  cbn. rewrite Ht, Hl. eexists. reflexivity.
Qed.

Lemma In_drop {A} (n : nat) (l : list A) (x : A) : In x (drop n l) -> In x l.
Proof.
  revert n. induction l as [|a l IH]; intros [|n]; cbn; auto.
  intros H. right. exact (IH n H).
Qed.

(** X25. A [history] command typed at the console finds at least its own
    entry: the answer is never that there is no history, it lists the last
    ten entries of the history with the command itself as the last one, or
    all of them when there are fewer. *)
Theorem process_history_lists_itself (commands : gmap string Handler)
    (session : gmap string string) (cl part : string) (g : Globals) :
  extends_registry datetime_now str_lower parse_int clock_time commands ->
  words (strip cl) = [part] ->
  str_lower part = "history" ->
  (forall e, In e (command_history (record datetime_now session cl g)) ->
             exists t, clock_time (timestamp e) = Return t) ->
  exists lines,
    history_lines clock_time 1
      (last_slice 10 (command_history (record datetime_now session cl g)))
    = Return lines
    /\ last (command_history (record datetime_now session cl g))
       = Some {| timestamp := datetime_now (clock_reads g); command := cl;
                 session_id := default "unknown" (session !! "session_id") |}
    /\ run commands session cl g
       = (Return
            (reply ("📜 Last "
                    ++ pretty (Nat.min 10 (S (length (command_history g))))
                    ++ " Commands" ++ nl ++ nl ++ lines) false),
          record datetime_now session cl g).
Proof.
  intros [Hsub _] Hw Hpart Hclock.
  set (g1 := record datetime_now session cl g) in *.
  assert (Hlen : length (last_slice 10 (command_history g1))
                 = Nat.min 10 (S (length (command_history g)))).
  { unfold last_slice. cbn [Z.ltb Z.compare]. rewrite length_drop.
    unfold g1. rewrite record_history, length_app.
    change (Z.to_nat 10) with 10. cbn [length]. lia. }
  destruct (history_lines_total (last_slice 10 (command_history g1))) with (i := 1)
    as [lines Hlines].
  { intros e He. apply Hclock. unfold last_slice in He.
    cbn [Z.ltb Z.compare] in He. exact (In_drop _ _ _ He). }
  exists lines. split; [exact Hlines|]. split.
  { unfold g1. rewrite record_history. apply last_snoc. }
  destruct (process_blank_or_dispatched commands session cl g)
    as [[Hb _]|(part' & args & Hw' & ->)].
  { rewrite Hb in Hw. discriminate. }
  rewrite Hw in Hw'. injection Hw' as <- <-. rewrite Hpart.
  fold g1. unfold dispatch.
  assert (Hl : commands !! "history" = Some history).
  { apply (lookup_weaken registry); [reflexivity | exact Hsub]. }
  rewrite Hl. unfold cmd_history.
  destruct (command_history g1) as [|e0 es] eqn:Eh.
  { unfold g1 in Eh. rewrite record_history in Eh.
    destruct (command_history g); discriminate. }
  rewrite Hlines, Hlen. reflexivity.
Qed.

End ConsoleCommands.

Section ConsoleExamples.

Import Text Console Registry ConsoleSamples.

Lemma sample_commands_extend :
  extends_registry sample_now lower sample_int sample_clock_time
    sample_commands.
Proof.
  split.
  - apply insert_subseteq. reflexivity.
  - intros name handler Hl Hn. unfold sample_commands in Hl.
    destruct (decide (name = "help")) as [->|Hne].
    + rewrite lookup_insert_eq in Hl. injection Hl as <-.
      intros args g. split; reflexivity.
    + rewrite lookup_insert_ne in Hl by congruence. congruence.
Qed.

Lemma process_history_grows_witness :
  command_history
    (snd (process sample_now lower sample_commands sample_session
            "start Instagram" (startup None)))
  = [{| timestamp := "2024-05-01T10:00:00"; command := "start Instagram";
        session_id := "s-1" |}].
Proof.
  exact (process_history_grows sample_now lower sample_int sample_clock_time
           sample_commands sample_session "start Instagram" (startup None)
           sample_commands_extend).
Defined.

Lemma registry_stays_in_order_witness :
  registry_ok
    (after_lines sample_now lower sample_commands sample_requests
       (startup (Some sample_engine))) = true
  /\ length
       (active_bots
          (after_lines sample_now lower sample_commands sample_requests
             (startup (Some sample_engine)))) <= 3.
Proof.
  apply (registry_stays_in_order sample_now lower sample_int sample_clock_time
           sample_commands sample_requests (startup (Some sample_engine))).
  - exact sample_commands_extend.
  - reflexivity.
Defined.

Lemma start_then_stop_witness :
  error (fst (cmd_start sample_now lower ["TikTok"] (startup None))) = false
  /\ dict_has (lower "TikTok")
       (active_bots (snd (cmd_start sample_now lower ["TikTok"] (startup None))))
     = true
  /\ error
       (fst (cmd_stop lower ["TikTok"]
               (snd (cmd_start sample_now lower ["TikTok"] (startup None)))))
     = false
  /\ active_bots
       (snd (cmd_stop lower ["TikTok"]
               (snd (cmd_start sample_now lower ["TikTok"] (startup None)))))
     = active_bots (startup None).
Proof.
  apply (start_then_stop sample_now lower "TikTok" [] (startup None));
    reflexivity.
Defined.

Lemma process_history_lists_itself_witness :
  exists lines,
    history_lines sample_clock_time 1
      (last_slice 10
         (command_history
            (record sample_now sample_session " HISTORY " (startup None))))
    = Return lines
    /\ last (command_history
               (record sample_now sample_session " HISTORY " (startup None)))
       = Some {| timestamp := sample_now (clock_reads (startup None));
                 command := " HISTORY ";
                 session_id :=
                   default "unknown" (sample_session !! "session_id") |}
    /\ process sample_now lower sample_commands sample_session " HISTORY "
         (startup None)
       = (Return
            (reply ("📜 Last "
                    ++ pretty
                         (Nat.min 10
                            (S (length (command_history (startup None)))))
                    ++ " Commands" ++ nl ++ nl ++ lines) false),
          record sample_now sample_session " HISTORY " (startup None)).
Proof.
  apply (process_history_lists_itself sample_now lower sample_int
           sample_clock_time sample_commands sample_session " HISTORY "
           "HISTORY" (startup None)).
  - exact sample_commands_extend.
  - reflexivity.
  - reflexivity.
  - intros e _. eexists. reflexivity.
Defined.

(** A session of the console: two bots are started, one is stopped, a
    platform the console does not know is refused, and all six lines are in
    the history. *)
Example console_session :
  let g := after_lines sample_now lower sample_commands sample_requests
             (startup (Some sample_engine)) in
  map fst (active_bots g) = ["tiktok"]
  /\ map command (command_history g)
     = ["start Instagram"; "start tiktok"; "comment tiktok 5";
        "stop instagram"; "start youtube"; " HISTORY "].
Proof. split; reflexivity. Qed.

End ConsoleExamples.
